(** * cuse-maru: the OSS character device of libmaru

    A shallow embedding of [cuse-maru/cuse-maru.c]: the five CUSE
    operations (open, write, ioctl, poll, release), the volume mapper and
    the write-notification callback, followed by the properties of the
    specification that concern them.

    Every handler of the C file starts with
    [struct cuse_stream_info *stream_info = &g_state.stream_info[info->fh]]
    and from then on touches that one slot, the scalar members of
    [g_state] and the outside world.  A handler is therefore a
    computation over a [machine]: the scalar part of [g_state], the slot
    under [stream_info], and the list of calls made to libmaru, to FUSE
    and to pthreads, in the order they are made.  Only [maru_open] scans
    the table and is modelled on the whole table. *)

From Stdlib Require Import ZArith List Bool Lia.
Import ListNotations.
Local Open Scope Z_scope.

(** ** C integers

    [int] and [unsigned] are 32 bits wide, [size_t] is 64 bits wide
    (Linux, LP64).  Values are kept in [Z]; a conversion is written where
    the C code converts. *)

Definition to_uint (z : Z) : Z := z mod 2 ^ 32.

Definition to_int (z : Z) : Z := (z + 2 ^ 31) mod 2 ^ 32 - 2 ^ 31.

Definition to_size_t (z : Z) : Z := z mod 2 ^ 64.

Definition INT_MAX : Z := 2 ^ 31 - 1.

Definition SIZE_MAX : Z := 2 ^ 64 - 1.

(** [a << k] on [int]: defined only for [0 <= a], [0 <= k < 32] and a
    result that [int] can hold (C99 6.5.7). *)
Definition int_shl (a k : Z) : option Z :=
  if (a <? 0) || (k <? 0) || (32 <=? k) then None
  else if Z.shiftl a k <=? INT_MAX then Some (Z.shiftl a k) else None.

(** ** Constants of the system headers (Linux values) *)

Definition EIO : Z := 5.
Definition EAGAIN : Z := 11.
Definition ENOMEM : Z := 12.
Definition EACCES : Z := 13.
Definition EBUSY : Z := 16.
Definition EINVAL : Z := 22.
Definition EPIPE : Z := 32.

Definition O_RDONLY : Z := 0.
Definition O_WRONLY : Z := 1.
Definition O_RDWR : Z := 2.
Definition O_NONBLOCK : Z := 2048.

Definition POLLOUT : Z := 4.
Definition POLLHUP : Z := 16.

Definition AFMT_U8 : Z := 8.
Definition AFMT_S16_LE : Z := 16.

Definition DSP_CAP_REALTIME : Z := 512.
Definition DSP_CAP_TRIGGER : Z := 4096.
Definition DSP_CAP_MULTI : Z := 16384.

(** ** libmaru.h and utils.h *)

(** Neither header is part of the sources at hand.  The two constants
    of libmaru.h that the handlers compare against are left open:
    everything below holds for any value of them. *)
Class libmaru_h : Type := {
  LIBMARU_STREAM_MASTER : Z;
  LIBMARU_VOLUME_MUTE : Z
}.

(** Modelled from the spec: [struct maru_stream_desc] of libmaru.h, the
    format descriptor of section 6 (sample rate, channels, bits,
    fragment size, buffer size), with the two rate bounds that the
    set-sample-rate handler reads. *)
Record maru_stream_desc : Type := {
  desc_sample_rate : Z;
  desc_sample_rate_min : Z;
  desc_sample_rate_max : Z;
  desc_channels : Z;
  desc_bits : Z;
  desc_fragment_size : Z;
  desc_buffer_size : Z
}.

(** What the hardware transport answers while one handler runs.  Every
    handler asks each question at most once. *)
Record libmaru : Type := {
  maru_find_available_stream : Z;
  maru_stream_open_ok : Z -> maru_stream_desc -> bool;
  maru_stream_write_avail : Z -> Z;
  maru_stream_write_ret : Z -> list Byte.byte -> Z -> Z;
  maru_stream_set_volume_ok : Z -> Z -> bool;
  maru_stream_get_volume_cur : Z -> option Z;
  maru_get_num_streams : Z;
  maru_get_stream_desc : Z -> Z * list maru_stream_desc;
  maru_stream_current_latency : Z -> Z
}.

(** Modelled from the spec: [next_pot] of utils.h, which is not among the
    sources.  Section 4.3 says that the fragment count is rounded "up to
    the next power of two", and section 8 that the stored count is "the
    next power of two >= requested". *)
Definition next_pot (v : Z) : Z := 2 ^ Z.log2_up v.

Definition is_pot (n : Z) : Prop := exists k, 0 <= k /\ n = 2 ^ k.

(** ** The slot and the global state *)

(** Modelled from the spec: [struct cuse_stream_info] of cuse-maru.h,
    which is not among the sources.  The members are the ones the
    handlers name; section 3 lists the same ones under "Stream Slot".
    The format and geometry members are C [unsigned], like the members
    of [struct maru_param] they are initialised from; [write_cnt] is a
    [size_t], like the [driver_write_cnt] that reads it; [ph] is a
    pointer, [None] when NULL; the mutex [lock] is [true] while held. *)
Record cuse_stream_info : Type := {
  active : bool;
  stream : Z;
  sample_rate : Z;
  channels : Z;
  bits : Z;
  fragsize : Z;
  frags : Z;
  write_cnt : Z;
  nonblock : bool;
  error : bool;
  vol : Z;
  ph : option Z;
  lock : bool;
  process_name : list Byte.byte
}.

(** Modelled from the spec: [struct cuse_maru_state] of cuse-maru.h,
    which is not among the sources, without the slot table and the
    libmaru context: the configured defaults, the hardware volume range
    and the global mutex of section 3, "Global Device Context". *)
Record cuse_maru_state : Type := {
  g_lock : bool;
  g_frags : Z;
  g_fragsize : Z;
  g_sample_rate : Z;
  g_min_volume : Z;
  g_max_volume : Z
}.

(** [memset(stream_info, 0, sizeof( *stream_info))] *)
Definition zero_stream_info : cuse_stream_info :=
  {| active := false; stream := 0; sample_rate := 0; channels := 0;
     bits := 0; fragsize := 0; frags := 0; write_cnt := 0;
     nonblock := false; error := false; vol := 0; ph := None;
     lock := false; process_name := [] |}.

Definition set_active (v : bool) (s : cuse_stream_info) : cuse_stream_info :=
  {| active := v; stream := stream s; sample_rate := sample_rate s;
     channels := channels s; bits := bits s; fragsize := fragsize s;
     frags := frags s; write_cnt := write_cnt s; nonblock := nonblock s;
     error := error s; vol := vol s; ph := ph s; lock := lock s;
     process_name := process_name s |}.

Definition set_stream (v : Z) (s : cuse_stream_info) : cuse_stream_info :=
  {| active := active s; stream := v; sample_rate := sample_rate s;
     channels := channels s; bits := bits s; fragsize := fragsize s;
     frags := frags s; write_cnt := write_cnt s; nonblock := nonblock s;
     error := error s; vol := vol s; ph := ph s; lock := lock s;
     process_name := process_name s |}.

Definition set_sample_rate (v : Z) (s : cuse_stream_info) : cuse_stream_info :=
  {| active := active s; stream := stream s; sample_rate := v;
     channels := channels s; bits := bits s; fragsize := fragsize s;
     frags := frags s; write_cnt := write_cnt s; nonblock := nonblock s;
     error := error s; vol := vol s; ph := ph s; lock := lock s;
     process_name := process_name s |}.

Definition set_channels (v : Z) (s : cuse_stream_info) : cuse_stream_info :=
  {| active := active s; stream := stream s; sample_rate := sample_rate s;
     channels := v; bits := bits s; fragsize := fragsize s;
     frags := frags s; write_cnt := write_cnt s; nonblock := nonblock s;
     error := error s; vol := vol s; ph := ph s; lock := lock s;
     process_name := process_name s |}.

Definition set_bits (v : Z) (s : cuse_stream_info) : cuse_stream_info :=
  {| active := active s; stream := stream s; sample_rate := sample_rate s;
     channels := channels s; bits := v; fragsize := fragsize s;
     frags := frags s; write_cnt := write_cnt s; nonblock := nonblock s;
     error := error s; vol := vol s; ph := ph s; lock := lock s;
     process_name := process_name s |}.

Definition set_fragsize (v : Z) (s : cuse_stream_info) : cuse_stream_info :=
  {| active := active s; stream := stream s; sample_rate := sample_rate s;
     channels := channels s; bits := bits s; fragsize := v;
     frags := frags s; write_cnt := write_cnt s; nonblock := nonblock s;
     error := error s; vol := vol s; ph := ph s; lock := lock s;
     process_name := process_name s |}.

Definition set_frags (v : Z) (s : cuse_stream_info) : cuse_stream_info :=
  {| active := active s; stream := stream s; sample_rate := sample_rate s;
     channels := channels s; bits := bits s; fragsize := fragsize s;
     frags := v; write_cnt := write_cnt s; nonblock := nonblock s;
     error := error s; vol := vol s; ph := ph s; lock := lock s;
     process_name := process_name s |}.

Definition set_write_cnt (v : Z) (s : cuse_stream_info) : cuse_stream_info :=
  {| active := active s; stream := stream s; sample_rate := sample_rate s;
     channels := channels s; bits := bits s; fragsize := fragsize s;
     frags := frags s; write_cnt := v; nonblock := nonblock s;
     error := error s; vol := vol s; ph := ph s; lock := lock s;
     process_name := process_name s |}.

Definition set_nonblock (v : bool) (s : cuse_stream_info) : cuse_stream_info :=
  {| active := active s; stream := stream s; sample_rate := sample_rate s;
     channels := channels s; bits := bits s; fragsize := fragsize s;
     frags := frags s; write_cnt := write_cnt s; nonblock := v;
     error := error s; vol := vol s; ph := ph s; lock := lock s;
     process_name := process_name s |}.

Definition set_vol (v : Z) (s : cuse_stream_info) : cuse_stream_info :=
  {| active := active s; stream := stream s; sample_rate := sample_rate s;
     channels := channels s; bits := bits s; fragsize := fragsize s;
     frags := frags s; write_cnt := write_cnt s; nonblock := nonblock s;
     error := error s; vol := v; ph := ph s; lock := lock s;
     process_name := process_name s |}.

Definition set_ph (v : option Z) (s : cuse_stream_info) : cuse_stream_info :=
  {| active := active s; stream := stream s; sample_rate := sample_rate s;
     channels := channels s; bits := bits s; fragsize := fragsize s;
     frags := frags s; write_cnt := write_cnt s; nonblock := nonblock s;
     error := error s; vol := vol s; ph := v; lock := lock s;
     process_name := process_name s |}.

Definition set_lock (v : bool) (s : cuse_stream_info) : cuse_stream_info :=
  {| active := active s; stream := stream s; sample_rate := sample_rate s;
     channels := channels s; bits := bits s; fragsize := fragsize s;
     frags := frags s; write_cnt := write_cnt s; nonblock := nonblock s;
     error := error s; vol := vol s; ph := ph s; lock := v;
     process_name := process_name s |}.

Definition set_process_name (v : list Byte.byte) (s : cuse_stream_info)
  : cuse_stream_info :=
  {| active := active s; stream := stream s; sample_rate := sample_rate s;
     channels := channels s; bits := bits s; fragsize := fragsize s;
     frags := frags s; write_cnt := write_cnt s; nonblock := nonblock s;
     error := error s; vol := vol s; ph := ph s; lock := lock s;
     process_name := v |}.

Definition set_g_lock (v : bool) (g : cuse_maru_state) : cuse_maru_state :=
  {| g_lock := v; g_frags := g_frags g; g_fragsize := g_fragsize g;
     g_sample_rate := g_sample_rate g; g_min_volume := g_min_volume g;
     g_max_volume := g_max_volume g |}.

(** ** Calls to the outside world *)

(** [struct audio_buf_info] and [struct count_info] of sys/soundcard.h:
    all members are [int]. *)
Record audio_buf_info : Type := {
  abi_fragments : Z;
  abi_fragstotal : Z;
  abi_fragsize : Z;
  abi_bytes : Z
}.

Record count_info : Type := {
  ci_bytes : Z;
  ci_blocks : Z;
  ci_ptr : Z
}.

(** The buffer handed to [fuse_reply_ioctl]. *)
Inductive ioctl_out : Type :=
| out_null
| out_int (i : Z)
| out_audio_buf_info (a : audio_buf_info)
| out_count_info (c : count_info).

(** [struct iovec]: base and length; [{}] is [(0, 0)]. *)
Definition iovec : Type := (Z * Z)%type.

Inductive mutex : Type :=
| g_state_lock
| stream_info_lock.

Module Call.

Inductive t : Type :=
| pthread_mutex_init (m : mutex)
| pthread_mutex_lock (m : mutex)
| pthread_mutex_unlock (m : mutex)
| pthread_mutex_destroy (m : mutex)
| maru_stream_open (stream : Z) (desc : maru_stream_desc)
| maru_stream_set_write_notification (stream : Z)
| maru_stream_write (stream : Z) (data : list Byte.byte) (size : Z)
| maru_stream_set_volume (stream : Z) (volume : Z)
| maru_stream_close (stream : Z)
| usleep (usec : Z)
| fuse_lowlevel_notify_poll (ph : Z)
| fuse_pollhandle_destroy (ph : Z)
| fuse_reply_err (err : Z)
| fuse_reply_open (fh : Z)
| fuse_reply_write (count : Z)
| fuse_reply_poll (revents : Z)
| fuse_reply_ioctl (result : Z) (out : ioctl_out)
| fuse_reply_ioctl_retry (in_iov out_iov : iovec).

End Call.

(** The calls that answer the request. *)
Definition is_reply (c : Call.t) : bool :=
  match c with
  | Call.fuse_reply_err _ | Call.fuse_reply_open _ | Call.fuse_reply_write _
  | Call.fuse_reply_poll _ | Call.fuse_reply_ioctl _ _
  | Call.fuse_reply_ioctl_retry _ _ => true
  | _ => false
  end.

(** ** The handler monad

    State passing over the machine; [None] stands for an execution that
    does not return to FUSE: one that the C standard leaves undefined
    (division by zero, an oversized shift), one that [assert] aborts, or
    one that waits for ever on a mutex that is held. *)

Record machine : Type := {
  g_state : cuse_maru_state;
  stream_info : cuse_stream_info;
  calls : list Call.t
}.

Definition M (A : Type) : Type := machine -> option (A * machine).

Definition ret {A : Type} (a : A) : M A := fun m => Some (a, m).

Definition bind {A B : Type} (c : M A) (k : A -> M B) : M B :=
  fun m => match c m with
           | Some (a, m') => k a m'
           | None => None
           end.

Notation "x <- c ;; k" := (bind c (fun x => k))
  (at level 61, c at next level, right associativity).
Notation "c ;; k" := (bind c (fun _ => k))
  (at level 61, right associativity).

Definition undefined {A : Type} : M A := fun _ => None.

Definition get_info : M cuse_stream_info :=
  fun m => Some (stream_info m, m).

Definition get_g : M cuse_maru_state :=
  fun m => Some (g_state m, m).

Definition update (f : cuse_stream_info -> cuse_stream_info) : M unit :=
  fun m => Some (tt, {| g_state := g_state m;
                        stream_info := f (stream_info m);
                        calls := calls m |}).

Definition update_g (f : cuse_maru_state -> cuse_maru_state) : M unit :=
  fun m => Some (tt, {| g_state := f (g_state m);
                        stream_info := stream_info m;
                        calls := calls m |}).

Definition call (c : Call.t) : M unit :=
  fun m => Some (tt, {| g_state := g_state m;
                        stream_info := stream_info m;
                        calls := calls m ++ [c] |}).

Definition assert (b : bool) : M unit :=
  if b then ret tt else undefined.

(** Unsigned division and remainder; a zero divisor is undefined. *)
Definition udiv (a b : Z) : M Z :=
  if b =? 0 then undefined else ret (a / b).

Definition umod (a b : Z) : M Z :=
  if b =? 0 then undefined else ret (a mod b).

(** A handler that waits for ever does not return either. *)
Definition blocked {A : Type} : M A := fun _ => None.

(** [g_state.lock] can be held when a handler starts: the volume
    commands of [maru_ioctl] break out without unlocking when the
    transport fails.  Nobody unlocks it after that, so the handler that
    takes it next waits for ever.  The lock of a slot is taken by
    [maru_poll] and [write_notification_cb] only, and both unlock it on
    every path before they return. *)
Definition pthread_mutex_lock (m : mutex) : M unit :=
  call (Call.pthread_mutex_lock m) ;;
  match m with
  | g_state_lock =>
      g <- get_g ;;
      if g_lock g then blocked else update_g (set_g_lock true)
  | stream_info_lock => update (set_lock true)
  end.

Definition pthread_mutex_unlock (m : mutex) : M unit :=
  match m with
  | g_state_lock => update_g (set_g_lock false)
  | stream_info_lock => update (set_lock false)
  end ;;
  call (Call.pthread_mutex_unlock m).

(** Running a handler on a slot, from an empty list of calls. *)
Definition exec (h : M unit) (g : cuse_maru_state) (s : cuse_stream_info)
  : option (cuse_maru_state * cuse_stream_info * list Call.t) :=
  match h {| g_state := g; stream_info := s; calls := [] |} with
  | Some (_, m) => Some (g_state m, stream_info m, calls m)
  | None => None
  end.

(** ** write *)

Section Handlers.

Context {H : libmaru_h}.

(** The compound literal that [init_stream] passes to
    [maru_stream_open]; the members it does not name are zero. *)
Definition init_desc (info : cuse_stream_info) : maru_stream_desc :=
  {| desc_sample_rate := sample_rate info;
     desc_sample_rate_min := 0;
     desc_sample_rate_max := 0;
     desc_channels := channels info;
     desc_bits := bits info;
     desc_fragment_size := fragsize info;
     desc_buffer_size := to_uint (fragsize info * frags info) |}.

Definition init_stream (hw : libmaru) : M bool :=
  info <- get_info ;;
  let stream := maru_find_available_stream hw in
  if stream <? 0 then ret false
  else
    let desc := init_desc info in
    call (Call.maru_stream_open stream desc) ;;
    if negb (maru_stream_open_ok hw stream desc) then ret false
    else
      call (Call.maru_stream_set_write_notification stream) ;;
      update (set_stream stream) ;;
      ret true.

Definition maru_write (hw : libmaru) (flags : Z) (data : list Byte.byte)
  (size : Z) : M unit :=
  stream_info <- get_info ;;
  if error stream_info then call (Call.fuse_reply_err EPIPE)
  else if size =? 0 then call (Call.fuse_reply_write 0)
  else
    bound <- (if stream stream_info =? LIBMARU_STREAM_MASTER
              then init_stream hw else ret true) ;;
    if negb bound then call (Call.fuse_reply_err EBUSY)
    else
      stream_info <- get_info ;;
      let nonblock :=
        negb (Z.land flags O_NONBLOCK =? 0) || nonblock stream_info in
      to_write <-
        (if nonblock then
           let to_write := maru_stream_write_avail hw (stream stream_info) in
           let frame_size :=
             to_uint (channels stream_info * bits stream_info) / 8 in
           to_write <- udiv to_write frame_size ;;
           let to_write := to_size_t (to_write * frame_size) in
           ret (if size <? to_write then size else to_write)
         else ret size) ;;
      if to_write =? 0 then call (Call.fuse_reply_err EAGAIN)
      else
        let r := maru_stream_write_ret hw (stream stream_info) data to_write in
        call (Call.maru_stream_write (stream stream_info) data to_write) ;;
        if r =? 0 then call (Call.fuse_reply_err EIO)
        else
          update (set_write_cnt (to_size_t (write_cnt stream_info + r))) ;;
          call (Call.fuse_reply_write r).


(** ** The volume mapper

    [maru_volume] is declared in libmaru.h; volumes are kept in [Z] and
    [/] is the C division, which truncates ([Z.quot]). *)

Definition set_volume (hw : libmaru) (volume : Z) : M bool :=
  g <- get_g ;;
  stream_info <- get_info ;;
  let min := g_min_volume g in
  let max := g_max_volume g in
  let i := volume in
  let vol :=
    if 0 <? i then Z.quot (max * i + min * (100 - i)) 100
    else LIBMARU_VOLUME_MUTE in
  let vol :=
    if (vol <? min) && (0 <? i) then min
    else if max <? vol then max
    else vol in
  call (Call.maru_stream_set_volume (stream stream_info) vol) ;;
  if negb (maru_stream_set_volume_ok hw (stream stream_info) vol)
  then ret false
  else
    update (set_vol vol) ;;
    ret true.

Definition read_volume (hw : libmaru) : M bool :=
  g <- get_g ;;
  stream_info <- get_info ;;
  let min := g_min_volume g in
  let max := g_max_volume g in
  match maru_stream_get_volume_cur hw (stream stream_info) with
  | None => ret false
  | Some cur =>
      let i :=
        if max <=? min then 100
        else if cur <? min then 0
        else if max <? cur then 100
        else Z.quot (100 * (cur - min)) (max - min) in
      update (set_vol i) ;;
      ret true
  end.

(** ** ioctl *)

Inductive ioctl_cmd : Type :=
| OSS_GETVERSION
| SNDCTL_DSP_COOKEDMODE
| SNDCTL_DSP_NONBLOCK
| SNDCTL_DSP_GETCAPS
| SNDCTL_DSP_RESET
| SNDCTL_DSP_HALT
| SNDCTL_DSP_SPEED
| SNDCTL_DSP_GETFMTS
| SNDCTL_DSP_SETFMT
| SNDCTL_DSP_CHANNELS
| SNDCTL_DSP_STEREO
| SNDCTL_DSP_GETOSPACE
| SNDCTL_DSP_GETBLKSIZE
| SNDCTL_DSP_SETFRAGMENT
| SNDCTL_DSP_GETODELAY
| SNDCTL_DSP_SYNC
| SNDCTL_DSP_GETOPTR
| SNDCTL_DSP_SETPLAYVOL
| SNDCTL_DSP_GETPLAYVOL
| SNDCTL_DSP_SETTRIGGER
| SNDCTL_DSP_POST
| SNDCTL_other (cmd : Z).

(** The arguments of the ioctl request besides the command: the user
    address, the [int] held by the input buffer when the framework has
    materialised it, and the two buffer sizes. *)
Record ioctl_args : Type := {
  uarg : Z;
  in_buf : Z;
  in_bufsize : Z;
  out_bufsize : Z
}.

(** [ioctl_prep_uarg]: [inp] and [outp] are the sizes behind the [in]
    and [out] pointers, [None] for NULL; [i] is the [int] that [in]
    points to.  Returns [retry] and the value of [i] after the memcpy. *)
Definition ioctl_prep_uarg (a : ioctl_args) (inp outp : option Z) (i : Z)
  : M (bool * Z) :=
  r1 <- match inp with
        | None => ret (false, (0, 0), i)
        | Some in_size =>
            if in_bufsize a =? 0 then ret (true, (uarg a, in_size), i)
            else
              assert (in_bufsize a =? in_size) ;;
              ret (false, (0, 0), to_int (in_buf a))
        end ;;
  let '(retry, in_iov, i) := r1 in
  r2 <- match outp with
        | None => ret (retry, (0, 0))
        | Some out_size =>
            if out_bufsize a =? 0 then ret (true, (uarg a, out_size))
            else
              assert (out_bufsize a =? out_size) ;;
              ret (retry, (0, 0))
        end ;;
  let '(retry, out_iov) := r2 in
  (if retry : bool then call (Call.fuse_reply_ioctl_retry in_iov out_iov)
   else ret tt) ;;
  ret (retry, i).

Definition sizeof_int : Z := 4.
Definition sizeof_audio_buf_info : Z := 16.
Definition sizeof_count_info : Z := 12.

Definition IOCTL_RETURN (out : ioctl_out) : M unit :=
  call (Call.fuse_reply_ioctl 0 out).

Definition IOCTL_RETURN_NULL : M unit :=
  call (Call.fuse_reply_ioctl 0 out_null).

(** [PREP_UARG_OUT(&x)] and [PREP_UARG_INOUT(&i, &i)]: the handler
    returns when the request has to be retried. *)
Definition PREP_UARG_OUT (a : ioctl_args) (size : Z) (k : M unit) : M unit :=
  r <- ioctl_prep_uarg a None (Some size) 0 ;;
  if fst r then ret tt else k.

Definition PREP_UARG_INOUT (a : ioctl_args) (i : Z) (k : Z -> M unit)
  : M unit :=
  r <- ioctl_prep_uarg a (Some sizeof_int) (Some sizeof_int) i ;;
  if fst r then ret tt else k (snd r).

Definition lift_option {A : Type} (o : option A) : M A :=
  match o with
  | Some a => ret a
  | None => undefined
  end.

Definition ioctl_reset : M unit :=
  stream_info <- get_info ;;
  (if negb (stream stream_info =? LIBMARU_STREAM_MASTER) then
     call (Call.maru_stream_close (stream stream_info)) ;;
     update (set_stream LIBMARU_STREAM_MASTER) ;;
     update (set_write_cnt 0)
   else ret tt) ;;
  IOCTL_RETURN_NULL.

Definition ioctl_speed (hw : libmaru) (a : ioctl_args) : M unit :=
  PREP_UARG_INOUT a 0 (fun i =>
    stream_info <- get_info ;;
    let stream := stream stream_info in
    let avail := maru_find_available_stream hw in
    if (stream =? LIBMARU_STREAM_MASTER) && (avail <? 0)
    then call (Call.fuse_reply_err EBUSY)
    else
      let stream :=
        if stream =? LIBMARU_STREAM_MASTER then avail else stream in
      let '(rc, descs) := maru_get_stream_desc hw stream in
      match descs with
      | [] => call (Call.fuse_reply_err ENOMEM)
      | desc :: _ =>
          if rc <? 0 then call (Call.fuse_reply_err ENOMEM)
          else
            let rate := desc_sample_rate desc in
            let i :=
              if negb (rate =? 0) && negb (i =? to_int rate)
              then to_int rate
              else if rate =? 0 then
                if to_int (desc_sample_rate_max desc) <? i
                then to_int (desc_sample_rate_max desc)
                else if i <? to_int (desc_sample_rate_min desc)
                then to_int (desc_sample_rate_min desc)
                else i
              else i in
            update (set_sample_rate (to_uint i)) ;;
            IOCTL_RETURN (out_int i)
      end).

Definition ioctl_setfmt (a : ioctl_args) : M unit :=
  PREP_UARG_INOUT a 0 (fun i =>
    stream_info <- get_info ;;
    let i :=
      if bits stream_info =? 8 then AFMT_U8
      else if bits stream_info =? 16 then AFMT_S16_LE
      else i in
    IOCTL_RETURN (out_int i)).

Definition ioctl_getospace (hw : libmaru) (a : ioctl_args) : M unit :=
  stream_info <- get_info ;;
  let write_avail :=
    if negb (stream stream_info =? LIBMARU_STREAM_MASTER)
    then maru_stream_write_avail hw (stream stream_info)
    else to_uint (fragsize stream_info * frags stream_info - 1) in
  fragments <- udiv write_avail (fragsize stream_info) ;;
  let audio_info :=
    {| abi_bytes := to_int write_avail;
       abi_fragments := to_int fragments;
       abi_fragsize := to_int (fragsize stream_info);
       abi_fragstotal := to_int (frags stream_info) |} in
  PREP_UARG_OUT a sizeof_audio_buf_info
    (IOCTL_RETURN (out_audio_buf_info audio_info)).

Definition ioctl_setfragment (a : ioctl_args) : M unit :=
  stream_info <- get_info ;;
  if negb (stream stream_info =? LIBMARU_STREAM_MASTER)
  then call (Call.fuse_reply_err EINVAL)
  else
    PREP_UARG_INOUT a 0 (fun i =>
      let frags := Z.land (Z.shiftr i 16) 65535 in
      fragsize <- lift_option (int_shl 1 (Z.land i 65535)) ;;
      if (fragsize <? 512) || (frags <? 2)
      then call (Call.fuse_reply_err EINVAL)
      else
        update (set_fragsize fragsize) ;;
        update (set_frags (next_pot frags)) ;;
        IOCTL_RETURN (out_int i)).

(** [maru_usec] is declared in libmaru.h; the product is taken in [Z]
    and converted when it is assigned to [i]. *)
Definition ioctl_getodelay (hw : libmaru) (a : ioctl_args) : M unit :=
  PREP_UARG_OUT a sizeof_int (
    stream_info <- get_info ;;
    let lat := maru_stream_current_latency hw (stream stream_info) in
    let i :=
      if lat <? 0 then 0
      else to_int (Z.quot (Z.quot (lat * sample_rate stream_info
                                   * channels stream_info
                                   * bits stream_info) 8) 1000000) in
    IOCTL_RETURN (out_int i)).

Definition ioctl_sync (hw : libmaru) : M unit :=
  stream_info <- get_info ;;
  (if negb (stream stream_info =? LIBMARU_STREAM_MASTER) then
     let lat := maru_stream_current_latency hw (stream stream_info) in
     if 0 <=? lat then call (Call.usleep lat) else ret tt
   else ret tt) ;;
  IOCTL_RETURN_NULL.

Definition ioctl_getoptr (hw : libmaru) (a : ioctl_args) : M unit :=
  stream_info <- get_info ;;
  let driver_write_cnt :=
    if negb (stream stream_info =? LIBMARU_STREAM_MASTER) then
      let write_avail := maru_stream_write_avail hw (stream stream_info) in
      to_size_t (to_size_t (write_cnt stream_info + write_avail)
                 - to_uint (fragsize stream_info * frags stream_info - 1))
    else 0 in
  blocks <- udiv driver_write_cnt (fragsize stream_info) ;;
  ptr <- umod driver_write_cnt
           (to_uint (fragsize stream_info * frags stream_info)) ;;
  let ci :=
    {| ci_bytes := to_int driver_write_cnt;
       ci_blocks := to_int blocks;
       ci_ptr := to_int ptr |} in
  PREP_UARG_OUT a sizeof_count_info (IOCTL_RETURN (out_count_info ci)).

Definition ioctl_setplayvol (hw : libmaru) (a : ioctl_args) : M unit :=
  PREP_UARG_INOUT a 0 (fun i =>
    let left := Z.land i 255 in
    pthread_mutex_lock g_state_lock ;;
    ok <- set_volume hw left ;;
    if negb ok then call (Call.fuse_reply_err EIO)
    else
      pthread_mutex_unlock g_state_lock ;;
      let i := Z.lor (Z.shiftl left 8) left in
      IOCTL_RETURN (out_int i)).

Definition ioctl_getplayvol (hw : libmaru) (a : ioctl_args) : M unit :=
  PREP_UARG_OUT a sizeof_int (
    pthread_mutex_lock g_state_lock ;;
    ok <- read_volume hw ;;
    if negb ok then call (Call.fuse_reply_err EIO)
    else
      pthread_mutex_unlock g_state_lock ;;
      stream_info <- get_info ;;
      let i := to_int (vol stream_info) in
      hi <- lift_option (int_shl i 8) ;;
      IOCTL_RETURN (out_int (Z.lor i hi))).

(** The [switch].  [SNDCTL_DSP_HALT] shares the body of
    [SNDCTL_DSP_RESET].  The label of [SNDCTL_DSP_GETFMTS] is guarded by
    [#ifdef SNDCTL_GETFMTS], a name that soundcard.h does not define, so
    that command reaches [default]. *)
Definition maru_ioctl (hw : libmaru) (cmd : ioctl_cmd) (a : ioctl_args)
  : M unit :=
  match cmd with
  | OSS_GETVERSION =>
      PREP_UARG_OUT a sizeof_int (IOCTL_RETURN (out_int 198672))
  | SNDCTL_DSP_COOKEDMODE =>
      PREP_UARG_INOUT a 0 (fun i => IOCTL_RETURN (out_int i))
  | SNDCTL_DSP_NONBLOCK =>
      update (set_nonblock true) ;;
      IOCTL_RETURN_NULL
  | SNDCTL_DSP_GETCAPS =>
      PREP_UARG_OUT a sizeof_int (
        let i :=
          Z.lor (Z.lor DSP_CAP_REALTIME DSP_CAP_TRIGGER)
            (if 1 <? maru_get_num_streams hw then DSP_CAP_MULTI else 0) in
        IOCTL_RETURN (out_int i))
  | SNDCTL_DSP_RESET | SNDCTL_DSP_HALT => ioctl_reset
  | SNDCTL_DSP_SPEED => ioctl_speed hw a
  | SNDCTL_DSP_SETFMT => ioctl_setfmt a
  | SNDCTL_DSP_CHANNELS =>
      PREP_UARG_INOUT a 0 (fun _ =>
        stream_info <- get_info ;;
        IOCTL_RETURN (out_int (to_int (channels stream_info))))
  | SNDCTL_DSP_STEREO =>
      PREP_UARG_INOUT a 0 (fun _ =>
        stream_info <- get_info ;;
        IOCTL_RETURN (out_int (if 1 <? channels stream_info then 1 else 0)))
  | SNDCTL_DSP_GETOSPACE => ioctl_getospace hw a
  | SNDCTL_DSP_GETBLKSIZE =>
      PREP_UARG_OUT a sizeof_int (
        stream_info <- get_info ;;
        IOCTL_RETURN (out_int (to_int (fragsize stream_info))))
  | SNDCTL_DSP_SETFRAGMENT => ioctl_setfragment a
  | SNDCTL_DSP_GETODELAY => ioctl_getodelay hw a
  | SNDCTL_DSP_SYNC => ioctl_sync hw
  | SNDCTL_DSP_GETOPTR => ioctl_getoptr hw a
  | SNDCTL_DSP_SETPLAYVOL => ioctl_setplayvol hw a
  | SNDCTL_DSP_GETPLAYVOL => ioctl_getplayvol hw a
  | SNDCTL_DSP_SETTRIGGER =>
      PREP_UARG_INOUT a 0 (fun i => IOCTL_RETURN (out_int i))
  | SNDCTL_DSP_POST => IOCTL_RETURN_NULL
  | SNDCTL_DSP_GETFMTS | SNDCTL_other _ => call (Call.fuse_reply_err EINVAL)
  end.

(** ** poll, release and the write notification *)

Definition maru_update_pollhandle (new_ph : option Z) : M unit :=
  info <- get_info ;;
  let tmp_ph := ph info in
  update (set_ph new_ph) ;;
  match tmp_ph with
  | Some p => call (Call.fuse_pollhandle_destroy p)
  | None => ret tt
  end.

Definition maru_poll (hw : libmaru) (new_ph : option Z) : M unit :=
  pthread_mutex_lock stream_info_lock ;;
  maru_update_pollhandle new_ph ;;
  stream_info <- get_info ;;
  (if error stream_info then call (Call.fuse_reply_poll POLLHUP)
   else if (stream stream_info =? LIBMARU_STREAM_MASTER)
           || (fragsize stream_info
               <=? maru_stream_write_avail hw (stream stream_info))
   then call (Call.fuse_reply_poll POLLOUT)
   else call (Call.fuse_reply_poll 0)) ;;
  pthread_mutex_unlock stream_info_lock.

Definition maru_release : M unit :=
  stream_info <- get_info ;;
  call (Call.maru_stream_close (stream stream_info)) ;;
  match ph stream_info with
  | Some p => call (Call.fuse_pollhandle_destroy p)
  | None => ret tt
  end ;;
  call (Call.pthread_mutex_destroy stream_info_lock) ;;
  update (fun _ => zero_stream_info) ;;
  call (Call.fuse_reply_err 0).

Definition write_notification_cb : M unit :=
  pthread_mutex_lock stream_info_lock ;;
  info <- get_info ;;
  match ph info with
  | Some p =>
      call (Call.fuse_lowlevel_notify_poll p) ;;
      call (Call.fuse_pollhandle_destroy p) ;;
      update (set_ph None)
  | None => ret tt
  end ;;
  pthread_mutex_unlock stream_info_lock.

(** ** open: the only handler that walks the slot table *)

(** The [for] loop: marks the first inactive slot and yields its index. *)
Fixpoint open_scan (table : list cuse_stream_info) (i : nat)
  : option (nat * list cuse_stream_info) :=
  match table with
  | [] => None
  | s :: rest =>
      if negb (active s) then Some (i, set_active true s :: rest)
      else match open_scan rest (S i) with
           | Some (fh, rest') => Some (fh, s :: rest')
           | None => None
           end
  end.

Fixpoint table_update (f : cuse_stream_info -> cuse_stream_info)
  (table : list cuse_stream_info) (fh : nat) : list cuse_stream_info :=
  match table, fh with
  | [], _ => []
  | s :: rest, O => f s :: rest
  | s :: rest, S n => s :: table_update f rest n
  end.

(** [name] is what [get_process_name] reads for the caller's pid.
    With [g_state.lock] held the handler waits in [pthread_mutex_lock]
    and goes no further: that call ends the list, nothing is changed
    and no reply is made. *)
Definition maru_open (flags : Z) (name : list Byte.byte)
  (g : cuse_maru_state) (table : list cuse_stream_info)
  : cuse_maru_state * list cuse_stream_info * list Call.t :=
  if negb (Z.land flags (Z.lor O_WRONLY (Z.lor O_RDONLY O_RDWR)) =? O_WRONLY)
  then (g, table, [Call.fuse_reply_err EACCES])
  else if g_lock g
  then (g, table, [Call.pthread_mutex_lock g_state_lock])
  else
    match open_scan table O with
    | None =>
        (g, table,
         [Call.pthread_mutex_lock g_state_lock;
          Call.pthread_mutex_unlock g_state_lock;
          Call.fuse_reply_err EBUSY])
    | Some (fh, table') =>
        let defaults (s : cuse_stream_info) :=
          set_process_name name
            (set_frags (g_frags g)
               (set_fragsize (g_fragsize g)
                  (set_stream LIBMARU_STREAM_MASTER
                     (set_bits 16
                        (set_channels 2
                           (set_sample_rate (g_sample_rate g)
                              (set_lock false s))))))) in
        (g, table_update defaults table' fh,
         [Call.pthread_mutex_lock g_state_lock;
          Call.pthread_mutex_unlock g_state_lock;
          Call.pthread_mutex_init stream_info_lock;
          Call.fuse_reply_open (Z.of_nat fh)])
    end.

(** ** Requests on one open file

    [maru_op] registers write, ioctl, poll and release; libmaru calls
    [write_notification_cb] on its own. *)

Inductive request : Type :=
| Write (flags : Z) (data : list Byte.byte) (size : Z)
| Ioctl (cmd : ioctl_cmd) (a : ioctl_args)
| Poll (new_ph : option Z)
| Release
| WriteNotification.

Definition handle (hw : libmaru) (r : request) : M unit :=
  match r with
  | Write flags data size => maru_write hw flags data size
  | Ioctl cmd a => maru_ioctl hw cmd a
  | Poll new_ph => maru_poll hw new_ph
  | Release => maru_release
  | WriteNotification => write_notification_cb
  end.

Fixpoint run (rs : list (libmaru * request)) : M unit :=
  match rs with
  | [] => ret tt
  | (hw, r) :: rest => handle hw r ;; run rest
  end.

End Handlers.

(** ** Reading a list of calls *)

(** The [(stream, data, size)] of every [maru_stream_write]. *)
Fixpoint submitted (tr : list Call.t) : list (Z * list Byte.byte * Z) :=
  match tr with
  | [] => []
  | Call.maru_stream_write st d n :: rest => (st, d, n) :: submitted rest
  | _ :: rest => submitted rest
  end.

(** The streams handed to [maru_stream_close]. *)
Fixpoint closed (tr : list Call.t) : list Z :=
  match tr with
  | [] => []
  | Call.maru_stream_close st :: rest => st :: closed rest
  | _ :: rest => closed rest
  end.

Definition replies (tr : list Call.t) : list Call.t := filter is_reply tr.

(** Whether [g_state.lock] is held after the calls of [tr], when it was
    [held] before them. *)
Fixpoint g_lock_after (held : bool) (tr : list Call.t) : bool :=
  match tr with
  | [] => held
  | Call.pthread_mutex_lock g_state_lock :: rest => g_lock_after true rest
  | Call.pthread_mutex_unlock g_state_lock :: rest => g_lock_after false rest
  | _ :: rest => g_lock_after held rest
  end.

Section Notions.

Context {H : libmaru_h}.

(** Non-blocking mode: the open-mode flag or the sticky slot flag. *)
Definition nonblocking (flags : Z) (s : cuse_stream_info) : bool :=
  negb (Z.land flags O_NONBLOCK =? 0) || nonblock s.

(** Bytes of one sample frame. *)
Definition frame_bytes (s : cuse_stream_info) : Z :=
  channels s * bits s / 8.

(** [st] is the hardware stream a write on [s] goes to: the one the slot
    is bound to, or the one that the first write binds it to. *)
Definition writes_to (hw : libmaru) (s : cuse_stream_info) (st : Z) : Prop :=
  (stream s <> LIBMARU_STREAM_MASTER /\ st = stream s) \/
  (stream s = LIBMARU_STREAM_MASTER /\
   st = maru_find_available_stream hw /\ 0 <= st /\
   maru_stream_open_ok hw st (init_desc s) = true).

End Notions.

(** [v] brought into the range [lo .. hi]. *)
Definition clamp (lo hi v : Z) : Z := Z.max lo (Z.min hi v).

(** ** Notions for sequences of requests *)

(** [c] leaves the observation [obs] of the machine as it was. *)
Definition keeps {A B : Type} (obs : machine -> B) (c : M A) : Prop :=
  forall m a m', c m = Some (a, m') -> obs m' = obs m.

Definition write_cnt_of (m : machine) : Z := write_cnt (stream_info m).

Definition error_of (m : machine) : bool := error (stream_info m).

Definition g_lock_of (m : machine) : bool := g_lock (g_state m).

(** The requests that the specification allows to zero [write_cnt]. *)
Definition resets (r : request) : bool :=
  match r with
  | Ioctl SNDCTL_DSP_RESET _ | Ioctl SNDCTL_DSP_HALT _ | Release => true
  | _ => false
  end.

(** The bytes offered by the writes of a sequence. *)
Fixpoint offered (rs : list (libmaru * request)) : Z :=
  match rs with
  | [] => 0
  | (_, Write _ _ size) :: rest => size + offered rest
  | _ :: rest => offered rest
  end.

(** The transport accepts no more than it is given, and a write carries
    a [size_t]. *)
Definition sane (x : libmaru * request) : Prop :=
  (forall st d n, 0 <= n -> 0 <= maru_stream_write_ret (fst x) st d n <= n) /\
  match snd x with
  | Write _ _ size => 0 <= size
  | _ => True
  end.

(** ** Sample inputs *)

(** [LIBMARU_STREAM_MASTER] as [(unsigned)-1] and the mute level as the
    16-bit minimum. *)
Definition sample_h : libmaru_h :=
  {| LIBMARU_STREAM_MASTER := 4294967295; LIBMARU_VOLUME_MUTE := -32768 |}.

(** A transport with stream 0 free or not, [avail] bytes of room, that
    accepts [accept n] of [n] bytes and sets volumes or not. *)
Definition sample_hw (free : bool) (avail : Z) (accept : Z -> Z)
  (volume_ok : bool) : libmaru :=
  {| maru_find_available_stream := if free then 0 else -1;
     maru_stream_open_ok := fun _ _ => true;
     maru_stream_write_avail := fun _ => avail;
     maru_stream_write_ret := fun _ _ n => accept n;
     maru_stream_set_volume_ok := fun _ _ => volume_ok;
     maru_stream_get_volume_cur :=
       fun _ => if volume_ok then Some 500 else None;
     maru_get_num_streams := 1;
     maru_get_stream_desc := fun _ => (0, []);
     maru_stream_current_latency := fun _ => 0 |}.

(** The defaults of [main], with a volume range of 0..1000. *)
Definition sample_g : cuse_maru_state :=
  {| g_lock := false; g_frags := 4; g_fragsize := 16384;
     g_sample_rate := 48000; g_min_volume := 0; g_max_volume := 1000 |}.

(** The slot that [maru_open] hands out under [sample_h] and
    [sample_g]. *)
Definition sample_open : cuse_stream_info :=
  {| active := true; stream := 4294967295; sample_rate := 48000;
     channels := 2; bits := 16; fragsize := 16384; frags := 4;
     write_cnt := 0; nonblock := false; error := false; vol := 0;
     ph := None; lock := false; process_name := [] |}.

(** The same slot once bound to hardware stream 0. *)
Definition sample_bound : cuse_stream_info := set_stream 0 sample_open.

Definition sample_data : list Byte.byte :=
  [Byte.x00; Byte.x01; Byte.x02; Byte.x03].

Definition sample_args (word : Z) (size : Z) : ioctl_args :=
  {| uarg := 4096; in_buf := word; in_bufsize := size; out_bufsize := size |}.

(** ** Further notions *)

(** The handles given to [fuse_pollhandle_destroy] and to
    [fuse_lowlevel_notify_poll]. *)
Fixpoint destroyed (tr : list Call.t) : list Z :=
  match tr with
  | [] => []
  | Call.fuse_pollhandle_destroy p :: rest => p :: destroyed rest
  | _ :: rest => destroyed rest
  end.

Fixpoint notified (tr : list Call.t) : list Z :=
  match tr with
  | [] => []
  | Call.fuse_lowlevel_notify_poll p :: rest => p :: notified rest
  | _ :: rest => notified rest
  end.

(** A pointer as the list of what it points to. *)
Definition handle_list (p : option Z) : list Z :=
  match p with
  | Some h => [h]
  | None => []
  end.

(** The handles that the poll requests of a sequence bring. *)
Fixpoint polled (rs : list (libmaru * request)) : list Z :=
  match rs with
  | [] => []
  | (_, Poll new_ph) :: rest => handle_list new_ph ++ polled rest
  | _ :: rest => polled rest
  end.

(** The requests that FUSE expects an answer to. *)
Fixpoint answered (rs : list (libmaru * request)) : nat :=
  match rs with
  | [] => O
  | (_, WriteNotification) :: rest => answered rest
  | _ :: rest => S (answered rest)
  end.

Definition is_release (r : request) : bool :=
  match r with
  | Release => true
  | _ => false
  end.

Definition is_volume (r : request) : bool :=
  match r with
  | Ioctl SNDCTL_DSP_SETPLAYVOL _ | Ioctl SNDCTL_DSP_GETPLAYVOL _ => true
  | _ => false
  end.

(** The level that set-play-volume reads from its input word. *)
Definition level_of (a : ioctl_args) : Z := Z.land (to_int (in_buf a)) 255.

(** The stream whose descriptors the set-sample-rate command asks for:
    the bound one, or an available one while the slot is unbound. *)
Definition speed_stream {H : libmaru_h} (hw : libmaru)
  (s : cuse_stream_info) : Z :=
  if stream s =? LIBMARU_STREAM_MASTER then maru_find_available_stream hw
  else stream s.

(** The calls made by [c] do not depend on the calls made before it. *)
Definition framed {A : Type} (c : M A) : Prop :=
  forall g s pre,
    c {| g_state := g; stream_info := s; calls := pre |}
    = match c {| g_state := g; stream_info := s; calls := [] |} with
      | Some (a, m) =>
          Some (a, {| g_state := g_state m; stream_info := stream_info m;
                      calls := pre ++ calls m |})
      | None => None
      end.

(** A handler run on the slot [fh] of the table, as
    [&g_state.stream_info[info->fh]] selects it. *)
Definition exec_at (h : M unit) (g : cuse_maru_state)
  (table : list cuse_stream_info) (fh : nat)
  : option (cuse_maru_state * list cuse_stream_info * list Call.t) :=
  match nth_error table fh with
  | Some s =>
      match exec h g s with
      | Some (g', s', tr) => Some (g', table_update (fun _ => s') table fh, tr)
      | None => None
      end
  | None => None
  end.

(** ** Further sample inputs *)

(** A table of two slots, the first one in use. *)
Definition sample_table : list cuse_stream_info :=
  [set_active true zero_stream_info; zero_stream_info].

(** A descriptor with a fixed rate, or with a range of rates when the
    fixed rate is zero. *)
Definition sample_desc (rate lo hi : Z) : maru_stream_desc :=
  {| desc_sample_rate := rate; desc_sample_rate_min := lo;
     desc_sample_rate_max := hi; desc_channels := 2; desc_bits := 16;
     desc_fragment_size := 0; desc_buffer_size := 0 |}.

(** A transport whose streams show the descriptors [descs], with return
    code [rc], and [avail] bytes of room. *)
Definition sample_hw_desc (rc : Z) (descs : list maru_stream_desc)
  (avail : Z) : libmaru :=
  {| maru_find_available_stream := 0;
     maru_stream_open_ok := fun _ _ => true;
     maru_stream_write_avail := fun _ => avail;
     maru_stream_write_ret := fun _ _ n => n;
     maru_stream_set_volume_ok := fun _ _ => true;
     maru_stream_get_volume_cur := fun _ => Some 800;
     maru_get_num_streams := 2;
     maru_get_stream_desc := fun _ => (rc, descs);
     maru_stream_current_latency := fun _ => 0 |}.

(** * Properties *)

Example maru_open_sample :
  @maru_open sample_h O_WRONLY [] sample_g
    [set_active true zero_stream_info; zero_stream_info]
  = (sample_g, [set_active true zero_stream_info; sample_open],
     [Call.pthread_mutex_lock g_state_lock;
      Call.pthread_mutex_unlock g_state_lock;
      Call.pthread_mutex_init stream_info_lock;
      Call.fuse_reply_open 1]).
Proof. reflexivity. Qed.

Example maru_open_rdwr :
  @maru_open sample_h O_RDWR [] sample_g [zero_stream_info]
  = (sample_g, [zero_stream_info], [Call.fuse_reply_err EACCES]).
Proof. reflexivity. Qed.

Example write_4096_unbound :
  exec (@maru_write sample_h (sample_hw true 0 (fun n => n) true) O_WRONLY
          sample_data 4096) sample_g sample_open
  = Some (sample_g, set_write_cnt 4096 sample_bound,
          [Call.maru_stream_open 0 (init_desc sample_open);
           Call.maru_stream_set_write_notification 0;
           Call.maru_stream_write 0 sample_data 4096;
           Call.fuse_reply_write 4096]).
Proof. reflexivity. Qed.

Example write_nonblocking_clamped :
  exec (@maru_write sample_h (sample_hw true 10 (fun n => n) true)
          O_NONBLOCK sample_data 4096) sample_g sample_bound
  = Some (sample_g, set_write_cnt 8 sample_bound,
          [Call.maru_stream_write 0 sample_data 8; Call.fuse_reply_write 8]).
Proof. reflexivity. Qed.

Example write_nonblocking_full :
  exec (@maru_write sample_h (sample_hw true 3 (fun n => n) true)
          O_NONBLOCK sample_data 4096) sample_g sample_bound
  = Some (sample_g, sample_bound, [Call.fuse_reply_err EAGAIN]).
Proof. reflexivity. Qed.

Example setfragment_then_getospace :
  exec (@run sample_h
          [(sample_hw true 0 (fun n => n) true,
            Ioctl SNDCTL_DSP_SETFRAGMENT (sample_args 524299 4));
           (sample_hw true 0 (fun n => n) true,
            Ioctl SNDCTL_DSP_GETOSPACE (sample_args 0 16))])
    sample_g sample_open
  = Some (sample_g, set_frags 8 (set_fragsize 2048 sample_open),
          [Call.fuse_reply_ioctl 0 (out_int 524299);
           Call.fuse_reply_ioctl 0
             (out_audio_buf_info
                {| abi_bytes := 16383; abi_fragments := 7;
                   abi_fragsize := 2048; abi_fragstotal := 8 |})]).
Proof. reflexivity. Qed.

Example ioctl_retry_first :
  exec (@maru_ioctl sample_h (sample_hw true 0 (fun n => n) true)
          SNDCTL_DSP_SETFRAGMENT (sample_args 0 0)) sample_g sample_open
  = Some (sample_g, sample_open,
          [Call.fuse_reply_ioctl_retry (4096, 4) (4096, 4)]).
Proof. reflexivity. Qed.

Example poll_bound_not_ready :
  exec (@maru_poll sample_h (sample_hw true 100 (fun n => n) true) (Some 9))
    sample_g (set_ph (Some 7) sample_bound)
  = Some (sample_g, set_ph (Some 9) sample_bound,
          [Call.pthread_mutex_lock stream_info_lock;
           Call.fuse_pollhandle_destroy 7;
           Call.fuse_reply_poll 0;
           Call.pthread_mutex_unlock stream_info_lock]).
Proof. reflexivity. Qed.

(** ** Arithmetic *)

Lemma to_uint_small (z : Z) : 0 <= z < 2 ^ 32 -> to_uint z = z.
Proof. intros Hz. unfold to_uint. apply Z.mod_small. exact Hz. Qed.

Lemma to_size_t_small (z : Z) : 0 <= z <= SIZE_MAX -> to_size_t z = z.
Proof.
  intros Hz. unfold to_size_t, SIZE_MAX in *. apply Z.mod_small. lia.
Qed.

Lemma to_size_t_nonneg (z : Z) : 0 <= to_size_t z.
Proof. unfold to_size_t. apply Z.mod_pos_bound. lia. Qed.

Lemma to_int_small (z : Z) : - 2 ^ 31 <= z <= INT_MAX -> to_int z = z.
Proof.
  intros Hz. unfold to_int, INT_MAX in *.
  rewrite Z.mod_small by lia. lia.
Qed.

Lemma round_down_bounds (a f : Z) : 0 <= a -> 0 < f -> 0 <= a / f * f <= a.
Proof.
  intros Ha Hf. pose proof (Z.mul_div_le a f Hf).
  pose proof (Z.div_pos a f Ha Hf). nia.
Qed.

Lemma int_shl_one (k fs : Z) :
  int_shl 1 k = Some fs -> 0 <= k <= 30 /\ fs = 2 ^ k.
Proof.
  unfold int_shl. cbn [Z.ltb Z.compare orb].
  destruct (Z.ltb_spec k 0) as [Hneg | Hk0]; [discriminate |].
  destruct (Z.leb_spec 32 k) as [Hbig | Hk32]; [discriminate |].
  cbn [orb]. rewrite Z.shiftl_1_l.
  destruct (Z.leb_spec (2 ^ k) INT_MAX) as [Hfit | Hover]; [| discriminate].
  intros Heq. injection Heq as <-. split; [| reflexivity].
  destruct (Z.eq_dec k 31) as [-> | Hne]; [| lia].
  unfold INT_MAX in Hfit. lia.
Qed.

(** The model of [next_pot] yields the least power of two that is not
    below its argument. *)
Lemma next_pot_is_pot (v : Z) : is_pot (next_pot v).
Proof.
  exists (Z.log2_up v). split; [apply Z.log2_up_nonneg | reflexivity].
Qed.

Lemma next_pot_ge (v : Z) : v <= next_pot v.
Proof.
  unfold next_pot. destruct (Z.lt_ge_cases 1 v) as [Hbig | Hsmall].
  - apply Z.log2_up_spec. exact Hbig.
  - pose proof (Z.pow_pos_nonneg 2 (Z.log2_up v) ltac:(lia)
                  (Z.log2_up_nonneg v)). lia.
Qed.

Lemma next_pot_least (v m : Z) : 0 < v -> is_pot m -> v <= m -> next_pot v <= m.
Proof.
  intros Hv (k & Hk & ->) Hle. unfold next_pot.
  apply Z.pow_le_mono_r; [lia |].
  apply Z.log2_up_le_pow2; assumption.
Qed.

(** ** Lists of calls *)

Lemma submitted_app (tr1 tr2 : list Call.t) :
  submitted (tr1 ++ tr2) = submitted tr1 ++ submitted tr2.
Proof.
  induction tr1 as [| c tr1 IH]; [reflexivity |].
  destruct c; cbn [app submitted]; rewrite ?IH; reflexivity.
Qed.

Lemma submitted_app_other (tr1 tr2 : list Call.t) :
  submitted tr2 = [] -> submitted (tr1 ++ tr2) = submitted tr1.
Proof.
  intros Hnone. rewrite submitted_app, Hnone. apply app_nil_r.
Qed.

(** ** Symbolic execution of handlers *)

Ltac mrun :=
  cbv [exec handle run maru_write init_stream maru_ioctl ioctl_reset
       ioctl_speed ioctl_setfmt ioctl_getospace ioctl_setfragment
       ioctl_getodelay ioctl_sync ioctl_getoptr ioctl_setplayvol
       ioctl_getplayvol set_volume read_volume ioctl_prep_uarg
       PREP_UARG_OUT PREP_UARG_INOUT IOCTL_RETURN IOCTL_RETURN_NULL
       maru_poll maru_update_pollhandle maru_release write_notification_cb
       pthread_mutex_lock pthread_mutex_unlock
       bind ret call update update_g get_info get_g undefined blocked assert
       udiv umod lift_option g_state stream_info calls fst snd];
  cbn [negb andb orb].

Ltac mrun_in Hx :=
  cbv [exec handle run maru_write init_stream maru_ioctl ioctl_reset
       ioctl_speed ioctl_setfmt ioctl_getospace ioctl_setfragment
       ioctl_getodelay ioctl_sync ioctl_getoptr ioctl_setplayvol
       ioctl_getplayvol set_volume read_volume ioctl_prep_uarg
       PREP_UARG_OUT PREP_UARG_INOUT IOCTL_RETURN IOCTL_RETURN_NULL
       maru_poll maru_update_pollhandle maru_release write_notification_cb
       pthread_mutex_lock pthread_mutex_unlock
       bind ret call update update_g get_info get_g undefined blocked assert
       udiv umod lift_option g_state stream_info calls fst snd] in Hx;
  cbn [negb andb orb] in Hx.

(** Rewrites a test whose outcome is among the hypotheses. *)
Ltac mcond :=
  match goal with
  | Hb : ?b = true |- context [?b] => rewrite Hb
  | Hb : ?b = false |- context [?b] => rewrite Hb
  end.

Ltac mgo := repeat (mrun; try mcond).

(** Splits a finished execution into the paths of the handler. *)
Ltac mcases Hx :=
  repeat (mrun_in Hx;
          match type of Hx with
          | context [if ?b then _ else _] => destruct b eqn:?
          end);
  mrun_in Hx.

Ltac zbool :=
  repeat match goal with
         | Hb : (_ =? _) = true |- _ => apply Z.eqb_eq in Hb
         | Hb : (_ =? _) = false |- _ => apply Z.eqb_neq in Hb
         | Hb : (_ <? _) = true |- _ => apply Z.ltb_lt in Hb
         | Hb : (_ <? _) = false |- _ => apply Z.ltb_ge in Hb
         | Hb : (_ <=? _) = true |- _ => apply Z.leb_le in Hb
         | Hb : (_ <=? _) = false |- _ => apply Z.leb_gt in Hb
         end.

Lemma exec_inv (h : M unit) (g g' : cuse_maru_state)
  (s s' : cuse_stream_info) (tr : list Call.t) :
  exec h g s = Some (g', s', tr) ->
  h {| g_state := g; stream_info := s; calls := [] |}
  = Some (tt, {| g_state := g'; stream_info := s'; calls := tr |}).
Proof.
  unfold exec. intros Hex.
  destruct (h {| g_state := g; stream_info := s; calls := [] |})
    as [[[] [g0 s0 tr0]] |]; [| discriminate].
  cbn [g_state stream_info calls] in Hex. injection Hex as -> -> ->.
  reflexivity.
Qed.

Section Properties.

Context {H : libmaru_h}.

(** *** write *)

(** C1 (amended).  A write of [N > 0] bytes on a non-errored slot in
    non-blocking mode that is bound, or that this write binds, with a
    non-zero frame size: the amount submitted to the transport is
    [min N A], where [A] is the reported write-availability rounded down
    to whole frames; when that amount is zero nothing is submitted and
    the write fails with EAGAIN; when the transport accepts the whole
    submission the reply is [min N A] bytes. *)
Theorem nonblocking_write_clamped (hw : libmaru) (flags : Z)
  (data : list Byte.byte) (N : Z) (g : cuse_maru_state)
  (s : cuse_stream_info) (st : Z) :
  error s = false ->
  0 < N ->
  nonblocking flags s = true ->
  writes_to hw s st ->
  0 < frame_bytes s ->
  channels s * bits s < 2 ^ 32 ->
  0 <= maru_stream_write_avail hw st <= SIZE_MAX ->
  let A := maru_stream_write_avail hw st / frame_bytes s * frame_bytes s in
  exists s' tr,
    exec (maru_write hw flags data N) g s = Some (g, s', tr) /\
    (Z.min N A = 0 ->
     submitted tr = [] /\ replies tr = [Call.fuse_reply_err EAGAIN]) /\
    (Z.min N A <> 0 ->
     submitted tr = [(st, data, Z.min N A)] /\
     (maru_stream_write_ret hw st data (Z.min N A) = Z.min N A ->
      replies tr = [Call.fuse_reply_write (Z.min N A)])).
Proof.
  intros Herr HN Hnb Hto Hframe Hcb Havail A.
  assert (Hcb0 : 0 <= channels s * bits s).
  { unfold frame_bytes in Hframe.
    destruct (Z.lt_ge_cases (channels s * bits s) 0) as [Hneg | Hpos];
      [| exact Hpos].
    assert (channels s * bits s / 8 < 0) by (apply Z.div_lt_upper_bound; lia).
    lia. }
  assert (HA : 0 <= A <= maru_stream_write_avail hw st).
  { apply round_down_bounds; lia. }
  assert (Hto_size : to_size_t A = A) by (apply to_size_t_small; lia).
  assert (Hmin : (if N <? A then N else A) = Z.min N A).
  { destruct (Z.ltb_spec N A); lia. }
  assert (Hfz : (frame_bytes s =? 0) = false) by (apply Z.eqb_neq; lia).
  assert (HNz : (N =? 0) = false) by (apply Z.eqb_neq; lia).
  unfold nonblocking in Hnb. unfold frame_bytes in *.
  assert (Hfin : forall st' s0 pre,
    exists s' tr,
      match
        (if Z.min N A =? 0
         then call (Call.fuse_reply_err EAGAIN)
         else
           call (Call.maru_stream_write st' data (Z.min N A)) ;;
           if maru_stream_write_ret hw st' data (Z.min N A) =? 0
           then call (Call.fuse_reply_err EIO)
           else
             update (set_write_cnt
                       (to_size_t
                          (write_cnt s
                           + maru_stream_write_ret hw st' data (Z.min N A)))) ;;
             call (Call.fuse_reply_write
                     (maru_stream_write_ret hw st' data (Z.min N A))))
          {| g_state := g; stream_info := s0; calls := pre |}
      with
      | Some (_, m) => Some (g_state m, stream_info m, calls m)
      | None => None
      end = Some (g, s', tr) /\
      (Z.min N A = 0 ->
       submitted tr = submitted pre /\
       replies tr = replies pre ++ [Call.fuse_reply_err EAGAIN]) /\
      (Z.min N A <> 0 ->
       submitted tr = submitted pre ++ [(st', data, Z.min N A)] /\
       (maru_stream_write_ret hw st' data (Z.min N A) = Z.min N A ->
        replies tr = replies pre ++ [Call.fuse_reply_write (Z.min N A)]))).
  { intros st' s0 pre.
    destruct (Z.eqb_spec (Z.min N A) 0) as [Hz | Hnz].
    - mrun. do 2 eexists. split; [reflexivity |]. split; [| lia].
      intros _. split.
      + apply submitted_app_other. reflexivity.
      + unfold replies. rewrite filter_app. reflexivity.
    - destruct (Z.eqb_spec (maru_stream_write_ret hw st' data (Z.min N A)) 0)
        as [Hr | Hr];
        (mrun; do 2 eexists; split; [reflexivity |]; split; [lia |];
         intros _; split;
         [rewrite <- app_assoc, submitted_app; reflexivity |]; intros Hall).
      + lia.
      + rewrite Hall. unfold replies. rewrite !filter_app. cbn.
        rewrite app_nil_r. reflexivity. }
  destruct Hto as [[Hbound Hst] | (Hunbound & Hst & Hfree & Hopen)].
  - subst st. apply Z.eqb_neq in Hbound.
    rewrite <- (to_uint_small (channels s * bits s)) in Hfz by lia.
    mgo. rewrite (to_uint_small (channels s * bits s)) by lia.
    fold A. rewrite Hto_size, Hmin.
    destruct (Hfin (stream s) s []) as (s' & tr & Hex & Hzero & Hpos).
    exists s', tr. split; [exact Hex |]. split; assumption.
  - apply Z.eqb_eq in Hunbound. apply Z.ltb_ge in Hfree. subst st.
    rewrite <- (to_uint_small (channels s * bits s)) in Hfz by lia.
    mgo. cbn [set_stream nonblock channels bits stream write_cnt].
    mgo. rewrite (to_uint_small (channels s * bits s)) by lia.
    fold A. rewrite Hto_size, Hmin.
    destruct (Hfin (maru_find_available_stream hw)
                (set_stream (maru_find_available_stream hw) s)
                [Call.maru_stream_open (maru_find_available_stream hw)
                   (init_desc s);
                 Call.maru_stream_set_write_notification
                   (maru_find_available_stream hw)])
      as (s' & tr & Hex & Hzero & Hpos).
    exists s', tr. split; [exact Hex |]. split; assumption.
Qed.

(** Every way [maru_write] can end: without reaching the transport, with
    nothing accepted, or with some bytes accepted. *)
Lemma maru_write_outcome (hw : libmaru) (flags : Z) (data : list Byte.byte)
  (N : Z) (m m' : machine) :
  maru_write hw flags data N m = Some (tt, m') ->
  g_state m' = g_state m /\
  error (stream_info m') = error (stream_info m) /\
  exists new,
    calls m' = calls m ++ new /\
    ((submitted new = [] /\
      write_cnt (stream_info m') = write_cnt (stream_info m) /\
      (replies new = [Call.fuse_reply_write 0] \/
       exists e, replies new = [Call.fuse_reply_err e] /\ e <> EIO)) \/
     (exists st n,
        submitted new = [(st, data, n)] /\ n <= N /\ n <> 0 /\
        (0 <= N -> 0 <= n) /\
        ((maru_stream_write_ret hw st data n = 0 /\
          replies new = [Call.fuse_reply_err EIO] /\
          write_cnt (stream_info m') = write_cnt (stream_info m)) \/
         (maru_stream_write_ret hw st data n <> 0 /\
          replies new
          = [Call.fuse_reply_write (maru_stream_write_ret hw st data n)] /\
          write_cnt (stream_info m')
          = to_size_t (write_cnt (stream_info m)
                       + maru_stream_write_ret hw st data n))))).
Proof.
  intros Hex. destruct m as [g s pre]. mcases Hex.
  all: try discriminate.
  all: injection Hex as <-;
    cbn [g_state stream_info calls error write_cnt stream channels bits
         nonblock set_stream set_write_cnt] in *.
  all: (split; [reflexivity |]; split; [reflexivity |]).
  all: eexists; (split; [rewrite <- ?app_assoc; reflexivity |]).
  all: cbn [app submitted replies filter is_reply]; zbool.
  all: first
    [ left; split; [reflexivity |]; split; [reflexivity |];
      first [ left; reflexivity
            | right; eexists; split; [reflexivity | discriminate] ]
    | right; do 2 eexists; split; [reflexivity |];
      split; [lia |]; split; [lia |];
      split; [try (pose proof to_size_t_nonneg); auto with zarith |];
      first [ left; split; [assumption |]; split; reflexivity
            | right; split; [assumption |]; split; reflexivity ] ].
Qed.

(** On a slot whose frame size is not zero [maru_write] always runs to
    its reply. *)
Lemma maru_write_defined (hw : libmaru) (flags : Z) (data : list Byte.byte)
  (N : Z) (g : cuse_maru_state) (s : cuse_stream_info) :
  to_uint (channels s * bits s) / 8 <> 0 ->
  exists s' tr, exec (maru_write hw flags data N) g s = Some (g, s', tr).
Proof.
  intros Hframe. apply Z.eqb_neq in Hframe. mrun.
  repeat match goal with
         | |- context [if ?b then _ else _] =>
             destruct b eqn:?; mrun;
             cbn [set_stream nonblock channels bits stream write_cnt] in *
         end;
    try congruence; do 2 eexists; reflexivity.
Qed.

(** C2 (amended).  A write that reaches the transport and has nothing
    accepted is answered with EIO; the error flag and [write_cnt] of the
    slot stay as they were, so the slot is not marked as errored.  A
    write of which the transport accepts [r > 0] bytes adds exactly [r]
    to [write_cnt] and is answered with [r] bytes written. *)
Theorem write_result_reported (hw : libmaru) (flags : Z)
  (data : list Byte.byte) (N : Z) (g g' : cuse_maru_state)
  (s s' : cuse_stream_info) (tr : list Call.t) (st n : Z) :
  exec (maru_write hw flags data N) g s = Some (g', s', tr) ->
  submitted tr = [(st, data, n)] ->
  (maru_stream_write_ret hw st data n = 0 ->
   replies tr = [Call.fuse_reply_err EIO] /\
   error s' = error s /\ write_cnt s' = write_cnt s) /\
  (0 < maru_stream_write_ret hw st data n ->
   0 <= write_cnt s ->
   write_cnt s + maru_stream_write_ret hw st data n <= SIZE_MAX ->
   replies tr = [Call.fuse_reply_write (maru_stream_write_ret hw st data n)] /\
   error s' = error s /\
   write_cnt s' = write_cnt s + maru_stream_write_ret hw st data n).
Proof.
  intros Hex Hsub. apply exec_inv in Hex.
  destruct (maru_write_outcome _ _ _ _ _ _ Hex)
    as (_ & Herr & new & Hcalls & Hout).
  cbn [g_state stream_info calls app] in *. subst new.
  destruct Hout as [(Hnone & _) | (st' & n' & Hsub' & _ & _ & _ & Hres)].
  - rewrite Hnone in Hsub. discriminate.
  - rewrite Hsub in Hsub'. injection Hsub' as <- <-.
    destruct Hres as [(Hr & Hrep & Hcnt) | (Hr & Hrep & Hcnt)].
    + split; [intros _; repeat split; assumption | intros Hpos; lia].
    + split; [intros Hz; contradiction |].
      intros Hpos Hcnt0 Hfit. repeat split; try assumption.
      rewrite Hcnt. apply to_size_t_small. lia.
Qed.


(** *** What the handlers leave alone *)

Lemma keeps_ret {A B : Type} (obs : machine -> B) (a : A) : keeps obs (ret a).
Proof. intros m a' m' Heq. injection Heq as _ <-. reflexivity. Qed.

Lemma keeps_undefined {A B : Type} (obs : machine -> B) :
  keeps obs (@undefined A).
Proof. intros m a m' Heq. discriminate Heq. Qed.

Lemma keeps_bind {A B C : Type} (obs : machine -> C) (c : M A)
  (k : A -> M B) :
  keeps obs c -> (forall a, keeps obs (k a)) -> keeps obs (bind c k).
Proof.
  intros Hc Hk m b m' Heq. unfold bind in Heq.
  destruct (c m) as [[a m1] |] eqn:Hcm; [| discriminate].
  rewrite (Hk a m1 b m' Heq). exact (Hc m a m1 Hcm).
Qed.

Ltac keeps_prim :=
  let Heq := fresh "Heq" in
  intros ? ? ? Heq;
  cbv [call update update_g get_info get_g ret undefined] in Heq;
  first [ discriminate Heq
        | inversion Heq; subst; reflexivity ].

Ltac keeps_tac :=
  repeat first
    [ apply keeps_ret
    | apply keeps_undefined
    | apply keeps_bind; [| intros ?]
    | match goal with
      | |- keeps _ (if ?b then _ else _) => destruct b
      | |- keeps _ (match ?x with _ => _ end) => destruct x
      end
    | progress cbv beta iota zeta delta
        [handle maru_ioctl ioctl_reset ioctl_speed ioctl_setfmt
         ioctl_getospace ioctl_setfragment ioctl_getodelay ioctl_sync
         ioctl_getoptr ioctl_setplayvol ioctl_getplayvol set_volume
         read_volume ioctl_prep_uarg PREP_UARG_OUT PREP_UARG_INOUT
         IOCTL_RETURN IOCTL_RETURN_NULL maru_poll maru_update_pollhandle
         write_notification_cb pthread_mutex_lock pthread_mutex_unlock
         assert udiv umod lift_option]
    | solve [keeps_prim] ].

Lemma maru_ioctl_keeps_write_cnt (hw : libmaru) (cmd : ioctl_cmd)
  (a : ioctl_args) :
  resets (Ioctl cmd a) = false -> keeps write_cnt_of (maru_ioctl hw cmd a).
Proof.
  intros Hcmd. destruct cmd; try discriminate Hcmd; keeps_tac.
Qed.


Lemma maru_poll_keeps_write_cnt (hw : libmaru) (new_ph : option Z) :
  keeps write_cnt_of (maru_poll hw new_ph).
Proof. keeps_tac. Qed.

Lemma write_notification_cb_keeps_write_cnt :
  keeps write_cnt_of write_notification_cb.
Proof. keeps_tac. Qed.

(** One request that is neither reset, halt nor release: [write_cnt]
    stays or grows by what a write had accepted. *)
Lemma handle_write_cnt (hw : libmaru) (r : request) (m m' : machine) :
  handle hw r m = Some (tt, m') ->
  resets r = false ->
  sane (hw, r) ->
  0 <= write_cnt_of m ->
  write_cnt_of m + offered [(hw, r)] <= SIZE_MAX ->
  write_cnt_of m <= write_cnt_of m' <= write_cnt_of m + offered [(hw, r)].
Proof.
  intros Hex Hres [Hacc Hsize] Hcnt Hfit.
  cbn [fst snd offered] in *. unfold write_cnt_of in *.
  destruct r as [flags data N | cmd a | new_ph | |];
    cbn [handle] in Hex; try discriminate Hres.
  - destruct (maru_write_outcome _ _ _ _ _ _ Hex)
      as (_ & _ & new & _ & Hout).
    destruct Hout
      as [(_ & Hsame & _) | (st & n & _ & Hle & Hnz & Hn & Hres')].
    + lia.
    + destruct Hres' as [(_ & _ & Hsame) | (_ & _ & Hgrow)]; [lia |].
      specialize (Hacc st data n (Hn Hsize)).
      rewrite Hgrow, to_size_t_small by lia. lia.
  - pose proof (maru_ioctl_keeps_write_cnt hw cmd a Hres _ _ _ Hex) as Hk.
    unfold write_cnt_of in Hk. lia.
  - pose proof (maru_poll_keeps_write_cnt hw new_ph _ _ _ Hex) as Hk.
    unfold write_cnt_of in Hk. lia.
  - pose proof (write_notification_cb_keeps_write_cnt _ _ _ Hex) as Hk.
    unfold write_cnt_of in Hk. lia.
Qed.


Lemma offered_nonneg (rs : list (libmaru * request)) :
  Forall sane rs -> 0 <= offered rs.
Proof.
  induction 1 as [| [hw r] rest [_ Hsize] _ IH]; cbn [offered]; [lia |].
  destruct r; cbn [snd] in Hsize; lia.
Qed.

Lemma offered_cons (hw : libmaru) (r : request)
  (rest : list (libmaru * request)) :
  offered ((hw, r) :: rest) = offered [(hw, r)] + offered rest.
Proof. destruct r; cbn [offered]; lia. Qed.

Lemma run_write_cnt (rs : list (libmaru * request)) :
  forall m m',
    run rs m = Some (tt, m') ->
    Forall (fun x => resets (snd x) = false) rs ->
    Forall sane rs ->
    0 <= write_cnt_of m ->
    write_cnt_of m + offered rs <= SIZE_MAX ->
    write_cnt_of m <= write_cnt_of m' <= write_cnt_of m + offered rs.
Proof.
  induction rs as [| [hw r] rest IH]; intros m m' Hrun Hres Hsane Hcnt Hfit.
  - injection Hrun as <-. cbn [offered]. lia.
  - inversion Hres as [| x l Hr Hres']; subst.
    inversion Hsane as [| x l Hs Hsane']; subst.
    cbn [snd] in Hr. cbn [run] in Hrun. unfold bind in Hrun.
    destruct (handle hw r m) as [[[] m1] |] eqn:Hstep; [| discriminate].
    rewrite offered_cons in *.
    pose proof (offered_nonneg rest Hsane') as Hrest.
    pose proof (offered_nonneg [(hw, r)] (Forall_cons _ Hs (Forall_nil _)))
      as Hone.
    pose proof (handle_write_cnt hw r m m1 Hstep Hr Hs Hcnt ltac:(lia))
      as Hfirst.
    pose proof (IH m1 m' Hrun Hres' Hsane' ltac:(lia) ltac:(lia)) as Hthen.
    lia.
Qed.

Lemma open_scan_write_cnt (table : list cuse_stream_info) :
  forall i fh table',
    open_scan table i = Some (fh, table') ->
    map write_cnt table' = map write_cnt table.
Proof.
  induction table as [| s rest IH]; intros i fh table' Hscan;
    cbn [open_scan] in Hscan; [discriminate |].
  destruct (negb (active s)).
  - injection Hscan as _ <-. reflexivity.
  - destruct (open_scan rest (S i)) as [[fh' rest'] |] eqn:Hrest;
      [| discriminate].
    injection Hscan as _ <-. cbn [map]. rewrite (IH _ _ _ Hrest).
    reflexivity.
Qed.

Lemma table_update_write_cnt (f : cuse_stream_info -> cuse_stream_info)
  (table : list cuse_stream_info) :
  (forall s, write_cnt (f s) = write_cnt s) ->
  forall fh, map write_cnt (table_update f table fh) = map write_cnt table.
Proof.
  intros Hf. induction table as [| s rest IH]; intros fh; [reflexivity |].
  destruct fh as [| fh]; cbn [table_update map].
  - rewrite Hf. reflexivity.
  - rewrite IH. reflexivity.
Qed.

Lemma maru_open_write_cnt (flags : Z) (name : list Byte.byte)
  (g : cuse_maru_state) (table : list cuse_stream_info) :
  map write_cnt (snd (fst (maru_open flags name g table)))
  = map write_cnt table.
Proof.
  unfold maru_open.
  destruct (negb _); [reflexivity |].
  destruct (g_lock g); [reflexivity |].
  destruct (open_scan table 0) as [[fh table'] |] eqn:Hscan; [| reflexivity].
  cbn [fst snd]. rewrite table_update_write_cnt by reflexivity.
  exact (open_scan_write_cnt _ _ _ _ Hscan).
Qed.

(** C9.  Over any sequence of requests on a slot that are not reset,
    halt or release (in particular over any sequence of writes),
    [write_cnt] does not decrease, as long as the bytes offered fit the
    counter; a write answered with [r > 0] bytes adds [r]; reset and
    halt zero the counter of a bound slot, and release zeroes the whole
    slot; open leaves the counter of every slot alone. *)
Theorem write_cnt_monotone :
  (forall rs g s g' s' tr,
     exec (run rs) g s = Some (g', s', tr) ->
     Forall (fun x => resets (snd x) = false) rs ->
     Forall sane rs ->
     0 <= write_cnt s ->
     write_cnt s + offered rs <= SIZE_MAX ->
     write_cnt s <= write_cnt s' <= write_cnt s + offered rs) /\
  (forall hw flags data N g s g' s' tr r,
     exec (maru_write hw flags data N) g s = Some (g', s', tr) ->
     replies tr = [Call.fuse_reply_write r] ->
     0 < r ->
     0 <= write_cnt s ->
     write_cnt s + r <= SIZE_MAX ->
     write_cnt s' = write_cnt s + r) /\
  (forall hw cmd a g s,
     cmd = SNDCTL_DSP_RESET \/ cmd = SNDCTL_DSP_HALT ->
     stream s <> LIBMARU_STREAM_MASTER ->
     exists s' tr,
       exec (maru_ioctl hw cmd a) g s = Some (g, s', tr) /\
       write_cnt s' = 0 /\ stream s' = LIBMARU_STREAM_MASTER) /\
  (forall g s,
     exists tr, exec maru_release g s = Some (g, zero_stream_info, tr)) /\
  write_cnt zero_stream_info = 0 /\
  (forall flags name g table,
     map write_cnt (snd (fst (maru_open flags name g table)))
     = map write_cnt table).
Proof.
  split; [| split; [| split; [| split; [| split]]]].
  - intros rs g s g' s' tr Hex Hres Hsane Hcnt Hfit.
    apply exec_inv in Hex.
    exact (run_write_cnt rs _ _ Hex Hres Hsane Hcnt Hfit).
  - intros hw flags data N g s g' s' tr r Hex Hrep Hr Hcnt Hfit.
    apply exec_inv in Hex.
    destruct (maru_write_outcome _ _ _ _ _ _ Hex)
      as (_ & _ & new & Hcalls & Hout).
    cbn [g_state stream_info calls app] in *. subst new.
    destruct Hout
      as [(_ & _ & [Hzero | (e & He & _)])
         | (st & n & _ & _ & _ & _ & [(_ & Hio & _) | (_ & Hw & Hgrow)])];
      rewrite Hrep in *; try discriminate.
    + injection Hzero as ->. lia.
    + injection Hw as Hw. rewrite <- Hw in Hgrow. rewrite Hgrow.
      apply to_size_t_small. lia.
  - intros hw cmd a g s Hcmd Hbound. apply Z.eqb_neq in Hbound.
    destruct Hcmd as [-> | ->]; mgo; do 2 eexists;
      (split; [reflexivity |]); split; reflexivity.
  - intros g s. mgo. destruct (ph s); mgo; eexists; reflexivity.
  - reflexivity.
  - exact maru_open_write_cnt.
Qed.


(** *** ioctl *)

(** With both buffers materialised, [PREP_UARG_INOUT] reads the word and
    goes on. *)
Lemma prep_inout_ready (a : ioctl_args) (k : Z -> M unit) (m : machine) :
  in_bufsize a = sizeof_int ->
  out_bufsize a = sizeof_int ->
  PREP_UARG_INOUT a 0 k m = k (to_int (in_buf a)) m.
Proof.
  intros Hin Hout. mrun. rewrite Hin, Hout. reflexivity.
Qed.

Lemma prep_out_ready (a : ioctl_args) (size : Z) (k : M unit) (m : machine) :
  size <> 0 ->
  out_bufsize a = size ->
  PREP_UARG_OUT a size k m = k m.
Proof.
  intros Hsize Hout. mrun. rewrite Hout, Z.eqb_refl.
  apply Z.eqb_neq in Hsize. rewrite Hsize. reflexivity.
Qed.

(** C3.  A set-fragment request on an unbound slot whose decoded
    geometry is valid succeeds, stores the decoded fragment size
    [1 << low 16 bits] unchanged and stores as fragment count the least
    power of two that is not below the requested count. *)
Theorem setfragment_valid (hw : libmaru) (a : ioctl_args)
  (g : cuse_maru_state) (s : cuse_stream_info) (fs : Z) :
  stream s = LIBMARU_STREAM_MASTER ->
  in_bufsize a = sizeof_int ->
  out_bufsize a = sizeof_int ->
  int_shl 1 (Z.land (to_int (in_buf a)) 65535) = Some fs ->
  512 <= fs ->
  2 <= Z.land (Z.shiftr (to_int (in_buf a)) 16) 65535 ->
  exists s',
    exec (maru_ioctl hw SNDCTL_DSP_SETFRAGMENT a) g s
    = Some (g, s', [Call.fuse_reply_ioctl 0 (out_int (to_int (in_buf a)))]) /\
    fragsize s' = fs /\
    fs = 2 ^ Z.land (to_int (in_buf a)) 65535 /\
    is_pot (frags s') /\
    Z.land (Z.shiftr (to_int (in_buf a)) 16) 65535 <= frags s' /\
    (forall p,
       is_pot p ->
       Z.land (Z.shiftr (to_int (in_buf a)) 16) 65535 <= p ->
       frags s' <= p).
Proof.
  intros Hs Hin Hout Hshl Hfs Hcount.
  apply Z.eqb_eq in Hs.
  assert (Hok : (fs <? 512)
                || (Z.land (Z.shiftr (to_int (in_buf a)) 16) 65535 <? 2)
                = false).
  { apply orb_false_iff. split; apply Z.ltb_ge; assumption. }
  exists (set_frags (next_pot (Z.land (Z.shiftr (to_int (in_buf a)) 16) 65535))
            (set_fragsize fs s)).
  split.
  - unfold exec, maru_ioctl, ioctl_setfragment, bind at 1, get_info.
    cbn [stream_info]. rewrite Hs. cbn [negb].
    rewrite prep_inout_ready by assumption.
    rewrite Hshl. mgo. reflexivity.
  - cbn [fragsize frags set_frags set_fragsize].
    split; [reflexivity |].
    split; [apply (int_shl_one _ _ Hshl) |].
    split; [apply next_pot_is_pot |].
    split; [apply next_pot_ge |].
    intros p Hp Hle. apply next_pot_least; [lia | assumption | assumption].
Qed.

(** C4.  A set-fragment request on a bound slot fails with EINVAL and
    leaves the slot, hence its fragment size and count, as it was; so
    does a request on an unbound slot whose decoded fragment size is
    below 512 or whose fragment count is below 2. *)
Theorem setfragment_rejected (hw : libmaru) (a : ioctl_args)
  (g : cuse_maru_state) (s : cuse_stream_info) :
  (stream s <> LIBMARU_STREAM_MASTER ->
   exec (maru_ioctl hw SNDCTL_DSP_SETFRAGMENT a) g s
   = Some (g, s, [Call.fuse_reply_err EINVAL])) /\
  (forall fs,
     stream s = LIBMARU_STREAM_MASTER ->
     in_bufsize a = sizeof_int ->
     out_bufsize a = sizeof_int ->
     int_shl 1 (Z.land (to_int (in_buf a)) 65535) = Some fs ->
     fs < 512 \/ Z.land (Z.shiftr (to_int (in_buf a)) 16) 65535 < 2 ->
     exec (maru_ioctl hw SNDCTL_DSP_SETFRAGMENT a) g s
     = Some (g, s, [Call.fuse_reply_err EINVAL])).
Proof.
  split.
  - intros Hbound. apply Z.eqb_neq in Hbound. mgo. reflexivity.
  - intros fs Hs Hin Hout Hshl Hbad. apply Z.eqb_eq in Hs.
    assert (Hrej : (fs <? 512)
                   || (Z.land (Z.shiftr (to_int (in_buf a)) 16) 65535 <? 2)
                   = true).
    { apply orb_true_iff.
      destruct Hbad; [left | right]; apply Z.ltb_lt; assumption. }
    unfold exec, maru_ioctl, ioctl_setfragment, bind at 1, get_info.
    cbn [stream_info]. rewrite Hs. cbn [negb].
    rewrite prep_inout_ready by assumption.
    rewrite Hshl. mgo. reflexivity.
Qed.


(** C5 (amended).  Get-output-space on an unbound slot whose
    [fragsize * frags - 1] is at most INT_MAX reports that many bytes,
    on a bound slot the write-availability of the transport when that is
    at most INT_MAX; in both cases [fragments] is that number divided by
    [fragsize] and the reply carries [fragsize] and [frags] as
    configured.  Beyond INT_MAX the [int] members of the reply cannot
    hold the numbers. *)
Theorem getospace_reply (hw : libmaru) (a : ioctl_args)
  (g : cuse_maru_state) (s : cuse_stream_info) :
  out_bufsize a = sizeof_audio_buf_info ->
  0 < fragsize s <= INT_MAX ->
  0 <= frags s <= INT_MAX ->
  (stream s = LIBMARU_STREAM_MASTER ->
   0 <= fragsize s * frags s - 1 <= INT_MAX ->
   exec (maru_ioctl hw SNDCTL_DSP_GETOSPACE a) g s
   = Some (g, s,
           [Call.fuse_reply_ioctl 0
              (out_audio_buf_info
                 {| abi_bytes := fragsize s * frags s - 1;
                    abi_fragments := (fragsize s * frags s - 1) / fragsize s;
                    abi_fragsize := fragsize s;
                    abi_fragstotal := frags s |})])) /\
  (stream s <> LIBMARU_STREAM_MASTER ->
   0 <= maru_stream_write_avail hw (stream s) <= INT_MAX ->
   exec (maru_ioctl hw SNDCTL_DSP_GETOSPACE a) g s
   = Some (g, s,
           [Call.fuse_reply_ioctl 0
              (out_audio_buf_info
                 {| abi_bytes := maru_stream_write_avail hw (stream s);
                    abi_fragments :=
                      maru_stream_write_avail hw (stream s) / fragsize s;
                    abi_fragsize := fragsize s;
                    abi_fragstotal := frags s |})])).
Proof.
  intros Hout Hfs Hfr.
  assert (Hfz : (fragsize s =? 0) = false) by (apply Z.eqb_neq; lia).
  assert (Hdiv : forall b, 0 <= b <= INT_MAX -> to_int (b / fragsize s) = b / fragsize s).
  { intros b Hb. apply to_int_small.
    pose proof (Z.div_pos b (fragsize s) ltac:(lia) ltac:(lia)).
    pose proof (Z.div_le_upper_bound b (fragsize s) b ltac:(lia) ltac:(nia)).
    unfold INT_MAX in *. lia. }
  assert (Hsz : sizeof_audio_buf_info <> 0) by discriminate.
  split.
  - intros Hs Hbytes. apply Z.eqb_eq in Hs.
    unfold exec, maru_ioctl, ioctl_getospace, bind at 1, get_info.
    cbn [stream_info]. rewrite Hs. cbn [negb].
    rewrite to_uint_small by (unfold INT_MAX in *; lia).
    unfold udiv. rewrite Hfz. unfold bind, ret.
    rewrite prep_out_ready by assumption.
    rewrite Hdiv by assumption.
    rewrite !to_int_small by (unfold INT_MAX in *; lia).
    reflexivity.
  - intros Hs Havail. apply Z.eqb_neq in Hs.
    unfold exec, maru_ioctl, ioctl_getospace, bind at 1, get_info.
    cbn [stream_info]. rewrite Hs. cbn [negb].
    unfold udiv. rewrite Hfz. unfold bind, ret.
    rewrite prep_out_ready by assumption.
    rewrite Hdiv by assumption.
    rewrite !to_int_small by (unfold INT_MAX in *; lia).
    reflexivity.
Qed.

(** The two tests of [set_volume] bring the level into the volume
    range. *)
Lemma set_volume_clamps (lo hi v : Z) :
  lo <= hi ->
  (if v <? lo then lo else if hi <? v then hi else v) = clamp lo hi v.
Proof.
  intros Hrange. unfold clamp.
  destruct (Z.ltb_spec v lo); [lia |].
  destruct (Z.ltb_spec hi v); lia.
Qed.

(** C6.  Set-play-volume takes the low byte [p] of the input word as
    the level.  For [p > 0] the native volume handed to the transport is
    [(max * p + min * (100 - p)) / 100] brought into [min .. max]; for
    [p = 0] it is the mute value.  When the transport fails the reply is
    EIO and the slot stays as it was; when it succeeds the reply is the
    word [(p << 8) | p]. *)
Theorem setplayvol_reply (hw : libmaru) (a : ioctl_args)
  (g : cuse_maru_state) (s : cuse_stream_info) :
  in_bufsize a = sizeof_int ->
  out_bufsize a = sizeof_int ->
  g_lock g = false ->
  g_min_volume g <= g_max_volume g ->
  LIBMARU_VOLUME_MUTE <= g_max_volume g ->
  let p := Z.land (to_int (in_buf a)) 255 in
  let native :=
    if 0 <? p
    then clamp (g_min_volume g) (g_max_volume g)
           (Z.quot (g_max_volume g * p + g_min_volume g * (100 - p)) 100)
    else LIBMARU_VOLUME_MUTE in
  (maru_stream_set_volume_ok hw (stream s) native = true ->
   exec (maru_ioctl hw SNDCTL_DSP_SETPLAYVOL a) g s
   = Some (g, set_vol native s,
           [Call.pthread_mutex_lock g_state_lock;
            Call.maru_stream_set_volume (stream s) native;
            Call.pthread_mutex_unlock g_state_lock;
            Call.fuse_reply_ioctl 0 (out_int (Z.lor (Z.shiftl p 8) p))])) /\
  (maru_stream_set_volume_ok hw (stream s) native = false ->
   exists g' tr,
     exec (maru_ioctl hw SNDCTL_DSP_SETPLAYVOL a) g s = Some (g', s, tr) /\
     In (Call.maru_stream_set_volume (stream s) native) tr /\
     replies tr = [Call.fuse_reply_err EIO]).
Proof.
  intros Hin Hout Hlock Hrange Hmute p native.
  assert (Hnative :
    (let vol :=
       if 0 <? p
       then Z.quot (g_max_volume g * p + g_min_volume g * (100 - p)) 100
       else LIBMARU_VOLUME_MUTE in
     if (vol <? g_min_volume g) && (0 <? p) then g_min_volume g
     else if g_max_volume g <? vol then g_max_volume g
     else vol) = native).
  { subst native. cbv zeta. destruct (0 <? p).
    - rewrite andb_true_r. apply set_volume_clamps. exact Hrange.
    - rewrite andb_false_r.
      destruct (Z.ltb_spec (g_max_volume g) LIBMARU_VOLUME_MUTE); [lia |].
      reflexivity. }
  cbv zeta in Hnative.
  destruct g as [lk gfr gfs gsr vmin vmax].
  cbn [g_lock g_min_volume g_max_volume] in *. subst lk.
  split; intros Hok.
  - unfold exec, maru_ioctl, ioctl_setplayvol.
    rewrite prep_inout_ready by assumption.
    fold p. mrun. cbn [g_lock g_min_volume g_max_volume set_g_lock].
    rewrite Hnative, Hok. mrun. reflexivity.
  - unfold exec, maru_ioctl, ioctl_setplayvol.
    rewrite prep_inout_ready by assumption.
    fold p. mrun. cbn [g_lock g_min_volume g_max_volume set_g_lock].
    rewrite Hnative, Hok. mrun.
    do 2 eexists. split; [reflexivity |]. split; [| reflexivity].
    cbn [app In]. right. left. reflexivity.
Qed.

(** *** The error flag and the global lock *)

(** No handler sets the error flag: what [maru_write] and [maru_poll]
    test stays as the zeroing of the slot left it. *)
Lemma handle_keeps_error (hw : libmaru) (r : request) :
  r <> Release -> keeps error_of (handle hw r).
Proof.
  intros Hr. destruct r as [flags data N | cmd a | new_ph | |];
    try contradiction.
  - intros m [] m' Hex. cbn [handle] in Hex.
    destruct (maru_write_outcome _ _ _ _ _ _ Hex) as (_ & Herr & _).
    exact Herr.
  - destruct cmd; keeps_tac.
  - keeps_tac.
  - keeps_tac.
Qed.

(** The commands other than the two volume commands do not touch
    [g_state.lock]. *)
Lemma maru_ioctl_keeps_g_lock (hw : libmaru) (cmd : ioctl_cmd)
  (a : ioctl_args) :
  cmd <> SNDCTL_DSP_SETPLAYVOL ->
  cmd <> SNDCTL_DSP_GETPLAYVOL ->
  keeps g_lock_of (maru_ioctl hw cmd a).
Proof.
  intros Hset Hget. destruct cmd; try contradiction; keeps_tac.
Qed.

Lemma maru_release_zeroes (m m' : machine) :
  maru_release m = Some (tt, m') -> stream_info m' = zero_stream_info.
Proof.
  destruct m as [g s tr]. intros Hex. mrun_in Hex.
  destruct (ph s); mrun_in Hex; injection Hex as <-; reflexivity.
Qed.

(** A slot whose error flag is clear keeps it clear, whatever is
    requested of it. *)
Lemma run_error_clear (rs : list (libmaru * request)) :
  forall m m',
    run rs m = Some (tt, m') -> error_of m = false -> error_of m' = false.
Proof.
  induction rs as [| [hw r] rest IH]; intros m m' Hrun Hclear.
  - injection Hrun as <-. exact Hclear.
  - cbn [run] in Hrun. unfold bind in Hrun.
    destruct (handle hw r m) as [[[] m1] |] eqn:Hstep; [| discriminate].
    apply (IH m1 m' Hrun).
    assert (Hkeep : r <> Release -> error_of m1 = error_of m).
    { intros Hne. exact (handle_keeps_error hw r Hne _ _ _ Hstep). }
    destruct r as [flags data N | cmd a | new_ph | |];
      try (rewrite Hkeep by discriminate; exact Hclear).
    unfold error_of. cbn [handle] in Hstep.
    rewrite (maru_release_zeroes _ _ Hstep). reflexivity.
Qed.

(** *** poll *)

(** C7.  Poll first stores the new handle in the slot, destroying the
    one that was stored, then replies: POLLHUP when the error flag is
    set; POLLOUT when the slot is unbound or the transport has room for
    one fragment; 0 otherwise, with the new handle left in the slot.  A
    slot that any requests have led to from one with a clear error flag
    is answered with POLLOUT whenever it is unbound. *)
Theorem poll_contract (hw : libmaru) (new_ph : option Z)
  (g : cuse_maru_state) (s : cuse_stream_info) :
  exists ev,
    exec (maru_poll hw new_ph) g s
    = Some (g, set_lock false (set_ph new_ph s),
            Call.pthread_mutex_lock stream_info_lock
            :: match ph s with
               | Some old => [Call.fuse_pollhandle_destroy old]
               | None => []
               end
            ++ [Call.fuse_reply_poll ev;
                Call.pthread_mutex_unlock stream_info_lock]) /\
    ph (set_lock false (set_ph new_ph s)) = new_ph /\
    (error s = true -> ev = POLLHUP) /\
    (error s = false ->
     stream s = LIBMARU_STREAM_MASTER \/
     fragsize s <= maru_stream_write_avail hw (stream s) ->
     ev = POLLOUT) /\
    (error s = false ->
     stream s <> LIBMARU_STREAM_MASTER ->
     maru_stream_write_avail hw (stream s) < fragsize s ->
     ev = 0) /\
    (forall rs g0 s0 tr0,
       error s0 = false ->
       exec (run rs) g0 s0 = Some (g, s, tr0) ->
       stream s = LIBMARU_STREAM_MASTER ->
       ev = POLLOUT).
Proof.
  exists (if error s then POLLHUP
          else if (stream s =? LIBMARU_STREAM_MASTER)
                  || (fragsize s <=? maru_stream_write_avail hw (stream s))
               then POLLOUT else 0).
  split; [| split; [reflexivity |]].
  - mrun. cbn [ph error stream fragsize set_ph set_lock].
    destruct (ph s); mrun; cbn [ph error stream fragsize set_ph set_lock];
      destruct (error s); mrun;
      try destruct ((stream s =? LIBMARU_STREAM_MASTER)
                    || (fragsize s <=? maru_stream_write_avail hw (stream s)));
      mrun; reflexivity.
  - assert (Hready : error s = false ->
                     stream s = LIBMARU_STREAM_MASTER \/
                     fragsize s <= maru_stream_write_avail hw (stream s) ->
                     (if error s then POLLHUP
                      else if (stream s =? LIBMARU_STREAM_MASTER)
                              || (fragsize s
                                  <=? maru_stream_write_avail hw (stream s))
                           then POLLOUT else 0) = POLLOUT).
    { intros -> Hready.
      replace ((stream s =? LIBMARU_STREAM_MASTER)
               || (fragsize s <=? maru_stream_write_avail hw (stream s)))
        with true; [reflexivity |].
      symmetry. apply orb_true_iff.
      destruct Hready; [left; apply Z.eqb_eq | right; apply Z.leb_le];
        assumption. }
    split; [| split; [| split]].
    + intros ->. reflexivity.
    + exact Hready.
    + intros -> Hbound Hfull.
      apply Z.eqb_neq in Hbound. apply Z.leb_gt in Hfull.
      rewrite Hbound, Hfull. reflexivity.
    + intros rs g0 s0 tr0 Hclear Hrun Hunbound.
      apply exec_inv in Hrun.
      apply Hready; [| left; exact Hunbound].
      exact (run_error_clear rs _ _ Hrun Hclear).
Qed.


(** Release always hands the stream handle of the slot to
    [maru_stream_close], whatever the handle is. *)
Lemma maru_release_calls (g : cuse_maru_state) (s : cuse_stream_info) :
  exec maru_release g s
  = Some (g, zero_stream_info,
          Call.maru_stream_close (stream s)
          :: match ph s with
             | Some old => [Call.fuse_pollhandle_destroy old]
             | None => []
             end
          ++ [Call.pthread_mutex_destroy stream_info_lock;
              Call.fuse_reply_err 0]).
Proof. mrun. destruct (ph s); reflexivity. Qed.

End Properties.

(** * The properties on the sample inputs *)

Lemma nonblocking_write_clamped_witness :
  exists s' tr,
    exec (@maru_write sample_h (sample_hw true 10 (fun n => n) true)
            O_NONBLOCK sample_data 4096) sample_g sample_bound
    = Some (sample_g, s', tr) /\
    submitted tr = [(0, sample_data, 8)] /\
    replies tr = [Call.fuse_reply_write 8].
Proof.
  destruct (@nonblocking_write_clamped sample_h
              (sample_hw true 10 (fun n => n) true) O_NONBLOCK sample_data
              4096 sample_g sample_bound 0)
    as (s' & tr & Hex & _ & Hpos).
  - reflexivity.
  - lia.
  - reflexivity.
  - left. split; [discriminate | reflexivity].
  - vm_compute. reflexivity.
  - vm_compute. reflexivity.
  - vm_compute. split; discriminate.
  - exists s', tr. split; [exact Hex |].
    destruct Hpos as [Hsub Hrep]; [vm_compute; discriminate |].
    split; [exact Hsub | apply Hrep; reflexivity].
Defined.

(** C1, as stated, at a slot that is still unbound while the hardware
    has no stream to give: the slot is not errored, the write is
    non-blocking and has 4096 bytes, the transport reports no room, so
    that the clamped amount is zero; the write fails with EBUSY and not
    with EAGAIN. *)
Lemma nonblocking_write_busy_counterexample :
  error sample_open = false /\
  0 < 4096 /\
  nonblocking O_NONBLOCK sample_open = true /\
  Z.min 4096
    (maru_stream_write_avail (sample_hw false 0 (fun n => n) true)
       (stream sample_open)
     / frame_bytes sample_open * frame_bytes sample_open) = 0 /\
  exec (@maru_write sample_h (sample_hw false 0 (fun n => n) true)
          O_NONBLOCK sample_data 4096) sample_g sample_open
  = Some (sample_g, sample_open, [Call.fuse_reply_err EBUSY]) /\
  [Call.fuse_reply_err EBUSY] <> [Call.fuse_reply_err EAGAIN].
Proof.
  repeat split; try reflexivity; try lia. discriminate.
Qed.

Lemma write_result_reported_witness :
  replies [Call.maru_stream_write 0 sample_data 4; Call.fuse_reply_err EIO]
  = [Call.fuse_reply_err EIO] /\
  error sample_bound = error sample_bound /\
  write_cnt sample_bound = write_cnt sample_bound.
Proof.
  apply (proj1 (@write_result_reported sample_h
                  (sample_hw true 0 (fun _ => 0) true) O_WRONLY sample_data 4
                  sample_g sample_g sample_bound sample_bound
                  [Call.maru_stream_write 0 sample_data 4;
                   Call.fuse_reply_err EIO]
                  0 4 eq_refl eq_refl)).
  reflexivity.
Defined.

(** C2, as stated, on a bound slot: the transport accepts nothing of a
    first write and four bytes of a second one.  The first write is
    answered with EIO, the second with four bytes written and not with
    EPIPE, and the error flag is not set. *)
Lemma zero_write_not_terminal_counterexample :
  exec (@run sample_h
          [(sample_hw true 0 (fun _ => 0) true,
            Write O_WRONLY sample_data 4);
           (sample_hw true 0 (fun n => n) true,
            Write O_WRONLY sample_data 4)])
    sample_g sample_bound
  = Some (sample_g, set_write_cnt 4 sample_bound,
          [Call.maru_stream_write 0 sample_data 4;
           Call.fuse_reply_err EIO;
           Call.maru_stream_write 0 sample_data 4;
           Call.fuse_reply_write 4]) /\
  error (set_write_cnt 4 sample_bound) = false /\
  Call.fuse_reply_write 4 <> Call.fuse_reply_err EPIPE.
Proof.
  split; [reflexivity |]. split; [reflexivity | discriminate].
Qed.

Lemma setfragment_valid_witness :
  exists s',
    exec (@maru_ioctl sample_h (sample_hw true 0 (fun n => n) true)
            SNDCTL_DSP_SETFRAGMENT (sample_args 524299 4))
      sample_g sample_open
    = Some (sample_g, s', [Call.fuse_reply_ioctl 0 (out_int 524299)]) /\
    fragsize s' = 2048 /\ frags s' = 8.
Proof.
  destruct (@setfragment_valid sample_h (sample_hw true 0 (fun n => n) true)
              (sample_args 524299 4) sample_g sample_open 2048)
    as (s' & Hex & Hfs & _ & _ & Hge & Hleast).
  - reflexivity.
  - reflexivity.
  - reflexivity.
  - reflexivity.
  - lia.
  - vm_compute. discriminate.
  - exists s'. split; [exact Hex |]. split; [exact Hfs |].
    assert (Hpot : is_pot 8) by (exists 3; split; [lia | reflexivity]).
    specialize (Hleast 8 Hpot). change (8 <= frags s') in Hge.
    change (8 <= 8 -> frags s' <= 8) in Hleast. lia.
Defined.

Lemma setfragment_rejected_witness :
  exec (@maru_ioctl sample_h (sample_hw true 0 (fun n => n) true)
          SNDCTL_DSP_SETFRAGMENT (sample_args 524299 4))
    sample_g sample_bound
  = Some (sample_g, sample_bound, [Call.fuse_reply_err EINVAL]) /\
  exec (@maru_ioctl sample_h (sample_hw true 0 (fun n => n) true)
          SNDCTL_DSP_SETFRAGMENT (sample_args 524296 4))
    sample_g sample_open
  = Some (sample_g, sample_open, [Call.fuse_reply_err EINVAL]).
Proof.
  split.
  - apply (proj1 (@setfragment_rejected sample_h
                    (sample_hw true 0 (fun n => n) true)
                    (sample_args 524299 4) sample_g sample_bound)).
    discriminate.
  - apply (proj2 (@setfragment_rejected sample_h
                    (sample_hw true 0 (fun n => n) true)
                    (sample_args 524296 4) sample_g sample_open) 256).
    + reflexivity.
    + reflexivity.
    + reflexivity.
    + reflexivity.
    + left. lia.
Defined.

(** The scenario of the specification: fragments of 2048 bytes, 8 of
    them, then the output space of the still unbound slot. *)
Lemma getospace_reply_witness :
  exec (@maru_ioctl sample_h (sample_hw true 0 (fun n => n) true)
          SNDCTL_DSP_GETOSPACE (sample_args 0 16))
    sample_g (set_frags 8 (set_fragsize 2048 sample_open))
  = Some (sample_g, set_frags 8 (set_fragsize 2048 sample_open),
          [Call.fuse_reply_ioctl 0
             (out_audio_buf_info
                {| abi_bytes := 16383; abi_fragments := 7;
                   abi_fragsize := 2048; abi_fragstotal := 8 |})]).
Proof.
  apply (proj1 (@getospace_reply sample_h (sample_hw true 0 (fun n => n) true)
                  (sample_args 0 16) sample_g
                  (set_frags 8 (set_fragsize 2048 sample_open))
                  eq_refl
                  ltac:(vm_compute; split; [reflexivity | discriminate])
                  ltac:(vm_compute; split; discriminate))).
  - reflexivity.
  - vm_compute. split; discriminate.
Defined.

(** C5, as stated, on a slot to which set-fragment has given 32768
    fragments of 2^30 bytes (request word 0x7fff001e, which it accepts):
    the slot is unbound, and get-output-space reports -1 bytes and 3
    fragments, not the product less one and its quotient by the
    fragment size. *)
Lemma getospace_wrapped_counterexample :
  exec (@run sample_h
          [(sample_hw true 0 (fun n => n) true,
            Ioctl SNDCTL_DSP_SETFRAGMENT (sample_args 2147418142 4));
           (sample_hw true 0 (fun n => n) true,
            Ioctl SNDCTL_DSP_GETOSPACE (sample_args 0 16))])
    sample_g sample_open
  = Some (sample_g, set_frags 32768 (set_fragsize 1073741824 sample_open),
          [Call.fuse_reply_ioctl 0 (out_int 2147418142);
           Call.fuse_reply_ioctl 0
             (out_audio_buf_info
                {| abi_bytes := -1; abi_fragments := 3;
                   abi_fragsize := 1073741824; abi_fragstotal := 32768 |})]) /\
  stream (set_frags 32768 (set_fragsize 1073741824 sample_open))
  = @LIBMARU_STREAM_MASTER sample_h /\
  -1 <> 1073741824 * 32768 - 1 /\
  3 <> (1073741824 * 32768 - 1) / 1073741824.
Proof.
  split; [reflexivity |]. split; [reflexivity |].
  split; vm_compute; discriminate.
Qed.

(** The scenario of the specification: level 50 on a range of 0..1000
    is the native volume 500 and is answered with [(50 << 8) | 50]. *)
Lemma setplayvol_reply_witness :
  exec (@maru_ioctl sample_h (sample_hw true 0 (fun n => n) true)
          SNDCTL_DSP_SETPLAYVOL (sample_args 50 4)) sample_g sample_bound
  = Some (sample_g, set_vol 500 sample_bound,
          [Call.pthread_mutex_lock g_state_lock;
           Call.maru_stream_set_volume 0 500;
           Call.pthread_mutex_unlock g_state_lock;
           Call.fuse_reply_ioctl 0 (out_int 12850)]).
Proof.
  apply (proj1 (@setplayvol_reply sample_h (sample_hw true 0 (fun n => n) true)
                  (sample_args 50 4) sample_g sample_bound
                  eq_refl eq_refl eq_refl
                  ltac:(vm_compute; discriminate)
                  ltac:(vm_compute; discriminate))).
  reflexivity.
Defined.

Lemma poll_contract_witness :
  exists ev,
    exec (@maru_poll sample_h (sample_hw true 0 (fun n => n) true) (Some 7))
      sample_g sample_open
    = Some (sample_g, set_lock false (set_ph (Some 7) sample_open),
            [Call.pthread_mutex_lock stream_info_lock;
             Call.fuse_reply_poll ev;
             Call.pthread_mutex_unlock stream_info_lock]) /\
    ev = POLLOUT.
Proof.
  destruct (@poll_contract sample_h (sample_hw true 0 (fun n => n) true)
              (Some 7) sample_g sample_open)
    as (ev & Hex & _ & _ & Hout & _ & _).
  exists ev. split; [exact Hex |].
  apply Hout; [reflexivity | left; reflexivity].
Defined.

Lemma write_cnt_monotone_witness :
  exists s' tr,
    exec (@run sample_h
            [(sample_hw true 0 (fun n => n) true,
              Write O_WRONLY sample_data 4);
             (sample_hw true 0 (fun n => Z.min n 2) true,
              Write O_WRONLY sample_data 4)])
      sample_g sample_bound
    = Some (sample_g, s', tr) /\
    write_cnt sample_bound <= write_cnt s' <= write_cnt sample_bound + 8.
Proof.
  do 2 eexists. split; [reflexivity |].
  apply (proj1 (@write_cnt_monotone sample_h)
           [(sample_hw true 0 (fun n => n) true,
             Write O_WRONLY sample_data 4);
            (sample_hw true 0 (fun n => Z.min n 2) true,
             Write O_WRONLY sample_data 4)]
           sample_g sample_bound sample_g _ _ eq_refl).
  - repeat constructor.
  - repeat constructor; cbn; intros; lia.
  - vm_compute. discriminate.
  - vm_compute. discriminate.
Defined.

(** C8, on a slot that was opened and never written to.  Its stream
    handle is [LIBMARU_STREAM_MASTER]; release hands that handle to
    [maru_stream_close] all the same, where reset on the same slot
    closes nothing.  The poll handle, the zeroing of the slot and the
    reply are as the claim has them. *)
Theorem release_closes_unbound_slot :
  stream sample_open = @LIBMARU_STREAM_MASTER sample_h /\
  exec maru_release sample_g (set_ph (Some 7) sample_open)
  = Some (sample_g, zero_stream_info,
          [Call.maru_stream_close (@LIBMARU_STREAM_MASTER sample_h);
           Call.fuse_pollhandle_destroy 7;
           Call.pthread_mutex_destroy stream_info_lock;
           Call.fuse_reply_err 0]) /\
  closed [Call.maru_stream_close (@LIBMARU_STREAM_MASTER sample_h);
          Call.fuse_pollhandle_destroy 7;
          Call.pthread_mutex_destroy stream_info_lock;
          Call.fuse_reply_err 0]
  = [@LIBMARU_STREAM_MASTER sample_h] /\
  exec (@maru_ioctl sample_h (sample_hw true 0 (fun n => n) true)
          SNDCTL_DSP_RESET (sample_args 0 0))
    sample_g (set_ph (Some 7) sample_open)
  = Some (sample_g, set_ph (Some 7) sample_open,
          [Call.fuse_reply_ioctl 0 out_null]) /\
  closed [Call.fuse_reply_ioctl 0 out_null] = [].
Proof. repeat split. Qed.

(** C10, on a bound slot when the transport refuses the volume calls.
    Set-play-volume and get-play-volume take [g_state.lock], reply EIO
    and return without releasing it: the lock is held when the handler
    is done.  On the path where the transport obliges the same handler
    releases the lock before it replies. *)
Theorem playvol_error_keeps_lock :
  exec (@maru_ioctl sample_h (sample_hw true 0 (fun n => n) false)
          SNDCTL_DSP_SETPLAYVOL (sample_args 50 4)) sample_g sample_bound
  = Some (set_g_lock true sample_g, sample_bound,
          [Call.pthread_mutex_lock g_state_lock;
           Call.maru_stream_set_volume 0 500;
           Call.fuse_reply_err EIO]) /\
  exec (@maru_ioctl sample_h (sample_hw true 0 (fun n => n) false)
          SNDCTL_DSP_GETPLAYVOL (sample_args 0 4)) sample_g sample_bound
  = Some (set_g_lock true sample_g, sample_bound,
          [Call.pthread_mutex_lock g_state_lock;
           Call.fuse_reply_err EIO]) /\
  g_lock (set_g_lock true sample_g) = true /\
  g_lock_after false
    [Call.pthread_mutex_lock g_state_lock;
     Call.maru_stream_set_volume 0 500;
     Call.fuse_reply_err EIO] = true /\
  exec (@maru_ioctl sample_h (sample_hw true 0 (fun n => n) true)
          SNDCTL_DSP_GETPLAYVOL (sample_args 0 4)) sample_g sample_bound
  = Some (sample_g, set_vol 50 sample_bound,
          [Call.pthread_mutex_lock g_state_lock;
           Call.pthread_mutex_unlock g_state_lock;
           Call.fuse_reply_ioctl 0 (out_int 12850)]).
Proof. repeat split. Qed.

(** * Further properties of the handlers *)

(** Splits a finished execution into the paths of the handler, also
    where the handler looks at an answer of the transport. *)
Ltac mpaths Hx :=
  repeat (mrun_in Hx;
          match type of Hx with
          | context [if ?b then _ else _] => destruct b eqn:?
          | context [match ?x with _ => _ end] =>
              lazymatch x with
              | context [match _ with _ => _ end] => fail
              | _ => destruct x eqn:?
              end
          end);
  mrun_in Hx.

Ltac mdone Hx :=
  try discriminate Hx;
  injection Hx as <- <- <-;
  cbn [app replies filter is_reply length destroyed notified submitted
       closed handle_list ph stream write_cnt error nonblock channels bits
       fragsize frags sample_rate vol lock active process_name
       set_active set_stream set_sample_rate set_channels set_bits
       set_fragsize set_frags set_write_cnt set_nonblock set_vol set_ph
       set_lock set_process_name zero_stream_info] in *.

Section Coverage.

Context {H : libmaru_h}.

(** *** How the calls of a sequence compose *)

Lemma framed_ret {A : Type} (a : A) : framed (ret a).
Proof. intros g s pre. cbv [ret]. cbn. rewrite app_nil_r. reflexivity. Qed.

Lemma framed_undefined {A : Type} : framed (@undefined A).
Proof. intros g s pre. reflexivity. Qed.

Lemma framed_bind {A B : Type} (c : M A) (k : A -> M B) :
  framed c -> (forall a, framed (k a)) -> framed (bind c k).
Proof.
  intros Hc Hk g s pre. unfold bind. rewrite (Hc g s pre).
  destruct (c {| g_state := g; stream_info := s; calls := [] |})
    as [[a [g1 s1 t1]] |]; [| reflexivity].
  cbn [g_state stream_info calls].
  rewrite (Hk a g1 s1 (pre ++ t1)), (Hk a g1 s1 t1).
  destruct (k a {| g_state := g1; stream_info := s1; calls := [] |})
    as [[b [g2 s2 t2]] |]; [| reflexivity].
  cbn [g_state stream_info calls]. rewrite app_assoc. reflexivity.
Qed.

Ltac framed_prim :=
  intros ? ? ?; cbv [call update update_g get_info get_g];
  cbn [g_state stream_info calls app]; rewrite ?app_nil_r; reflexivity.

Ltac framed_tac :=
  repeat first
    [ apply framed_ret
    | apply framed_undefined
    | apply framed_bind; [| intros ?]
    | match goal with
      | |- framed (if ?b then _ else _) => destruct b
      | |- framed (match ?x with _ => _ end) => destruct x
      end
    | progress cbv beta iota zeta delta
        [handle maru_write init_stream maru_release
         maru_ioctl ioctl_reset ioctl_speed ioctl_setfmt
         ioctl_getospace ioctl_setfragment ioctl_getodelay ioctl_sync
         ioctl_getoptr ioctl_setplayvol ioctl_getplayvol set_volume
         read_volume ioctl_prep_uarg PREP_UARG_OUT PREP_UARG_INOUT
         IOCTL_RETURN IOCTL_RETURN_NULL maru_poll maru_update_pollhandle
         write_notification_cb pthread_mutex_lock pthread_mutex_unlock
         assert udiv umod lift_option]
    | solve [framed_prim] ].

Lemma handle_framed (hw : libmaru) (r : request) : framed (handle hw r).
Proof.
  destruct r as [flags data N | cmd a | new_ph | |].
  - framed_tac.
  - destruct cmd; framed_tac.
  - framed_tac.
  - framed_tac.
  - framed_tac.
Qed.

Lemma run_framed (rs : list (libmaru * request)) : framed (run rs).
Proof.
  induction rs as [| [hw r] rest IH]; cbn [run].
  - apply framed_ret.
  - apply framed_bind; [apply handle_framed | intros _; exact IH].
Qed.

(** The calls of a sequence are the calls of its first request followed
    by the calls of the rest, run from where the first request ends. *)
Lemma exec_run_cons (hw : libmaru) (r : request)
  (rest : list (libmaru * request)) (g : cuse_maru_state)
  (s : cuse_stream_info) :
  exec (run ((hw, r) :: rest)) g s
  = match exec (handle hw r) g s with
    | Some (g1, s1, t1) =>
        match exec (run rest) g1 s1 with
        | Some (g2, s2, t2) => Some (g2, s2, t1 ++ t2)
        | None => None
        end
    | None => None
    end.
Proof.
  unfold exec. cbn [run]. unfold bind.
  destruct (handle hw r {| g_state := g; stream_info := s; calls := [] |})
    as [[[] [g1 s1 t1]] |]; [| reflexivity].
  cbn [g_state stream_info calls].
  rewrite (run_framed rest g1 s1 t1).
  destruct (run rest {| g_state := g1; stream_info := s1; calls := [] |})
    as [[[] [g2 s2 t2]] |]; reflexivity.
Qed.

(** *** Every request is answered once *)

Lemma handle_replies_once (hw : libmaru) (r : request)
  (g g' : cuse_maru_state) (s s' : cuse_stream_info) (tr : list Call.t) :
  exec (handle hw r) g s = Some (g', s', tr) ->
  length (replies tr) = answered [(hw, r)].
Proof.
  intros Hex. destruct r as [flags data N | cmd a | new_ph | |];
    [| destruct cmd | | |]; mpaths Hex; mdone Hex; reflexivity.
Qed.

Lemma replies_app (tr1 tr2 : list Call.t) :
  replies (tr1 ++ tr2) = replies tr1 ++ replies tr2.
Proof. unfold replies. apply filter_app. Qed.

(** Over a sequence that runs, FUSE gets exactly one reply per request
    (write, ioctl, poll or release) and none for a write notification:
    no handler answers twice and none returns without an answer. *)
Theorem requests_answered_once (rs : list (libmaru * request)) :
  forall g s g' s' tr,
    exec (run rs) g s = Some (g', s', tr) ->
    length (replies tr) = answered rs.
Proof.
  induction rs as [| [hw r] rest IH]; intros g s g' s' tr Hex.
  - injection Hex as _ _ <-. reflexivity.
  - rewrite exec_run_cons in Hex.
    destruct (exec (handle hw r) g s) as [[[g1 s1] t1] |] eqn:Hone;
      [| discriminate].
    destruct (exec (run rest) g1 s1) as [[[g2 s2] t2] |] eqn:Hrest;
      [| discriminate].
    injection Hex as _ _ <-.
    rewrite replies_app, length_app, (IH _ _ _ _ _ Hrest).
    rewrite (handle_replies_once _ _ _ _ _ _ _ Hone).
    destruct r; reflexivity.
Qed.

(** *** The slot table: open and release *)

Lemma open_scan_found (table : list cuse_stream_info) :
  forall i fh table',
    open_scan table i = Some (fh, table') ->
    exists k s,
      fh = (i + k)%nat /\
      nth_error table k = Some s /\ active s = false /\
      (forall j sj, (j < k)%nat -> nth_error table j = Some sj ->
                    active sj = true) /\
      table' = table_update (set_active true) table k.
Proof.
  induction table as [| s0 rest IH]; intros i fh table' Hscan;
    cbn [open_scan] in Hscan; [discriminate |].
  destruct (active s0) eqn:Hact; cbn [negb] in Hscan.
  - destruct (open_scan rest (S i)) as [[fh' rest'] |] eqn:Hrest;
      [| discriminate].
    injection Hscan as <- <-.
    destruct (IH _ _ _ Hrest) as (k & s & -> & Hk & Hfree & Hbelow & ->).
    exists (S k), s. repeat split; try assumption; [lia |].
    intros [| j] sj Hj Hnth; cbn [nth_error] in Hnth.
    + injection Hnth as <-. exact Hact.
    + apply (Hbelow j sj); [lia | exact Hnth].
  - injection Hscan as <- <-. exists O, s0.
    repeat split; try assumption; [lia |]. intros j sj Hj. lia.
Qed.

Lemma open_scan_full (table : list cuse_stream_info) (i : nat) :
  (forall s, In s table -> active s = true) -> open_scan table i = None.
Proof.
  revert i. induction table as [| s0 rest IH]; intros i Hall; [reflexivity |].
  cbn [open_scan]. rewrite (Hall s0 (or_introl eq_refl)). cbn [negb].
  rewrite IH; [reflexivity |]. intros s Hin. apply Hall. right. exact Hin.
Qed.

Lemma open_scan_lowest (table : list cuse_stream_info) :
  forall i k s,
    nth_error table k = Some s -> active s = false ->
    (forall j sj, (j < k)%nat -> nth_error table j = Some sj ->
                  active sj = true) ->
    open_scan table i
    = Some ((i + k)%nat, table_update (set_active true) table k).
Proof.
  induction table as [| s0 rest IH]; intros i k s Hnth Hfree Hbelow.
  - destruct k; discriminate.
  - destruct k as [| k]; cbn [nth_error] in Hnth.
    + injection Hnth as ->. cbn [open_scan table_update].
      rewrite Hfree. cbn [negb]. rewrite Nat.add_0_r. reflexivity.
    + cbn [open_scan table_update].
      rewrite (Hbelow O s0 ltac:(lia) eq_refl). cbn [negb].
      rewrite (IH (S i) k s Hnth Hfree).
      * rewrite Nat.add_succ_r. reflexivity.
      * intros j sj Hj Hj'. apply (Hbelow (S j) sj); [lia | exact Hj'].
Qed.

Lemma table_update_twice (f1 f2 : cuse_stream_info -> cuse_stream_info)
  (table : list cuse_stream_info) :
  forall k,
    table_update f2 (table_update f1 table k) k
    = table_update (fun s => f2 (f1 s)) table k.
Proof.
  induction table as [| s0 rest IH]; intros [| k]; cbn [table_update];
    try reflexivity.
  rewrite IH. reflexivity.
Qed.

Lemma nth_error_table_update (f : cuse_stream_info -> cuse_stream_info)
  (table : list cuse_stream_info) :
  forall k j,
    nth_error (table_update f table k) j
    = if Nat.eqb j k then option_map f (nth_error table j)
      else nth_error table j.
Proof.
  induction table as [| s0 rest IH]; intros k j.
  - cbn [table_update]. destruct j; destruct (Nat.eqb _ k); reflexivity.
  - destruct k as [| k]; destruct j as [| j]; cbn [table_update nth_error];
      try reflexivity.
    rewrite IH. reflexivity.
Qed.

(** The slot that [maru_open] hands out, from the slot [s] it finds. *)
Lemma maru_open_success (flags : Z) (name : list Byte.byte)
  (g : cuse_maru_state) (table : list cuse_stream_info) (fh : nat)
  (s : cuse_stream_info) :
  Z.land flags 3 = O_WRONLY ->
  g_lock g = false ->
  nth_error table fh = Some s ->
  active s = false ->
  (forall j sj, (j < fh)%nat -> nth_error table j = Some sj ->
                active sj = true) ->
  maru_open flags name g table
  = (g,
     table_update
       (fun s =>
          set_process_name name
            (set_frags (g_frags g)
               (set_fragsize (g_fragsize g)
                  (set_stream LIBMARU_STREAM_MASTER
                     (set_bits 16
                        (set_channels 2
                           (set_sample_rate (g_sample_rate g)
                              (set_lock false (set_active true s)))))))))
       table fh,
     [Call.pthread_mutex_lock g_state_lock;
      Call.pthread_mutex_unlock g_state_lock;
      Call.pthread_mutex_init stream_info_lock;
      Call.fuse_reply_open (Z.of_nat fh)]).
Proof.
  intros Hmode Hlock Hnth Hfree Hbelow. unfold maru_open.
  change (Z.lor O_WRONLY (Z.lor O_RDONLY O_RDWR)) with 3.
  rewrite Hmode, Z.eqb_refl, Hlock. cbn [negb].
  rewrite (open_scan_lowest table O fh s Hnth Hfree Hbelow).
  cbn [Nat.add]. rewrite table_update_twice. reflexivity.
Qed.

(** With [g_state.lock] free, open for writing hands out the lowest slot
    that is not in use.  The reply carries its index; the slot is marked
    active and gets the defaults: unbound, the configured rate and
    geometry, two channels of 16 bits.  Open does not zero the slot:
    whatever else it held (write count, error and non-blocking flags,
    volume, poll handle) is left as found, so these are zero only
    because release zeroed them; every other slot is left as found
    too. *)
Theorem maru_open_lowest_free (flags : Z) (name : list Byte.byte)
  (g : cuse_maru_state) (table : list cuse_stream_info) (fh : nat)
  (s : cuse_stream_info) :
  Z.land flags 3 = O_WRONLY ->
  g_lock g = false ->
  nth_error table fh = Some s ->
  active s = false ->
  (forall j sj, (j < fh)%nat -> nth_error table j = Some sj ->
                active sj = true) ->
  exists table' s',
    maru_open flags name g table
    = (g, table',
       [Call.pthread_mutex_lock g_state_lock;
        Call.pthread_mutex_unlock g_state_lock;
        Call.pthread_mutex_init stream_info_lock;
        Call.fuse_reply_open (Z.of_nat fh)]) /\
    nth_error table' fh = Some s' /\
    (forall j, j <> fh -> nth_error table' j = nth_error table j) /\
    active s' = true /\
    stream s' = LIBMARU_STREAM_MASTER /\
    sample_rate s' = g_sample_rate g /\
    channels s' = 2 /\ bits s' = 16 /\
    fragsize s' = g_fragsize g /\ frags s' = g_frags g /\
    write_cnt s' = write_cnt s /\ error s' = error s /\
    nonblock s' = nonblock s /\ vol s' = vol s /\ ph s' = ph s.
Proof.
  intros Hmode Hlock Hnth Hfree Hbelow.
  rewrite (maru_open_success flags name g table fh s Hmode Hlock Hnth Hfree
             Hbelow).
  do 2 eexists. split; [reflexivity |]. split; [| split].
  - rewrite nth_error_table_update, Nat.eqb_refl, Hnth. reflexivity.
  - intros j Hj. rewrite nth_error_table_update.
    apply Nat.eqb_neq in Hj. rewrite Hj. reflexivity.
  - repeat split.
Qed.

(** Open refuses an access mode other than write-only with EACCES before
    it takes the lock, whether the lock is free or not.  With
    [g_state.lock] free it refuses a table without a free slot with
    EBUSY.  With [g_state.lock] held a write-only open gets as far as
    the lock call and makes no reply.  The table is as before in all
    three cases. *)
Theorem maru_open_refused (flags : Z) (name : list Byte.byte)
  (g : cuse_maru_state) (table : list cuse_stream_info) :
  (Z.land flags 3 <> O_WRONLY ->
   maru_open flags name g table = (g, table, [Call.fuse_reply_err EACCES])) /\
  (Z.land flags 3 = O_WRONLY ->
   g_lock g = false ->
   (forall s, In s table -> active s = true) ->
   maru_open flags name g table
   = (g, table,
      [Call.pthread_mutex_lock g_state_lock;
       Call.pthread_mutex_unlock g_state_lock;
       Call.fuse_reply_err EBUSY])) /\
  (Z.land flags 3 = O_WRONLY ->
   g_lock g = true ->
   maru_open flags name g table
   = (g, table, [Call.pthread_mutex_lock g_state_lock]) /\
   replies (snd (maru_open flags name g table)) = []).
Proof.
  unfold maru_open.
  change (Z.lor O_WRONLY (Z.lor O_RDONLY O_RDWR)) with 3.
  split; [| split].
  - intros Hmode. apply Z.eqb_neq in Hmode. rewrite Hmode. reflexivity.
  - intros Hmode Hlock Hfull. rewrite Hmode, Z.eqb_refl, Hlock. cbn [negb].
    rewrite (open_scan_full table O Hfull). reflexivity.
  - intros Hmode Hlock. rewrite Hmode, Z.eqb_refl, Hlock. cbn [negb].
    split; reflexivity.
Qed.

(** What a successful open tells about the table before and after. *)
Lemma maru_open_inv (flags : Z) (name : list Byte.byte)
  (g g' : cuse_maru_state) (table table' : list cuse_stream_info)
  (tr : list Call.t) (fh : Z) :
  maru_open flags name g table = (g', table', tr) ->
  In (Call.fuse_reply_open fh) tr ->
  exists k s s',
    fh = Z.of_nat k /\
    nth_error table k = Some s /\ active s = false /\
    nth_error table' k = Some s' /\ active s' = true.
Proof.
  unfold maru_open. intros Hopen Hin.
  destruct (negb _).
  { injection Hopen as _ _ <-. cbn [In] in Hin.
    destruct Hin as [Hin | []]. discriminate Hin. }
  destruct (g_lock g).
  { injection Hopen as _ _ <-. cbn [In] in Hin.
    destruct Hin as [Hin | []]. discriminate Hin. }
  destruct (open_scan table O) as [[k table1] |] eqn:Hscan.
  - injection Hopen as _ <- <-.
    destruct (open_scan_found _ _ _ _ Hscan)
      as (k' & s & -> & Hnth & Hfree & _ & ->).
    cbn [Nat.add] in *. cbn [In] in Hin.
    destruct Hin as [Hin | [Hin | [Hin | [Hin | []]]]];
      try discriminate Hin.
    injection Hin as <-.
    eexists k', s, _. split; [reflexivity |].
    split; [exact Hnth |]. split; [exact Hfree |].
    rewrite table_update_twice, nth_error_table_update, Nat.eqb_refl, Hnth.
    split; reflexivity.
  - injection Hopen as _ _ <-. cbn [In] in Hin.
    destruct Hin as [Hin | [Hin | [Hin | []]]]; discriminate Hin.
Qed.

(** Two opens in a row never hand out the same slot. *)
Theorem maru_open_twice_distinct (flags1 flags2 : Z)
  (name1 name2 : list Byte.byte) (g g1 g2 : cuse_maru_state)
  (table table1 table2 : list cuse_stream_info) (tr1 tr2 : list Call.t)
  (fh1 fh2 : Z) :
  maru_open flags1 name1 g table = (g1, table1, tr1) ->
  In (Call.fuse_reply_open fh1) tr1 ->
  maru_open flags2 name2 g1 table1 = (g2, table2, tr2) ->
  In (Call.fuse_reply_open fh2) tr2 ->
  fh1 <> fh2.
Proof.
  intros Hopen1 Hin1 Hopen2 Hin2.
  destruct (maru_open_inv _ _ _ _ _ _ _ _ Hopen1 Hin1)
    as (k1 & _ & s1 & -> & _ & _ & Hnth1 & Hact1).
  destruct (maru_open_inv _ _ _ _ _ _ _ _ Hopen2 Hin2)
    as (k2 & s2 & _ & -> & Hnth2 & Hfree2 & _).
  intros Heq. apply Nat2Z.inj in Heq. subst k2.
  rewrite Hnth1 in Hnth2. injection Hnth2 as <-. congruence.
Qed.

(** Release frees the slot for the next open: with [g_state.lock] free
    and every lower slot in use, the open that follows a release of slot
    [fh] hands out [fh] again. *)
Theorem release_then_open_reuses (flags : Z) (name : list Byte.byte)
  (g g' : cuse_maru_state) (table table' : list cuse_stream_info)
  (fh : nat) (tr : list Call.t) :
  exec_at maru_release g table fh = Some (g', table', tr) ->
  g_lock g = false ->
  Z.land flags 3 = O_WRONLY ->
  (forall j sj, (j < fh)%nat -> nth_error table j = Some sj ->
                active sj = true) ->
  exists table'',
    maru_open flags name g' table'
    = (g', table'',
       [Call.pthread_mutex_lock g_state_lock;
        Call.pthread_mutex_unlock g_state_lock;
        Call.pthread_mutex_init stream_info_lock;
        Call.fuse_reply_open (Z.of_nat fh)]) /\
    replies tr = [Call.fuse_reply_err 0].
Proof.
  unfold exec_at. intros Hrel Hlock Hmode Hbelow.
  destruct (nth_error table fh) as [s |] eqn:Hnth; [| discriminate].
  rewrite maru_release_calls in Hrel. injection Hrel as <- <- <-.
  eexists. split.
  - apply (maru_open_success flags name g _ fh zero_stream_info Hmode Hlock).
    + rewrite nth_error_table_update, Nat.eqb_refl, Hnth. reflexivity.
    + reflexivity.
    + intros j sj Hj Hj'. rewrite nth_error_table_update in Hj'.
      destruct (Nat.eqb_spec j fh) as [-> | _]; [lia |].
      exact (Hbelow j sj Hj Hj').
  - destruct (ph s); reflexivity.
Qed.

(** *** More on write *)

(** An errored slot refuses every write with EPIPE, even an empty one.
    On a slot without error an empty write is answered with zero bytes
    at once: the slot is not bound for it and the transport is not
    asked. *)
Theorem write_refused_early (hw : libmaru) (flags : Z)
  (data : list Byte.byte) (N : Z) (g : cuse_maru_state)
  (s : cuse_stream_info) :
  (error s = true ->
   exec (maru_write hw flags data N) g s
   = Some (g, s, [Call.fuse_reply_err EPIPE])) /\
  (error s = false -> N = 0 ->
   exec (maru_write hw flags data N) g s
   = Some (g, s, [Call.fuse_reply_write 0])).
Proof.
  split.
  - intros Herr. mgo. reflexivity.
  - intros Herr ->. mgo. reflexivity.
Qed.

(** A blocking write hands all [N] bytes to the transport, whatever room
    the transport reports and whatever the frame size is; it is never
    answered with EAGAIN. *)
Theorem blocking_write_submits_all (hw : libmaru) (flags : Z)
  (data : list Byte.byte) (N : Z) (g : cuse_maru_state)
  (s : cuse_stream_info) (st : Z) :
  error s = false ->
  N <> 0 ->
  nonblocking flags s = false ->
  writes_to hw s st ->
  exists s' tr,
    exec (maru_write hw flags data N) g s = Some (g, s', tr) /\
    stream s' = st /\
    submitted tr = [(st, data, N)] /\
    replies tr
    = [if maru_stream_write_ret hw st data N =? 0
       then Call.fuse_reply_err EIO
       else Call.fuse_reply_write (maru_stream_write_ret hw st data N)].
Proof.
  intros Herr HN Hnb Hto. apply Z.eqb_neq in HN. unfold nonblocking in Hnb.
  destruct Hto as [[Hbound ->] | (Hunbound & -> & Hfree & Hopen)].
  - apply Z.eqb_neq in Hbound. mgo.
    destruct (maru_stream_write_ret hw (stream s) data N =? 0); mgo;
      do 2 eexists; (split; [reflexivity |]); repeat split.
  - apply Z.eqb_eq in Hunbound. apply Z.ltb_ge in Hfree. mgo.
    cbn [set_stream nonblock channels bits stream write_cnt]. mgo.
    destruct (maru_stream_write_ret hw (maru_find_available_stream hw)
                data N =? 0); mgo;
      do 2 eexists; (split; [reflexivity |]); repeat split.
Qed.

(** A first write that cannot bind a hardware stream is answered with
    EBUSY and leaves the slot unbound and untouched.  Without a free
    stream nothing is asked of the transport; when the stream cannot be
    opened no write notification is registered.  Nothing is submitted in
    either case. *)
Theorem write_binding_failure (hw : libmaru) (flags : Z)
  (data : list Byte.byte) (N : Z) (g : cuse_maru_state)
  (s : cuse_stream_info) :
  error s = false ->
  N <> 0 ->
  stream s = LIBMARU_STREAM_MASTER ->
  (maru_find_available_stream hw < 0 ->
   exec (maru_write hw flags data N) g s
   = Some (g, s, [Call.fuse_reply_err EBUSY])) /\
  (0 <= maru_find_available_stream hw ->
   maru_stream_open_ok hw (maru_find_available_stream hw) (init_desc s)
   = false ->
   exec (maru_write hw flags data N) g s
   = Some (g, s,
           [Call.maru_stream_open (maru_find_available_stream hw)
              (init_desc s);
            Call.fuse_reply_err EBUSY])).
Proof.
  intros Herr HN Hunbound. apply Z.eqb_neq in HN. apply Z.eqb_eq in Hunbound.
  split.
  - intros Hnone. apply Z.ltb_lt in Hnone. mgo. reflexivity.
  - intros Hfree Hopen. apply Z.ltb_ge in Hfree. mgo. reflexivity.
Qed.

(** A write changes nothing of the slot but the stream handle and the
    write count, nothing of the global state, and never rebinds a slot
    that is bound. *)
Theorem maru_write_frame (hw : libmaru) (flags : Z) (data : list Byte.byte)
  (N : Z) (g g' : cuse_maru_state) (s s' : cuse_stream_info)
  (tr : list Call.t) :
  exec (maru_write hw flags data N) g s = Some (g', s', tr) ->
  g' = g /\
  active s' = active s /\ sample_rate s' = sample_rate s /\
  channels s' = channels s /\ bits s' = bits s /\
  fragsize s' = fragsize s /\ frags s' = frags s /\
  nonblock s' = nonblock s /\ error s' = error s /\ vol s' = vol s /\
  ph s' = ph s /\ lock s' = lock s /\
  process_name s' = process_name s /\
  (stream s <> LIBMARU_STREAM_MASTER -> stream s' = stream s) /\
  (write_cnt s' <> write_cnt s -> exists r, replies tr = [Call.fuse_reply_write r]).
Proof.
  intros Hex. mpaths Hex; mdone Hex; zbool;
    repeat split; try congruence; try (intros Hne; contradiction);
    intros _; eexists; reflexivity.
Qed.

(** Whatever reaches the transport comes from a write request: no other
    request submits anything, and a write submits at most once, its own
    data, and no more bytes than it was given. *)
Theorem submissions_come_from_writes (hw : libmaru) (r : request)
  (g g' : cuse_maru_state) (s s' : cuse_stream_info) (tr : list Call.t) :
  exec (handle hw r) g s = Some (g', s', tr) ->
  match r with
  | Write flags data N =>
      submitted tr = [] \/
      exists st n, submitted tr = [(st, data, n)] /\ n <= N /\ n <> 0 /\
                   stream s' = st
  | _ => submitted tr = []
  end.
Proof.
  intros Hex. destruct r as [flags data N | cmd a | new_ph | |];
    [| destruct cmd | | |]; mpaths Hex; mdone Hex; zbool;
    try reflexivity;
    first [ left; reflexivity
          | right; do 2 eexists; repeat split; try reflexivity; lia ].
Qed.

(** *** What a sequence of requests preserves *)

(** A relation between the state before, the calls made and the state
    after that holds for every allowed request holds for every sequence
    of allowed requests. *)
Lemma run_rel (ok : request -> bool)
  (Rel : cuse_maru_state * cuse_stream_info -> list Call.t ->
         cuse_maru_state * cuse_stream_info -> Prop) :
  (forall x, Rel x [] x) ->
  (forall x y z t1 t2, Rel x t1 y -> Rel y t2 z -> Rel x (t1 ++ t2) z) ->
  (forall hw r g s g' s' tr,
     ok r = true ->
     exec (handle hw r) g s = Some (g', s', tr) ->
     Rel (g, s) tr (g', s')) ->
  forall rs g s g' s' tr,
    Forall (fun x => ok (snd x) = true) rs ->
    exec (run rs) g s = Some (g', s', tr) ->
    Rel (g, s) tr (g', s').
Proof.
  intros Hnil Happ Hstep.
  induction rs as [| [hw r] rest IH]; intros g s g' s' tr Hok Hex.
  - injection Hex as <- <- <-. apply Hnil.
  - inversion Hok as [| x l Hr Hok']; subst. cbn [snd] in Hr.
    rewrite exec_run_cons in Hex.
    destruct (exec (handle hw r) g s) as [[[g1 s1] t1] |] eqn:Hone;
      [| discriminate].
    destruct (exec (run rest) g1 s1) as [[[g2 s2] t2] |] eqn:Hrest;
      [| discriminate].
    injection Hex as <- <- <-.
    apply (Happ _ (g1, s1)).
    + exact (Hstep _ _ _ _ _ _ _ Hr Hone).
    + exact (IH _ _ _ _ _ Hok' Hrest).
Qed.

Lemma handle_format (hw : libmaru) (r : request)
  (g g' : cuse_maru_state) (s s' : cuse_stream_info) (tr : list Call.t) :
  negb (is_release r) = true ->
  exec (handle hw r) g s = Some (g', s', tr) ->
  channels s' = channels s /\ bits s' = bits s /\
  active s' = active s /\ error s' = error s /\
  process_name s' = process_name s /\
  (nonblock s = true -> nonblock s' = true).
Proof.
  intros Hr Hex. destruct r as [flags data N | cmd a | new_ph | |];
    [| destruct cmd | | discriminate Hr |]; mpaths Hex; mdone Hex;
    repeat split; auto.
Qed.

Lemma run_format (rs : list (libmaru * request))
  (g g' : cuse_maru_state) (s s' : cuse_stream_info) (tr : list Call.t) :
  Forall (fun x => negb (is_release (snd x)) = true) rs ->
  exec (run rs) g s = Some (g', s', tr) ->
  channels s' = channels s /\ bits s' = bits s /\
  active s' = active s /\ error s' = error s /\
  process_name s' = process_name s /\
  (nonblock s = true -> nonblock s' = true).
Proof.
  apply (run_rel (fun r => negb (is_release r))
           (fun x _ y =>
              channels (snd y) = channels (snd x) /\
              bits (snd y) = bits (snd x) /\
              active (snd y) = active (snd x) /\
              error (snd y) = error (snd x) /\
              process_name (snd y) = process_name (snd x) /\
              (nonblock (snd x) = true -> nonblock (snd y) = true))).
  - intros x. repeat split; auto.
  - intros x y z _ _ (H1 & H2 & H3 & H4 & H5 & H6) (K1 & K2 & K3 & K4 & K5 & K6).
    repeat split; try congruence. auto.
  - intros hw r g0 s0 g1 s1 t Hr Hex. cbn [snd].
    exact (handle_format hw r g0 g1 s0 s1 t Hr Hex).
Qed.

(** The sample format of a slot is fixed once it is open: until the
    slot is released no request changes its channel count or its sample
    width (the format, channel and stereo commands only report), nor its
    active and error flags; and the non-blocking flag, once set, stays
    set. *)
Theorem format_is_fixed (rs : list (libmaru * request))
  (g g' : cuse_maru_state) (s s' : cuse_stream_info) (tr : list Call.t) :
  Forall (fun x => negb (is_release (snd x)) = true) rs ->
  exec (run rs) g s = Some (g', s', tr) ->
  channels s' = channels s /\ bits s' = bits s /\
  active s' = active s /\ error s' = error s /\
  process_name s' = process_name s /\
  (nonblock s = true -> nonblock s' = true).
Proof.
  apply run_format.
Qed.

(** On a slot that has the format open gives it (two channels of 16
    bits), and after any requests short of a release, a write of any
    size in any mode runs to its reply: the division by the frame size
    never meets a zero. *)
Theorem write_defined_while_open (rs : list (libmaru * request))
  (g g1 : cuse_maru_state) (s s1 : cuse_stream_info) (tr : list Call.t)
  (hw : libmaru) (flags : Z) (data : list Byte.byte) (N : Z) :
  channels s = 2 ->
  bits s = 16 ->
  Forall (fun x => negb (is_release (snd x)) = true) rs ->
  exec (run rs) g s = Some (g1, s1, tr) ->
  exists s2 tr2,
    exec (maru_write hw flags data N) g1 s1 = Some (g1, s2, tr2).
Proof.
  intros Hch Hbits Hrs Hex.
  destruct (run_format rs g g1 s s1 tr Hrs Hex) as (Hc & Hb & _).
  apply maru_write_defined. rewrite Hc, Hb, Hch, Hbits. discriminate.
Qed.

(** With the sticky flag set, the open-mode flags of a write have no
    part in what [maru_write] does. *)
Lemma sticky_write (hw : libmaru) (flags1 flags2 : Z) (data : list Byte.byte)
  (N : Z) (g : cuse_maru_state) (s : cuse_stream_info) :
  nonblock s = true ->
  exec (maru_write hw flags1 data N) g s
  = exec (maru_write hw flags2 data N) g s.
Proof.
  intros Hnb. mrun.
  destruct (error s); [reflexivity |].
  destruct (N =? 0); [reflexivity |].
  destruct (stream s =? LIBMARU_STREAM_MASTER); mrun.
  - destruct (maru_find_available_stream hw <? 0); mrun; [reflexivity |].
    destruct (maru_stream_open_ok hw _ _); mrun; [| reflexivity].
    cbn [nonblock set_stream]. rewrite Hnb, !orb_true_r. reflexivity.
  - rewrite Hnb, !orb_true_r. reflexivity.
Qed.

(** With the sticky flag set and less than one frame of room on the
    bound stream, a write is answered EAGAIN and submits nothing. *)
Lemma sticky_write_full (hw : libmaru) (flags : Z) (data : list Byte.byte)
  (N : Z) (g : cuse_maru_state) (s : cuse_stream_info) :
  nonblock s = true ->
  error s = false ->
  0 < N ->
  stream s <> LIBMARU_STREAM_MASTER ->
  0 < frame_bytes s ->
  channels s * bits s < 2 ^ 32 ->
  0 <= maru_stream_write_avail hw (stream s) < frame_bytes s ->
  exec (maru_write hw flags data N) g s
  = Some (g, s, [Call.fuse_reply_err EAGAIN]).
Proof.
  intros Hnb Herr HN Hbound Hframe Hcb Havail.
  unfold frame_bytes in *.
  assert (Hcb0 : 0 <= channels s * bits s).
  { destruct (Z.lt_ge_cases (channels s * bits s) 0) as [Hneg | Hpos];
      [| exact Hpos].
    assert (channels s * bits s / 8 < 0) by (apply Z.div_lt_upper_bound; lia).
    lia. }
  apply Z.eqb_neq in Hbound.
  assert (HNz : (N =? 0) = false) by (apply Z.eqb_neq; lia).
  assert (Hfz : (channels s * bits s / 8 =? 0) = false)
    by (apply Z.eqb_neq; lia).
  mrun. rewrite Herr, HNz, Hbound. mrun.
  rewrite Hnb, orb_true_r.
  rewrite to_uint_small by lia. rewrite Hfz. mrun.
  rewrite (Z.div_small _ _ Havail). cbn [Z.mul].
  change (to_size_t 0) with 0.
  destruct (Z.ltb_spec N 0); [lia |]. reflexivity.
Qed.

(** Once the non-blocking command has been given, [maru_write] treats
    every write on the slot as non-blocking whatever its open-mode flags
    say, until the slot is released: the write runs exactly as the same
    write with O_NONBLOCK in its flags does; and on a bound slot whose
    stream has less than one frame of room it is answered EAGAIN and
    submits nothing, where a blocking write would submit all of it. *)
Theorem nonblock_is_sticky (hw0 : libmaru) (a : ioctl_args)
  (rs : list (libmaru * request)) (g g' : cuse_maru_state)
  (s s' : cuse_stream_info) (tr : list Call.t)
  (hw : libmaru) (flags : Z) (data : list Byte.byte) (N : Z) :
  Forall (fun x => negb (is_release (snd x)) = true) rs ->
  exec (run ((hw0, Ioctl SNDCTL_DSP_NONBLOCK a) :: rs)) g s
  = Some (g', s', tr) ->
  exec (maru_write hw flags data N) g' s'
  = exec (maru_write hw (Z.lor flags O_NONBLOCK) data N) g' s' /\
  (error s' = false ->
   0 < N ->
   stream s' <> LIBMARU_STREAM_MASTER ->
   0 < frame_bytes s' ->
   channels s' * bits s' < 2 ^ 32 ->
   0 <= maru_stream_write_avail hw (stream s') < frame_bytes s' ->
   exec (maru_write hw flags data N) g' s'
   = Some (g', s', [Call.fuse_reply_err EAGAIN])).
Proof.
  intros Hrs Hex.
  rewrite exec_run_cons in Hex.
  change (exec (handle hw0 (Ioctl SNDCTL_DSP_NONBLOCK a)) g s)
    with (Some (g, set_nonblock true s,
                [Call.fuse_reply_ioctl 0 out_null])) in Hex.
  cbv beta iota in Hex.
  destruct (exec (run rs) g (set_nonblock true s))
    as [[[g2 s2] t2] |] eqn:Hrest; [| discriminate].
  injection Hex as <- <- <-.
  destruct (run_format rs _ _ _ _ _ Hrs Hrest)
    as (_ & _ & _ & _ & _ & Hnb).
  specialize (Hnb eq_refl). split.
  - apply sticky_write. exact Hnb.
  - intros Herr HN Hbound Hframe Hcb Havail.
    apply sticky_write_full; assumption.
Qed.

Lemma handle_global_state (hw : libmaru) (r : request)
  (g g' : cuse_maru_state) (s s' : cuse_stream_info) (tr : list Call.t) :
  negb (is_volume r) = true ->
  exec (handle hw r) g s = Some (g', s', tr) ->
  g' = g /\ g_lock_after (g_lock g) tr = g_lock g.
Proof.
  intros Hr Hex. destruct r as [flags data N | cmd a | new_ph | |];
    [| destruct cmd; try discriminate Hr | | |]; mpaths Hex; mdone Hex;
    split; reflexivity.
Qed.

(** Only the two volume commands take the global lock: a sequence of
    other requests (release included) leaves the global state as it was
    and makes no call on [g_state.lock]. *)
Theorem global_state_untouched (rs : list (libmaru * request))
  (g g' : cuse_maru_state) (s s' : cuse_stream_info) (tr : list Call.t) :
  Forall (fun x => negb (is_volume (snd x)) = true) rs ->
  exec (run rs) g s = Some (g', s', tr) ->
  g' = g /\
  ~ In (Call.pthread_mutex_lock g_state_lock) tr /\
  ~ In (Call.pthread_mutex_unlock g_state_lock) tr.
Proof.
  apply (run_rel (fun r => negb (is_volume r))
           (fun x t y =>
              fst y = fst x /\
              ~ In (Call.pthread_mutex_lock g_state_lock) t /\
              ~ In (Call.pthread_mutex_unlock g_state_lock) t)).
  - intros x. repeat split; intros [].
  - intros x y z t1 t2 (H1 & H2 & H3) (K1 & K2 & K3).
    split; [congruence |].
    split; intros Hin; apply in_app_or in Hin; tauto.
  - intros hw r g0 s0 g1 s1 t Hr Hex. cbn [fst].
    destruct r as [flags data N | cmd a | new_ph | |];
      [| destruct cmd; try discriminate Hr | | |]; mpaths Hex; mdone Hex;
      (split; [reflexivity |]); split; cbn [In]; intros Hin;
      repeat (destruct Hin as [Hin | Hin]; try discriminate Hin);
      try contradiction.
Qed.

Lemma handle_closed (hw : libmaru) (r : request)
  (g g' : cuse_maru_state) (s s' : cuse_stream_info) (tr : list Call.t) :
  negb (resets r) = true ->
  exec (handle hw r) g s = Some (g', s', tr) ->
  closed tr = [] /\
  (stream s <> LIBMARU_STREAM_MASTER -> stream s' = stream s).
Proof.
  intros Hr Hex. destruct r as [flags data N | cmd a | new_ph | |];
    [| destruct cmd; try discriminate Hr | | discriminate Hr |];
    mpaths Hex; mdone Hex; zbool; split; try reflexivity;
    intros Hb; congruence.
Qed.

Lemma closed_app (tr1 tr2 : list Call.t) :
  closed (tr1 ++ tr2) = closed tr1 ++ closed tr2.
Proof.
  induction tr1 as [| c tr1 IH]; [reflexivity |].
  destruct c; cbn [app closed]; rewrite ?IH; reflexivity.
Qed.

(** A hardware stream is closed by reset, halt and release only: over
    any sequence of other requests no stream is closed and a bound slot
    stays bound to the same stream. *)
Theorem stream_stays_bound (rs : list (libmaru * request))
  (g g' : cuse_maru_state) (s s' : cuse_stream_info) (tr : list Call.t) :
  Forall (fun x => negb (resets (snd x)) = true) rs ->
  exec (run rs) g s = Some (g', s', tr) ->
  closed tr = [] /\
  (stream s <> LIBMARU_STREAM_MASTER -> stream s' = stream s).
Proof.
  apply (run_rel (fun r => negb (resets r))
           (fun x t y =>
              closed t = [] /\
              (stream (snd x) <> LIBMARU_STREAM_MASTER ->
               stream (snd y) = stream (snd x)))).
  - intros x. split; [reflexivity | intros _; reflexivity].
  - intros x y z t1 t2 (H1 & H2) (K1 & K2).
    split; [rewrite closed_app, H1, K1; reflexivity |].
    intros Hb. rewrite <- (H2 Hb). apply K2. rewrite (H2 Hb). exact Hb.
  - intros hw r g0 s0 g1 s1 t Hr Hex. cbn [snd].
    exact (handle_closed hw r g0 g1 s0 s1 t Hr Hex).
Qed.

(** *** Poll handles *)

Lemma destroyed_app (tr1 tr2 : list Call.t) :
  destroyed (tr1 ++ tr2) = destroyed tr1 ++ destroyed tr2.
Proof.
  induction tr1 as [| c tr1 IH]; [reflexivity |].
  destruct c; cbn [app destroyed]; rewrite ?IH; reflexivity.
Qed.

Lemma notified_app (tr1 tr2 : list Call.t) :
  notified (tr1 ++ tr2) = notified tr1 ++ notified tr2.
Proof.
  induction tr1 as [| c tr1 IH]; [reflexivity |].
  destruct c; cbn [app notified]; rewrite ?IH; reflexivity.
Qed.

Lemma handle_poll_handles (hw : libmaru) (r : request)
  (g g' : cuse_maru_state) (s s' : cuse_stream_info) (tr : list Call.t) :
  exec (handle hw r) g s = Some (g', s', tr) ->
  destroyed tr ++ handle_list (ph s')
  = handle_list (ph s) ++ polled [(hw, r)] /\
  (notified tr = [] \/
   notified tr = destroyed tr /\ r = WriteNotification).
Proof.
  intros Hex. destruct r as [flags data N | cmd a | new_ph | |];
    [| destruct cmd | | |]; mpaths Hex; mdone Hex;
    cbn [polled handle_list app];
    repeat match goal with
           | Hp : ph _ = _ |- _ => rewrite Hp
           end;
    cbn [handle_list app]; rewrite ?app_nil_r;
    (split; [reflexivity | auto]).
Qed.

(** No poll handle is lost or destroyed twice.  Over any sequence of
    requests, the handles destroyed so far followed by the handle still
    stored in the slot are, in this order, the handle the slot started
    with followed by the handles that the poll requests brought.  A
    handle is woken only by a write notification, and every woken handle
    is among the destroyed ones. *)
Theorem poll_handles_accounted (rs : list (libmaru * request)) :
  forall g s g' s' tr,
    exec (run rs) g s = Some (g', s', tr) ->
    destroyed tr ++ handle_list (ph s') = handle_list (ph s) ++ polled rs /\
    incl (notified tr) (destroyed tr).
Proof.
  induction rs as [| [hw r] rest IH]; intros g s g' s' tr Hex.
  - injection Hex as <- <- <-. cbn [destroyed polled notified app].
    rewrite app_nil_r. split; [reflexivity | apply incl_refl].
  - rewrite exec_run_cons in Hex.
    destruct (exec (handle hw r) g s) as [[[g1 s1] t1] |] eqn:Hone;
      [| discriminate].
    destruct (exec (run rest) g1 s1) as [[[g2 s2] t2] |] eqn:Hrest;
      [| discriminate].
    injection Hex as <- <- <-.
    destruct (handle_poll_handles _ _ _ _ _ _ _ Hone) as [Hfirst Hwake].
    destruct (IH _ _ _ _ _ Hrest) as [Hthen Hincl].
    split.
    + rewrite destroyed_app, <- app_assoc, Hthen, app_assoc, Hfirst.
      rewrite <- app_assoc. f_equal.
      destruct r; cbn [polled]; rewrite ?app_nil_r; reflexivity.
    + rewrite notified_app, destroyed_app.
      apply incl_app.
      * apply incl_appl. destruct Hwake as [-> | [-> _]];
          [intros x [] | apply incl_refl].
      * apply incl_appr. exact Hincl.
Qed.

(** A poll handle is good for one wake-up: after a poll with handle [p],
    the first write notification wakes [p] and destroys it, and a second
    notification wakes nothing. *)
Theorem poll_handle_single_use (hw1 hw2 hw3 : libmaru) (p : Z)
  (g : cuse_maru_state) (s : cuse_stream_info) :
  exists s' tr,
    exec (run [(hw1, Poll (Some p)); (hw2, WriteNotification);
               (hw3, WriteNotification)]) g s
    = Some (g, s', tr) /\
    notified tr = [p] /\
    destroyed tr = handle_list (ph s) ++ [p] /\
    ph s' = None /\ lock s' = false.
Proof.
  mrun. cbn [ph error stream fragsize set_ph set_lock].
  destruct (ph s); mrun; cbn [ph error stream fragsize set_ph set_lock];
    destruct (error s); mrun; cbn [ph error stream fragsize set_ph set_lock];
    try destruct ((stream s =? LIBMARU_STREAM_MASTER)
                  || (fragsize s <=? maru_stream_write_avail hw1 (stream s)));
    mrun; cbn [ph error stream fragsize set_ph set_lock];
    do 2 eexists; (split; [reflexivity |]); repeat split.
Qed.

(** *** The two phases of a control request *)

(** A call that is answered with a retry has done nothing else: the
    slot and the global state are as before, no lock was taken and
    nothing was asked of the transport but, at most, its
    write-availability.  The retry asks for the buffers that were not
    there, at the user address. *)
Theorem ioctl_retry_is_pure (hw : libmaru) (cmd : ioctl_cmd) (a : ioctl_args)
  (g g' : cuse_maru_state) (s s' : cuse_stream_info) (tr : list Call.t)
  (in_iov out_iov : iovec) :
  exec (maru_ioctl hw cmd a) g s = Some (g', s', tr) ->
  In (Call.fuse_reply_ioctl_retry in_iov out_iov) tr ->
  g' = g /\ s' = s /\
  tr = [Call.fuse_reply_ioctl_retry in_iov out_iov] /\
  (in_iov = (0, 0) \/ in_iov = (uarg a, sizeof_int) /\ in_bufsize a = 0) /\
  (out_iov = (0, 0) \/ fst out_iov = uarg a /\ out_bufsize a = 0) /\
  (snd in_iov <> 0 \/ snd out_iov <> 0).
Proof.
  intros Hex Hin. destruct cmd; mpaths Hex; mdone Hex; zbool;
    cbn [In] in Hin;
    repeat (destruct Hin as [Hin | Hin]; try discriminate Hin);
    try contradiction;
    injection Hin as <- <-; (split; [reflexivity |]);
    (split; [reflexivity |]); (split; [reflexivity |]);
    (split; [| split]);
    first [ left; reflexivity
          | right; split; [reflexivity | assumption]
          | left; discriminate
          | right; discriminate ].
Qed.

(** *** Volume *)

Lemma linear_volume_form (lo hi p : Z) :
  hi * p + lo * (100 - p) = 100 * lo + p * (hi - lo).
Proof. ring. Qed.

(** The volume for a level of 1..100 lies in the range, and mapping it
    back gives the level or one less. *)
Lemma percent_round_trip (lo hi p : Z) :
  100 <= hi - lo ->
  0 < p <= 100 ->
  lo <= Z.quot (hi * p + lo * (100 - p)) 100 <= hi /\
  p - 1 <= Z.quot (100 * (Z.quot (hi * p + lo * (100 - p)) 100 - lo))
             (hi - lo) <= p.
Proof.
  intros Hd Hp. rewrite linear_volume_form.
  set (d := hi - lo) in *.
  assert (Hpd : 0 < p * d <= 100 * d) by nia.
  set (pd := p * d) in *.
  set (x := 100 * lo + pd).
  pose proof (Z.quot_rem' x 100) as Hqr.
  assert (Hrem : -100 < Z.rem x 100 < 100 /\
                 (0 <= x -> 0 <= Z.rem x 100) /\
                 (x <= 0 -> Z.rem x 100 <= 0)).
  { destruct (Z.lt_ge_cases x 0) as [Hneg | Hpos].
    - pose proof (Z.rem_bound_pos_neg x 100 ltac:(lia) ltac:(lia)). lia.
    - pose proof (Z.rem_bound_pos x 100 Hpos ltac:(lia)). lia. }
  set (q := Z.quot x 100) in *. set (r := Z.rem x 100) in *.
  assert (Hw : 100 * (q - lo) = pd - r) by (subst x; lia).
  set (w := q - lo) in *.
  assert (Hwd : 0 <= w <= d) by lia.
  split; [lia |].
  rewrite Z.quot_div_nonneg by lia.
  split.
  - apply Z.div_le_lower_bound; [lia |].
    assert ((p - 1) * d <= pd - 100) by (subst pd; nia). lia.
  - assert (Hlt : 100 * w / d < p + 1).
    { apply Z.div_lt_upper_bound; [lia |].
      assert (d * (p + 1) = pd + d) by (subst pd; lia). lia. }
    lia.
Qed.
Lemma level_word (v : Z) :
  0 <= v < 256 -> Z.lor v (Z.shiftl v 8) = 257 * v.
Proof.
  intros Hv.
  assert (Hland : Z.land v (Z.shiftl v 8) = 0).
  { apply Z.bits_inj'. intros n Hn. rewrite Z.land_spec, Z.bits_0.
    destruct (Z.lt_ge_cases n 8) as [Hlow | Hhigh].
    - rewrite (Z.shiftl_spec_low v 8 n Hlow). apply andb_false_r.
    - rewrite <- (Z.mod_small v (2 ^ 8)) at 1 by lia.
      rewrite Z.mod_pow2_bits_high by lia. reflexivity. }
  rewrite <- Z.lxor_lor, <- Z.add_nocarry_lxor by exact Hland.
  rewrite Z.shiftl_mul_pow2 by lia. lia.
Qed.

(** What [read_volume] stores is a level of 0..100. *)
Lemma percent_range (lo hi cur : Z) :
  0 <= (if hi <=? lo then 100
        else if cur <? lo then 0
        else if hi <? cur then 100
        else Z.quot (100 * (cur - lo)) (hi - lo)) <= 100.
Proof.
  destruct (Z.leb_spec hi lo); [lia |].
  destruct (Z.ltb_spec cur lo); [lia |].
  destruct (Z.ltb_spec hi cur); [lia |].
  rewrite Z.quot_div_nonneg by lia. split.
  - apply Z.div_pos; lia.
  - apply Z.div_le_upper_bound; lia.
Qed.

(** Get-play-volume, when [g_state.lock] is free and the transport
    answers, replies a level of 0..100 in both bytes, stores it in the
    slot and leaves the global lock released.  A degenerate range reads
    as 100; a reading at or below the minimum reads as 0, one at or
    above the maximum as 100. *)
Theorem getplayvol_level (hw : libmaru) (a : ioctl_args)
  (g : cuse_maru_state) (s : cuse_stream_info) (cur : Z) :
  out_bufsize a = sizeof_int ->
  g_lock g = false ->
  maru_stream_get_volume_cur hw (stream s) = Some cur ->
  exists v,
    exec (maru_ioctl hw SNDCTL_DSP_GETPLAYVOL a) g s
    = Some (set_g_lock false g, set_vol v s,
            [Call.pthread_mutex_lock g_state_lock;
             Call.pthread_mutex_unlock g_state_lock;
             Call.fuse_reply_ioctl 0 (out_int (257 * v))]) /\
    0 <= v <= 100 /\
    (g_max_volume g <= g_min_volume g -> v = 100) /\
    (g_min_volume g < g_max_volume g -> cur <= g_min_volume g -> v = 0) /\
    (g_min_volume g < g_max_volume g -> g_max_volume g <= cur -> v = 100).
Proof.
  intros Hout Hlock Hcur.
  pose proof (percent_range (g_min_volume g) (g_max_volume g) cur) as Hv.
  set (v := if g_max_volume g <=? g_min_volume g then 100
            else if cur <? g_min_volume g then 0
            else if g_max_volume g <? cur then 100
            else Z.quot (100 * (cur - g_min_volume g))
                   (g_max_volume g - g_min_volume g)) in *.
  exists v. split; [| split; [exact Hv | split; [| split]]].
  - unfold exec, maru_ioctl, ioctl_getplayvol.
    rewrite prep_out_ready by (try discriminate; assumption).
    mrun. rewrite Hlock. cbn [set_g_lock g_min_volume g_max_volume].
    rewrite Hcur. mrun. cbn [vol set_vol]. fold v.
    rewrite (to_int_small v) by (unfold INT_MAX; lia).
    assert (Hshl : int_shl v 8 = Some (Z.shiftl v 8)).
    { unfold int_shl.
      destruct (Z.ltb_spec v 0) as [Hneg | _]; [lia |]. cbn [orb Z.ltb Z.leb Z.compare].
      rewrite Z.shiftl_mul_pow2 by lia.
      destruct (Z.leb_spec (v * 2 ^ 8) INT_MAX) as [_ | Hbig];
        [reflexivity | unfold INT_MAX in Hbig; lia]. }
    rewrite Hshl, level_word by lia. reflexivity.
  - intros Hdeg. subst v.
    destruct (Z.leb_spec (g_max_volume g) (g_min_volume g)); [reflexivity | lia].
  - intros Hrange Hlow. subst v.
    destruct (Z.leb_spec (g_max_volume g) (g_min_volume g)); [lia |].
    destruct (Z.ltb_spec cur (g_min_volume g)); [reflexivity |].
    destruct (Z.ltb_spec (g_max_volume g) cur); [lia |].
    replace cur with (g_min_volume g) by lia.
    rewrite Z.sub_diag. reflexivity.
  - intros Hrange Hhigh. subst v.
    destruct (Z.leb_spec (g_max_volume g) (g_min_volume g)); [lia |].
    destruct (Z.ltb_spec cur (g_min_volume g)); [lia |].
    destruct (Z.ltb_spec (g_max_volume g) cur); [reflexivity |].
    replace cur with (g_max_volume g) by lia.
    rewrite Z.quot_div_nonneg by lia.
    rewrite Z.div_mul by lia. reflexivity.
Qed.

(** The level is mapped in order: of two levels above zero the higher
    never gets the lower volume, every volume handed to the transport
    lies in the hardware range, and the levels from 100 up all get the
    maximum. *)
Theorem setplayvol_monotone (hw1 hw2 : libmaru) (a1 a2 : ioctl_args)
  (g g1 g2 : cuse_maru_state) (s1 s1' s2 s2' : cuse_stream_info)
  (tr1 tr2 : list Call.t) (st1 st2 v1 v2 : Z) :
  in_bufsize a1 = sizeof_int -> out_bufsize a1 = sizeof_int ->
  in_bufsize a2 = sizeof_int -> out_bufsize a2 = sizeof_int ->
  g_min_volume g <= g_max_volume g ->
  0 < level_of a1 <= level_of a2 ->
  exec (maru_ioctl hw1 SNDCTL_DSP_SETPLAYVOL a1) g s1 = Some (g1, s1', tr1) ->
  exec (maru_ioctl hw2 SNDCTL_DSP_SETPLAYVOL a2) g s2 = Some (g2, s2', tr2) ->
  In (Call.maru_stream_set_volume st1 v1) tr1 ->
  In (Call.maru_stream_set_volume st2 v2) tr2 ->
  g_min_volume g <= v1 /\ v1 <= v2 /\ v2 <= g_max_volume g /\
  (100 <= level_of a2 -> v2 = g_max_volume g).
Proof.
  intros Hin1 Hout1 Hin2 Hout2 Hrange Hlev Hex1 Hex2 Hv1 Hv2.
  assert (Hone : forall hw a g' s s' tr st v,
            in_bufsize a = sizeof_int -> out_bufsize a = sizeof_int ->
            0 < level_of a ->
            exec (maru_ioctl hw SNDCTL_DSP_SETPLAYVOL a) g s
            = Some (g', s', tr) ->
            In (Call.maru_stream_set_volume st v) tr ->
            v = clamp (g_min_volume g) (g_max_volume g)
                  (Z.quot (g_max_volume g * level_of a
                           + g_min_volume g * (100 - level_of a)) 100)).
  { intros hw a g' s s' tr st v Hi Ho Hp Hex Hv.
    unfold exec, maru_ioctl, ioctl_setplayvol in Hex.
    rewrite prep_inout_ready in Hex by assumption.
    fold (level_of a) in Hex. apply Z.ltb_lt in Hp.
    mrun_in Hex.
    destruct (g_lock g) eqn:Hlk; mrun_in Hex; [discriminate Hex |].
    rewrite !Hp, !andb_true_r in Hex.
    rewrite !set_volume_clamps in Hex by exact Hrange.
    mpaths Hex; try discriminate Hex; injection Hex as _ _ <-;
      cbn [In] in Hv;
      repeat (destruct Hv as [Hv | Hv]; try discriminate Hv);
      try contradiction; injection Hv as _ <-; reflexivity. }
  rewrite (Hone _ _ _ _ _ _ _ _ Hin1 Hout1 ltac:(lia) Hex1 Hv1).
  rewrite (Hone _ _ _ _ _ _ _ _ Hin2 Hout2 ltac:(lia) Hex2 Hv2).
  clear Hone Hex1 Hex2 Hv1 Hv2.
  set (lo := g_min_volume g) in *. set (hi := g_max_volume g) in *.
  set (p1 := level_of a1) in *. set (p2 := level_of a2) in *.
  assert (Hmono : Z.quot (hi * p1 + lo * (100 - p1)) 100
                  <= Z.quot (hi * p2 + lo * (100 - p2)) 100).
  { apply Z.quot_le_mono; [lia |]. rewrite !linear_volume_form. nia. }
  unfold clamp. repeat split; try lia.
  intros Hfull.
  assert (hi <= Z.quot (hi * p2 + lo * (100 - p2)) 100).
  { rewrite <- (Z.quot_mul hi 100) at 1 by lia.
    apply Z.quot_le_mono; [lia |]. rewrite linear_volume_form. nia. }
  lia.
Qed.

(** Setting a level of 1..100 and reading it back, on a range of at
    least 100 steps and with a transport that reports what it was given,
    yields the level or one less.  Level 0 goes through the mute value
    and reads back as 0 when the mute value lies below the range. *)
Theorem volume_round_trip (hw1 hw2 : libmaru) (a1 a2 : ioctl_args)
  (g : cuse_maru_state) (s : cuse_stream_info) (native : Z) :
  in_bufsize a1 = sizeof_int -> out_bufsize a1 = sizeof_int ->
  out_bufsize a2 = sizeof_int ->
  g_lock g = false ->
  100 <= g_max_volume g - g_min_volume g ->
  level_of a1 <= 100 ->
  native = (if 0 <? level_of a1
            then Z.quot (g_max_volume g * level_of a1
                         + g_min_volume g * (100 - level_of a1)) 100
            else LIBMARU_VOLUME_MUTE) ->
  (level_of a1 = 0 -> LIBMARU_VOLUME_MUTE < g_min_volume g) ->
  maru_stream_set_volume_ok hw1 (stream s) native = true ->
  maru_stream_get_volume_cur hw2 (stream s) = Some native ->
  exists v,
    exec (run [(hw1, Ioctl SNDCTL_DSP_SETPLAYVOL a1);
               (hw2, Ioctl SNDCTL_DSP_GETPLAYVOL a2)]) g s
    = Some (g, set_vol v s,
            [Call.pthread_mutex_lock g_state_lock;
             Call.maru_stream_set_volume (stream s) native;
             Call.pthread_mutex_unlock g_state_lock;
             Call.fuse_reply_ioctl 0 (out_int (257 * level_of a1));
             Call.pthread_mutex_lock g_state_lock;
             Call.pthread_mutex_unlock g_state_lock;
             Call.fuse_reply_ioctl 0 (out_int (257 * v))]) /\
    level_of a1 - 1 <= v <= level_of a1 /\
    (level_of a1 = 0 -> v = 0).
Proof.
  intros Hin1 Hout1 Hout2 Hlock Hd Hp100 Hnative Hmute Hset Hget.
  assert (Hp0 : 0 <= level_of a1 < 256).
  { unfold level_of. change 255 with (Z.ones 8).
    rewrite Z.land_ones by lia. apply Z.mod_pos_bound. lia. }
  destruct g as [lk gfr gfs gsr lo hi].
  cbn [g_lock g_min_volume g_max_volume] in *. subst lk.
  set (p := level_of a1) in *.
  assert (Happlied :
    (let vol := if 0 <? p then Z.quot (hi * p + lo * (100 - p)) 100
                else LIBMARU_VOLUME_MUTE in
     if (vol <? lo) && (0 <? p) then lo
     else if hi <? vol then hi else vol) = native
    /\ exists v,
         (if hi <=? lo then 100
          else if native <? lo then 0
          else if hi <? native then 100
          else Z.quot (100 * (native - lo)) (hi - lo)) = v /\
         p - 1 <= v <= p /\ (p = 0 -> v = 0)).
  { cbv zeta. destruct (Z.ltb_spec 0 p) as [Hpos | Hzero].
    - destruct (percent_round_trip lo hi p Hd ltac:(lia)) as [Hin Hback].
      rewrite <- Hnative in *. rewrite andb_true_r.
      destruct (Z.ltb_spec native lo); [lia |].
      destruct (Z.ltb_spec hi native); [lia |].
      split; [reflexivity |]. eexists. split; [| split; [exact Hback | lia]].
      destruct (Z.leb_spec hi lo); [lia | reflexivity].
    - assert (Hz : p = 0) by lia. specialize (Hmute Hz).
      rewrite <- Hnative in *. rewrite andb_false_r.
      destruct (Z.ltb_spec hi native); [lia |].
      split; [reflexivity |]. exists 0. split; [| lia].
      destruct (Z.leb_spec hi lo); [lia |].
      destruct (Z.ltb_spec native lo); [reflexivity | lia]. }
  destruct Happlied as [Happlied (v & Hread & Hv & Hv0)].
  cbv zeta in Happlied.
  exists v. split; [| split; assumption].
  assert (Hshl : int_shl v 8 = Some (Z.shiftl v 8)).
  { unfold int_shl.
    destruct (Z.ltb_spec v 0) as [Hneg | _]; [lia |].
    cbn [orb Z.ltb Z.leb Z.compare].
    rewrite Z.shiftl_mul_pow2 by lia.
    destruct (Z.leb_spec (v * 2 ^ 8) INT_MAX) as [_ | Hbig];
      [reflexivity | unfold INT_MAX in Hbig; lia]. }
  set (g := {| g_lock := false; g_frags := gfr; g_fragsize := gfs;
               g_sample_rate := gsr; g_min_volume := lo;
               g_max_volume := hi |}).
  assert (Hfirst :
    exec (handle hw1 (Ioctl SNDCTL_DSP_SETPLAYVOL a1)) g s
    = Some (g, set_vol native s,
            [Call.pthread_mutex_lock g_state_lock;
             Call.maru_stream_set_volume (stream s) native;
             Call.pthread_mutex_unlock g_state_lock;
             Call.fuse_reply_ioctl 0 (out_int (257 * p))])).
  { unfold handle, exec, maru_ioctl, ioctl_setplayvol.
    rewrite prep_inout_ready by assumption. fold (level_of a1). fold p.
    mrun. cbn [g g_lock g_min_volume g_max_volume set_g_lock].
    rewrite Happlied, Hset. mrun.
    rewrite Z.lor_comm, level_word by lia. reflexivity. }
  assert (Hsecond :
    exec (handle hw2 (Ioctl SNDCTL_DSP_GETPLAYVOL a2)) g (set_vol native s)
    = Some (g, set_vol v s,
            [Call.pthread_mutex_lock g_state_lock;
             Call.pthread_mutex_unlock g_state_lock;
             Call.fuse_reply_ioctl 0 (out_int (257 * v))])).
  { unfold handle, exec, maru_ioctl, ioctl_getplayvol.
    rewrite prep_out_ready by (try discriminate; assumption).
    mrun. cbn [g g_lock set_g_lock g_min_volume g_max_volume stream set_vol
               vol].
    rewrite Hget. mrun. cbn [vol set_vol]. rewrite Hread.
    rewrite (to_int_small v) by (unfold INT_MAX; lia).
    rewrite Hshl, level_word by lia. reflexivity. }
  rewrite exec_run_cons, Hfirst, exec_run_cons, Hsecond. reflexivity.
Qed.

(** *** Sample rate *)

(** With hardware of one fixed rate, set-sample-rate stores and replies
    that rate whatever rate was asked for.  The slot stays as unbound or
    as bound as it was: the stream that is looked at while the slot is
    unbound is not reserved. *)
Theorem speed_fixed_rate (hw : libmaru) (a : ioctl_args)
  (g : cuse_maru_state) (s : cuse_stream_info) (rc : Z)
  (desc : maru_stream_desc) (more : list maru_stream_desc) :
  in_bufsize a = sizeof_int ->
  out_bufsize a = sizeof_int ->
  (stream s = LIBMARU_STREAM_MASTER -> 0 <= maru_find_available_stream hw) ->
  maru_get_stream_desc hw (speed_stream hw s) = (rc, desc :: more) ->
  0 <= rc ->
  0 < desc_sample_rate desc <= INT_MAX ->
  exec (maru_ioctl hw SNDCTL_DSP_SPEED a) g s
  = Some (g, set_sample_rate (desc_sample_rate desc) s,
          [Call.fuse_reply_ioctl 0 (out_int (desc_sample_rate desc))]).
Proof.
  intros Hin Hout Hfree Hdesc Hrc Hrate. unfold speed_stream in Hdesc.
  assert (Hint : to_int (desc_sample_rate desc) = desc_sample_rate desc).
  { apply to_int_small. unfold INT_MAX in *. lia. }
  assert (Huint : to_uint (desc_sample_rate desc) = desc_sample_rate desc).
  { apply to_uint_small. unfold INT_MAX in *. lia. }
  assert (Hnz : (desc_sample_rate desc =? 0) = false)
    by (apply Z.eqb_neq; lia).
  apply Z.ltb_ge in Hrc.
  unfold exec, maru_ioctl, ioctl_speed.
  rewrite prep_inout_ready by assumption. mrun.
  destruct (stream s =? LIBMARU_STREAM_MASTER) eqn:Hs.
  - apply Z.eqb_eq in Hs. specialize (Hfree Hs). apply Z.ltb_ge in Hfree.
    rewrite Hfree. mrun. rewrite Hdesc, Hrc, Hnz, Hint. mrun.
    destruct (to_int (in_buf a) =? desc_sample_rate desc) eqn:Hsame;
      mrun; [apply Z.eqb_eq in Hsame; rewrite Hsame |];
      rewrite Huint; reflexivity.
  - mrun. rewrite Hdesc, Hrc, Hnz, Hint. mrun.
    destruct (to_int (in_buf a) =? desc_sample_rate desc) eqn:Hsame;
      mrun; [apply Z.eqb_eq in Hsame; rewrite Hsame |];
      rewrite Huint; reflexivity.
Qed.

(** With hardware of a range of rates, set-sample-rate brings the rate
    asked for into the range, stores the result and replies it; a rate
    within the range is taken as it is. *)
Theorem speed_rate_range (hw : libmaru) (a : ioctl_args)
  (g : cuse_maru_state) (s : cuse_stream_info) (rc : Z)
  (desc : maru_stream_desc) (more : list maru_stream_desc) :
  in_bufsize a = sizeof_int ->
  out_bufsize a = sizeof_int ->
  (stream s = LIBMARU_STREAM_MASTER -> 0 <= maru_find_available_stream hw) ->
  maru_get_stream_desc hw (speed_stream hw s) = (rc, desc :: more) ->
  0 <= rc ->
  desc_sample_rate desc = 0 ->
  0 <= desc_sample_rate_min desc <= desc_sample_rate_max desc ->
  desc_sample_rate_max desc <= INT_MAX ->
  exec (maru_ioctl hw SNDCTL_DSP_SPEED a) g s
  = Some (g,
          set_sample_rate
            (clamp (desc_sample_rate_min desc) (desc_sample_rate_max desc)
               (to_int (in_buf a))) s,
          [Call.fuse_reply_ioctl 0
             (out_int
                (clamp (desc_sample_rate_min desc) (desc_sample_rate_max desc)
                   (to_int (in_buf a))))]).
Proof.
  intros Hin Hout Hfree Hdesc Hrc Hzero Hrange Hmax.
  unfold speed_stream in Hdesc.
  set (lo := desc_sample_rate_min desc) in *.
  set (hi := desc_sample_rate_max desc) in *.
  set (i := to_int (in_buf a)).
  assert (Hlo : to_int lo = lo) by (apply to_int_small; unfold INT_MAX in *; lia).
  assert (Hhi : to_int hi = hi) by (apply to_int_small; unfold INT_MAX in *; lia).
  assert (Hres :
    (if hi <? i then hi else if i <? lo then lo else i) = clamp lo hi i).
  { unfold clamp. destruct (Z.ltb_spec hi i); [lia |].
    destruct (Z.ltb_spec i lo); lia. }
  assert (Huint : to_uint (clamp lo hi i) = clamp lo hi i).
  { apply to_uint_small. unfold clamp, INT_MAX in *. lia. }
  apply Z.ltb_ge in Hrc.
  unfold exec, maru_ioctl, ioctl_speed.
  rewrite prep_inout_ready by assumption. fold i. mrun.
  destruct (stream s =? LIBMARU_STREAM_MASTER) eqn:Hs.
  - apply Z.eqb_eq in Hs. specialize (Hfree Hs). apply Z.ltb_ge in Hfree.
    rewrite Hfree. mrun. rewrite Hdesc, Hrc, Hzero. mrun.
    fold lo hi. rewrite Hlo, Hhi. change (0 =? 0) with true.
    cbn [negb andb]. rewrite Hres, Huint. reflexivity.
  - mrun. rewrite Hdesc, Hrc, Hzero. mrun.
    fold lo hi. rewrite Hlo, Hhi. change (0 =? 0) with true.
    cbn [negb andb]. rewrite Hres, Huint. reflexivity.
Qed.

(** Set-sample-rate fails with EBUSY on an unbound slot when no stream
    is available, and with ENOMEM when the stream has no descriptor to
    show; the slot keeps its rate in both cases. *)
Theorem speed_refused (hw : libmaru) (a : ioctl_args)
  (g : cuse_maru_state) (s : cuse_stream_info) :
  in_bufsize a = sizeof_int ->
  out_bufsize a = sizeof_int ->
  (stream s = LIBMARU_STREAM_MASTER ->
   maru_find_available_stream hw < 0 ->
   exec (maru_ioctl hw SNDCTL_DSP_SPEED a) g s
   = Some (g, s, [Call.fuse_reply_err EBUSY])) /\
  ((stream s = LIBMARU_STREAM_MASTER -> 0 <= maru_find_available_stream hw) ->
   fst (maru_get_stream_desc hw (speed_stream hw s)) < 0 \/
   snd (maru_get_stream_desc hw (speed_stream hw s)) = [] ->
   exec (maru_ioctl hw SNDCTL_DSP_SPEED a) g s
   = Some (g, s, [Call.fuse_reply_err ENOMEM])).
Proof.
  intros Hin Hout. split.
  - intros Hs Hnone. apply Z.eqb_eq in Hs. apply Z.ltb_lt in Hnone.
    unfold exec, maru_ioctl, ioctl_speed.
    rewrite prep_inout_ready by assumption. mrun.
    rewrite Hs, Hnone. reflexivity.
  - intros Hfree Hbad. unfold speed_stream in Hbad.
    unfold exec, maru_ioctl, ioctl_speed.
    rewrite prep_inout_ready by assumption. mrun.
    destruct (stream s =? LIBMARU_STREAM_MASTER) eqn:Hs.
    + apply Z.eqb_eq in Hs. specialize (Hfree Hs). apply Z.ltb_ge in Hfree.
      rewrite Hfree. mrun.
      destruct (maru_get_stream_desc hw (maru_find_available_stream hw))
        as [rc [| desc more]]; cbn [fst snd] in Hbad; [reflexivity |].
      destruct Hbad as [Hrc | Hnil]; [| discriminate Hnil].
      apply Z.ltb_lt in Hrc. rewrite Hrc. reflexivity.
    + mrun.
      destruct (maru_get_stream_desc hw (stream s))
        as [rc [| desc more]]; cbn [fst snd] in Hbad; [reflexivity |].
      destruct Hbad as [Hrc | Hnil]; [| discriminate Hnil].
      apply Z.ltb_lt in Hrc. rewrite Hrc. reflexivity.
Qed.

(** *** Output pointer *)

Lemma to_int_wraps (z : Z) : INT_MAX < z < 2 ^ 32 -> to_int z = z - 2 ^ 32.
Proof.
  intros Hz. unfold to_int, INT_MAX in *.
  replace (z + 2 ^ 31) with (z - 2 ^ 31 + 1 * 2 ^ 32) by lia.
  rewrite Z.mod_add by lia. rewrite Z.mod_small by lia. lia.
Qed.

(** Get-output-pointer on a bound slot, for a geometry whose buffer
    size [fragsize * frags] stays below 2^32 and a position that is not
    negative.  The position is the write count plus the room in the
    hardware buffer less the buffer size minus one.  The reply carries
    the position, the whole blocks in it and the position within the
    buffer, each converted to the [int] member that holds it: they are
    these numbers exactly while the position is at most INT_MAX, and the
    byte count wraps once more than that has been written.  The
    position within the buffer is below the buffer size.  With the
    buffer all free the position is the write count: everything written
    has been played. *)
Theorem getoptr_bound (hw : libmaru) (a : ioctl_args)
  (g : cuse_maru_state) (s : cuse_stream_info) :
  out_bufsize a = sizeof_count_info ->
  stream s <> LIBMARU_STREAM_MASTER ->
  0 < fragsize s -> 0 < frags s ->
  fragsize s * frags s < 2 ^ 32 ->
  0 <= write_cnt s ->
  0 <= maru_stream_write_avail hw (stream s) ->
  let pos := write_cnt s + maru_stream_write_avail hw (stream s)
             - (fragsize s * frags s - 1) in
  0 <= pos <= SIZE_MAX ->
  exec (maru_ioctl hw SNDCTL_DSP_GETOPTR a) g s
  = Some (g, s,
          [Call.fuse_reply_ioctl 0
             (out_count_info
                {| ci_bytes := to_int pos;
                   ci_blocks := to_int (pos / fragsize s);
                   ci_ptr := to_int (pos mod (fragsize s * frags s)) |})]) /\
  (pos <= INT_MAX ->
   to_int pos = pos /\
   to_int (pos / fragsize s) = pos / fragsize s /\
   to_int (pos mod (fragsize s * frags s))
   = pos mod (fragsize s * frags s)) /\
  (INT_MAX < pos < 2 ^ 32 -> to_int pos = pos - 2 ^ 32) /\
  0 <= pos mod (fragsize s * frags s) < fragsize s * frags s /\
  (maru_stream_write_avail hw (stream s) = fragsize s * frags s - 1 ->
   pos = write_cnt s).
Proof.
  intros Hout Hbound Hfs Hfr Hbuf Hcnt Havail pos Hpos.
  assert (Hprod : 0 < fragsize s * frags s) by nia.
  split; [| split; [| split; [| split]]].
  - apply Z.eqb_neq in Hbound.
    assert (Hfz : (fragsize s =? 0) = false) by (apply Z.eqb_neq; lia).
    assert (Hu1 : to_uint (fragsize s * frags s - 1)
                  = fragsize s * frags s - 1)
      by (apply to_uint_small; lia).
    assert (Hu2 : to_uint (fragsize s * frags s) = fragsize s * frags s)
      by (apply to_uint_small; lia).
    assert (Hbz : (fragsize s * frags s =? 0) = false)
      by (apply Z.eqb_neq; lia).
    assert (Hdwc :
      to_size_t
        (to_size_t (write_cnt s + maru_stream_write_avail hw (stream s))
         - (fragsize s * frags s - 1)) = pos).
    { unfold to_size_t. rewrite Zminus_mod_idemp_l.
      apply Z.mod_small. unfold SIZE_MAX in *. subst pos. lia. }
    unfold exec, maru_ioctl, ioctl_getoptr, bind at 1, get_info.
    cbn [stream_info]. rewrite Hbound. cbn [negb].
    rewrite Hu1, Hu2, Hdwc. unfold udiv, umod. rewrite Hfz, Hbz.
    unfold bind, ret.
    rewrite prep_out_ready by (try discriminate; assumption).
    reflexivity.
  - intros Hint. rewrite !to_int_small.
    + repeat split.
    + pose proof (Z.mod_pos_bound pos (fragsize s * frags s) Hprod).
      pose proof (Z.mod_le pos (fragsize s * frags s) ltac:(lia) Hprod).
      unfold INT_MAX in *. lia.
    + pose proof (Z.div_pos pos (fragsize s) ltac:(lia) Hfs).
      pose proof (Z.div_le_upper_bound pos (fragsize s) pos Hfs ltac:(nia)).
      unfold INT_MAX in *. lia.
    + unfold INT_MAX in *. lia.
  - intros Hwrap. apply to_int_wraps. exact Hwrap.
  - apply Z.mod_pos_bound. lia.
  - intros Hfree. subst pos. lia.
Qed.

(** Get-output-pointer on an unbound slot whose fragment size and whose
    buffer size, taken as the 32-bit unsigned product that the handler
    computes, are not zero reports zero for the position, the blocks and
    the pointer, without asking the transport.  When one of the two is
    zero the handler divides by zero, bound or not and before it looks
    at its buffers; set-fragment stores such a layout when it is asked
    for 65536 fragments of 65536 bytes. *)
Theorem getoptr_unbound (hw : libmaru) (a : ioctl_args)
  (g : cuse_maru_state) (s : cuse_stream_info) :
  (out_bufsize a = sizeof_count_info ->
   stream s = LIBMARU_STREAM_MASTER ->
   fragsize s <> 0 ->
   to_uint (fragsize s * frags s) <> 0 ->
   exec (maru_ioctl hw SNDCTL_DSP_GETOPTR a) g s
   = Some (g, s,
           [Call.fuse_reply_ioctl 0
              (out_count_info
                 {| ci_bytes := 0; ci_blocks := 0; ci_ptr := 0 |})])) /\
  (fragsize s = 0 \/ to_uint (fragsize s * frags s) = 0 ->
   exec (maru_ioctl hw SNDCTL_DSP_GETOPTR a) g s = None).
Proof.
  split.
  - intros Hout Hunbound Hfs Hbuf.
    apply Z.eqb_eq in Hunbound.
    apply Z.eqb_neq in Hfs. apply Z.eqb_neq in Hbuf.
    unfold exec, maru_ioctl, ioctl_getoptr, bind at 1, get_info.
    cbn [stream_info]. rewrite Hunbound. cbn [negb].
    unfold udiv, umod. rewrite Hfs, Hbuf. unfold bind, ret.
    rewrite prep_out_ready by (try discriminate; assumption).
    rewrite Zdiv_0_l, Zmod_0_l. reflexivity.
  - intros Hzero. mrun.
    destruct (fragsize s =? 0) eqn:Hfs; [reflexivity |].
    destruct Hzero as [Hz | Hz];
      [apply Z.eqb_neq in Hfs; contradiction |].
    mrun. rewrite Hz. reflexivity.
Qed.

(** *** Reset, and the layout on the way to the hardware *)

(** The fragment layout of a bound slot cannot be set, but it can after
    a reset: the reset closes the stream, unbinds the slot and zeroes
    the write count, and the set-fragment request that follows succeeds
    and stores its fragment size.  Rate and sample format are kept. *)
Theorem reset_then_setfragment (hw1 hw2 : libmaru) (a0 a : ioctl_args)
  (g : cuse_maru_state) (s : cuse_stream_info) (fs : Z) :
  stream s <> LIBMARU_STREAM_MASTER ->
  in_bufsize a = sizeof_int ->
  out_bufsize a = sizeof_int ->
  int_shl 1 (Z.land (to_int (in_buf a)) 65535) = Some fs ->
  512 <= fs ->
  2 <= Z.land (Z.shiftr (to_int (in_buf a)) 16) 65535 ->
  exists s',
    exec (run [(hw1, Ioctl SNDCTL_DSP_RESET a0);
               (hw2, Ioctl SNDCTL_DSP_SETFRAGMENT a)]) g s
    = Some (g, s',
            [Call.maru_stream_close (stream s);
             Call.fuse_reply_ioctl 0 out_null;
             Call.fuse_reply_ioctl 0 (out_int (to_int (in_buf a)))]) /\
    stream s' = LIBMARU_STREAM_MASTER /\ write_cnt s' = 0 /\
    fragsize s' = fs /\
    sample_rate s' = sample_rate s /\ channels s' = channels s /\
    bits s' = bits s.
Proof.
  intros Hbound Hin Hout Hshl Hfs Hcount. apply Z.eqb_neq in Hbound.
  assert (Hok : (fs <? 512)
                || (Z.land (Z.shiftr (to_int (in_buf a)) 16) 65535 <? 2)
                = false).
  { apply orb_false_iff. split; apply Z.ltb_ge; assumption. }
  rewrite exec_run_cons.
  assert (Hfirst :
    exec (handle hw1 (Ioctl SNDCTL_DSP_RESET a0)) g s
    = Some (g, set_write_cnt 0 (set_stream LIBMARU_STREAM_MASTER s),
            [Call.maru_stream_close (stream s);
             Call.fuse_reply_ioctl 0 out_null])).
  { mgo. reflexivity. }
  rewrite Hfirst, exec_run_cons.
  assert (Hsecond :
    exec (handle hw2 (Ioctl SNDCTL_DSP_SETFRAGMENT a)) g
      (set_write_cnt 0 (set_stream LIBMARU_STREAM_MASTER s))
    = Some (g,
            set_frags
              (next_pot (Z.land (Z.shiftr (to_int (in_buf a)) 16) 65535))
              (set_fragsize fs
                 (set_write_cnt 0 (set_stream LIBMARU_STREAM_MASTER s))),
            [Call.fuse_reply_ioctl 0 (out_int (to_int (in_buf a)))])).
  { unfold handle, exec, maru_ioctl, ioctl_setfragment, bind at 1, get_info.
    cbn [stream_info stream set_write_cnt set_stream].
    rewrite Z.eqb_refl. cbn [negb].
    rewrite prep_inout_ready by assumption.
    rewrite Hshl. mgo. reflexivity. }
  rewrite Hsecond. eexists. split; [reflexivity |]. repeat split.
Qed.

(** For a layout whose fragment size, fragment count and buffer size
    less one each fit an [int]: the room that get-output-space reports
    on an unbound slot is one byte less than the buffer size that the
    first write then opens the hardware stream with, and the fragment
    size and count are the same in both. *)
Theorem getospace_matches_binding (hw1 hw2 : libmaru) (a : ioctl_args)
  (flags : Z) (data : list Byte.byte) (N : Z)
  (g g' : cuse_maru_state) (s s' : cuse_stream_info) (tr : list Call.t) :
  out_bufsize a = sizeof_audio_buf_info ->
  stream s = LIBMARU_STREAM_MASTER ->
  error s = false -> N <> 0 ->
  0 < fragsize s <= INT_MAX -> 0 < frags s <= INT_MAX ->
  fragsize s * frags s - 1 <= INT_MAX ->
  0 <= maru_find_available_stream hw2 ->
  exec (run [(hw1, Ioctl SNDCTL_DSP_GETOSPACE a);
             (hw2, Write flags data N)]) g s
  = Some (g', s', tr) ->
  exists info desc rest,
    tr = Call.fuse_reply_ioctl 0 (out_audio_buf_info info)
         :: Call.maru_stream_open (maru_find_available_stream hw2) desc
         :: rest /\
    abi_bytes info + 1 = desc_buffer_size desc /\
    abi_fragsize info = desc_fragment_size desc /\
    abi_fragstotal info * abi_fragsize info = desc_buffer_size desc.
Proof.
  intros Hout Hunbound Herr HN Hfs Hfr Hfit Hfree Hex.
  assert (Hprod : 0 < fragsize s * frags s) by nia.
  apply Z.eqb_eq in Hunbound. apply Z.eqb_neq in HN. apply Z.ltb_ge in Hfree.
  assert (Hfz : (fragsize s =? 0) = false) by (apply Z.eqb_neq; lia).
  assert (Hfirst :
    exec (handle hw1 (Ioctl SNDCTL_DSP_GETOSPACE a)) g s
    = Some (g, s,
            [Call.fuse_reply_ioctl 0
               (out_audio_buf_info
                  {| abi_bytes := fragsize s * frags s - 1;
                     abi_fragments := (fragsize s * frags s - 1) / fragsize s;
                     abi_fragsize := fragsize s;
                     abi_fragstotal := frags s |})])).
  { unfold handle, exec, maru_ioctl, ioctl_getospace, bind at 1, get_info.
    cbn [stream_info]. rewrite Hunbound. cbn [negb].
    rewrite to_uint_small by (unfold INT_MAX in *; lia).
    unfold udiv. rewrite Hfz. unfold bind, ret.
    rewrite prep_out_ready by (try discriminate; assumption).
    rewrite !to_int_small; try (unfold INT_MAX in *; lia); [reflexivity |].
    pose proof (Z.div_pos (fragsize s * frags s - 1) (fragsize s)
                  ltac:(lia) ltac:(lia)).
    pose proof (Z.div_le_upper_bound (fragsize s * frags s - 1) (fragsize s)
                  (fragsize s * frags s - 1) ltac:(lia) ltac:(nia)).
    unfold INT_MAX in *. lia. }
  rewrite exec_run_cons, Hfirst, exec_run_cons in Hex.
  destruct (exec (handle hw2 (Write flags data N)) g s)
    as [[[g2 s2] t2] |] eqn:Hwrite; [| discriminate].
  cbn [exec run ret g_state stream_info calls] in Hex.
  injection Hex as <- <- <-.
  assert (Hshape : exists rest,
            t2 = Call.maru_stream_open (maru_find_available_stream hw2)
                   (init_desc s) :: rest).
  { revert Hwrite. mrun. rewrite Herr, HN, Hunbound, Hfree. intros Hwrite.
    mpaths Hwrite; try discriminate Hwrite; injection Hwrite as _ _ <-;
      eexists; reflexivity. }
  destruct Hshape as [rest ->].
  do 3 eexists. split; [rewrite app_nil_r; reflexivity |].
  cbn [abi_bytes abi_fragsize abi_fragstotal init_desc desc_buffer_size
       desc_fragment_size].
  rewrite to_uint_small by (unfold INT_MAX in *; lia).
  repeat split; lia.
Qed.

(** *** The two locks *)

Lemma handle_slot_lock (hw : libmaru) (r : request)
  (g g' : cuse_maru_state) (s s' : cuse_stream_info) (tr : list Call.t) :
  exec (handle hw r) g s = Some (g', s', tr) ->
  lock s = false -> lock s' = false.
Proof.
  intros Hex Hlock. destruct r as [flags data N | cmd a | new_ph | |];
    [| destruct cmd | | |]; mpaths Hex; mdone Hex;
    first [reflexivity | exact Hlock].
Qed.

(** The lock of a slot is never left held: over any run of requests that
    complete, a slot whose lock is free at the start has it free at the
    end.  The handlers that take it, poll and the write notification,
    release it on every path. *)
Theorem slot_lock_never_leaked (rs : list (libmaru * request))
  (g g' : cuse_maru_state) (s s' : cuse_stream_info) (tr : list Call.t) :
  exec (run rs) g s = Some (g', s', tr) ->
  lock s = false ->
  lock s' = false.
Proof.
  intros Hex.
  apply (run_rel (fun _ => true)
           (fun x _ y => lock (snd x) = false -> lock (snd y) = false))
    with (tr := tr) (g := g) (g' := g') (rs := rs); cbn [snd].
  - intros x Hx. exact Hx.
  - intros x y z _ _ Hxy Hyz Hx. exact (Hyz (Hxy Hx)).
  - intros hw r g0 s0 g1 s1 t _ Hone.
    exact (handle_slot_lock hw r g0 g1 s0 s1 t Hone).
  - apply Forall_forall. reflexivity.
  - exact Hex.
Qed.

(** With [g_state.lock] held, a volume command whose buffers are there
    does not return. *)
Lemma held_lock_stalls (hw : libmaru) (cmd : ioctl_cmd) (a : ioctl_args)
  (g : cuse_maru_state) (s : cuse_stream_info) :
  is_volume (Ioctl cmd a) = true ->
  in_bufsize a = sizeof_int ->
  out_bufsize a = sizeof_int ->
  g_lock g = true ->
  exec (maru_ioctl hw cmd a) g s = None.
Proof.
  intros Hvol Hin Hout Hlock. destruct cmd; try discriminate Hvol.
  - unfold exec, maru_ioctl, ioctl_setplayvol.
    rewrite prep_inout_ready by assumption.
    mrun. rewrite Hlock. reflexivity.
  - unfold exec, maru_ioctl, ioctl_getplayvol.
    rewrite prep_out_ready by (try discriminate; assumption).
    mrun. rewrite Hlock. reflexivity.
Qed.

(** One failure of the transport on a volume command takes the volume
    commands and open out of service.  A volume command that is answered
    EIO returns with [g_state.lock] held; no handler unlocks it after
    that, so every later volume command whose buffers are there waits
    for ever, and so does every later write-only open, which gets as far
    as its lock call and makes no reply. *)
Theorem volume_failure_stalls (hw : libmaru) (cmd : ioctl_cmd)
  (a : ioctl_args) (g g' : cuse_maru_state) (s s' : cuse_stream_info)
  (tr : list Call.t) :
  is_volume (Ioctl cmd a) = true ->
  exec (maru_ioctl hw cmd a) g s = Some (g', s', tr) ->
  In (Call.fuse_reply_err EIO) tr ->
  g_lock g' = true /\
  (forall hw2 cmd2 a2 s2,
     is_volume (Ioctl cmd2 a2) = true ->
     in_bufsize a2 = sizeof_int ->
     out_bufsize a2 = sizeof_int ->
     exec (maru_ioctl hw2 cmd2 a2) g' s2 = None) /\
  (forall flags name table,
     Z.land flags 3 = O_WRONLY ->
     maru_open flags name g' table
     = (g', table, [Call.pthread_mutex_lock g_state_lock])).
Proof.
  intros Hvol Hex Hin.
  assert (Hheld : g_lock g' = true).
  { destruct cmd; try discriminate Hvol; mpaths Hex; mdone Hex;
      cbn [In] in Hin;
      repeat (destruct Hin as [Hin | Hin]; try discriminate Hin);
      try contradiction; reflexivity. }
  split; [exact Hheld |]. split.
  - intros hw2 cmd2 a2 s2 Hvol2 Hin2 Hout2.
    apply held_lock_stalls; assumption.
  - intros flags name table Hmode. unfold maru_open.
    change (Z.lor O_WRONLY (Z.lor O_RDONLY O_RDWR)) with 3.
    rewrite Hmode, Z.eqb_refl, Hheld. reflexivity.
Qed.

End Coverage.

(** * The further properties on the sample inputs *)

Lemma maru_open_lowest_free_witness :
  exists table' s',
    @maru_open sample_h O_WRONLY [] sample_g sample_table
    = (sample_g, table',
       [Call.pthread_mutex_lock g_state_lock;
        Call.pthread_mutex_unlock g_state_lock;
        Call.pthread_mutex_init stream_info_lock;
        Call.fuse_reply_open 1]) /\
    nth_error table' 1 = Some s' /\ channels s' = 2 /\ bits s' = 16.
Proof.
  destruct (@maru_open_lowest_free sample_h O_WRONLY [] sample_g
              sample_table 1 zero_stream_info eq_refl eq_refl eq_refl
              eq_refl)
    as (table' & s' & Hopen & Hnth & _ & _ & _ & _ & Hch & Hbits & _).
  - intros [| j] sj Hj Hn; [| lia]. injection Hn as <-. reflexivity.
  - exists table', s'. repeat split; assumption.
Defined.

Lemma maru_open_refused_witness :
  @maru_open sample_h O_RDWR [] sample_g sample_table
  = (sample_g, sample_table, [Call.fuse_reply_err EACCES]) /\
  @maru_open sample_h O_WRONLY [] sample_g [set_active true zero_stream_info]
  = (sample_g, [set_active true zero_stream_info],
     [Call.pthread_mutex_lock g_state_lock;
      Call.pthread_mutex_unlock g_state_lock;
      Call.fuse_reply_err EBUSY]) /\
  @maru_open sample_h O_WRONLY [] (set_g_lock true sample_g) sample_table
  = (set_g_lock true sample_g, sample_table,
     [Call.pthread_mutex_lock g_state_lock]).
Proof.
  split; [| split].
  - apply (proj1 (@maru_open_refused sample_h O_RDWR [] sample_g
                    sample_table)).
    vm_compute. discriminate.
  - apply (proj1 (proj2 (@maru_open_refused sample_h O_WRONLY [] sample_g
                           [set_active true zero_stream_info]))).
    + reflexivity.
    + reflexivity.
    + intros s [<- | []]. reflexivity.
  - apply (proj2 (proj2 (@maru_open_refused sample_h O_WRONLY []
                           (set_g_lock true sample_g) sample_table)));
      reflexivity.
Defined.

Lemma maru_open_twice_distinct_witness :
  @maru_open sample_h O_WRONLY [] sample_g
    [zero_stream_info; zero_stream_info]
  = (sample_g, [sample_open; zero_stream_info],
     [Call.pthread_mutex_lock g_state_lock;
      Call.pthread_mutex_unlock g_state_lock;
      Call.pthread_mutex_init stream_info_lock;
      Call.fuse_reply_open 0]) /\
  @maru_open sample_h O_WRONLY [] sample_g [sample_open; zero_stream_info]
  = (sample_g, [sample_open; sample_open],
     [Call.pthread_mutex_lock g_state_lock;
      Call.pthread_mutex_unlock g_state_lock;
      Call.pthread_mutex_init stream_info_lock;
      Call.fuse_reply_open 1]) /\
  0 <> 1.
Proof.
  split; [reflexivity |]. split; [reflexivity |].
  apply (@maru_open_twice_distinct sample_h O_WRONLY O_WRONLY [] []
           sample_g sample_g sample_g
           [zero_stream_info; zero_stream_info]
           [sample_open; zero_stream_info] [sample_open; sample_open]
           [Call.pthread_mutex_lock g_state_lock;
            Call.pthread_mutex_unlock g_state_lock;
            Call.pthread_mutex_init stream_info_lock;
            Call.fuse_reply_open 0]
           [Call.pthread_mutex_lock g_state_lock;
            Call.pthread_mutex_unlock g_state_lock;
            Call.pthread_mutex_init stream_info_lock;
            Call.fuse_reply_open 1]
           0 1 eq_refl).
  - cbn [In]. right. right. right. left. reflexivity.
  - reflexivity.
  - cbn [In]. right. right. right. left. reflexivity.
Defined.

Lemma release_then_open_reuses_witness :
  exists table'',
    @maru_open sample_h O_WRONLY [] sample_g sample_table
    = (sample_g, table'',
       [Call.pthread_mutex_lock g_state_lock;
        Call.pthread_mutex_unlock g_state_lock;
        Call.pthread_mutex_init stream_info_lock;
        Call.fuse_reply_open 1]) /\
    replies [Call.maru_stream_close 0;
             Call.pthread_mutex_destroy stream_info_lock;
             Call.fuse_reply_err 0]
    = [Call.fuse_reply_err 0].
Proof.
  apply (@release_then_open_reuses sample_h O_WRONLY [] sample_g sample_g
           [set_active true zero_stream_info; sample_bound] sample_table 1
           [Call.maru_stream_close 0;
            Call.pthread_mutex_destroy stream_info_lock;
            Call.fuse_reply_err 0]
           eq_refl eq_refl eq_refl).
  intros [| j] sj Hj Hn; [| lia]. injection Hn as <-. reflexivity.
Defined.

Lemma write_refused_early_witness :
  exec (@maru_write sample_h (sample_hw false 0 (fun n => n) true)
          O_WRONLY [] 0) sample_g sample_open
  = Some (sample_g, sample_open, [Call.fuse_reply_write 0]).
Proof.
  apply (proj2 (@write_refused_early sample_h
                  (sample_hw false 0 (fun n => n) true) O_WRONLY [] 0
                  sample_g sample_open)); reflexivity.
Defined.

Lemma blocking_write_submits_all_witness :
  exists s' tr,
    exec (@maru_write sample_h (sample_hw true 0 (fun n => n) true)
            O_WRONLY sample_data 4) sample_g sample_bound
    = Some (sample_g, s', tr) /\
    submitted tr = [(0, sample_data, 4)] /\
    replies tr = [Call.fuse_reply_write 4].
Proof.
  destruct (@blocking_write_submits_all sample_h
              (sample_hw true 0 (fun n => n) true) O_WRONLY sample_data 4
              sample_g sample_bound 0)
    as (s' & tr & Hex & _ & Hsub & Hrep).
  - reflexivity.
  - discriminate.
  - reflexivity.
  - left. split; [discriminate | reflexivity].
  - exists s', tr. repeat split; assumption.
Defined.

Lemma write_binding_failure_witness :
  exec (@maru_write sample_h (sample_hw false 0 (fun n => n) true)
          O_WRONLY sample_data 4) sample_g sample_open
  = Some (sample_g, sample_open, [Call.fuse_reply_err EBUSY]).
Proof.
  apply (proj1 (@write_binding_failure sample_h
                  (sample_hw false 0 (fun n => n) true) O_WRONLY sample_data
                  4 sample_g sample_open eq_refl ltac:(discriminate)
                  eq_refl)).
  reflexivity.
Defined.

Lemma maru_write_frame_witness :
  channels (set_write_cnt 4096 sample_bound) = channels sample_open /\
  fragsize (set_write_cnt 4096 sample_bound) = fragsize sample_open.
Proof.
  destruct (@maru_write_frame sample_h (sample_hw true 0 (fun n => n) true)
              O_WRONLY sample_data 4096 sample_g sample_g sample_open
              (set_write_cnt 4096 sample_bound)
              [Call.maru_stream_open 0 (init_desc sample_open);
               Call.maru_stream_set_write_notification 0;
               Call.maru_stream_write 0 sample_data 4096;
               Call.fuse_reply_write 4096] eq_refl)
    as (_ & _ & _ & Hch & _ & Hfs & _).
  split; assumption.
Defined.

Lemma submissions_come_from_writes_witness :
  submitted [Call.maru_stream_write 0 sample_data 8;
             Call.fuse_reply_write 8] = [] \/
  exists st n,
    submitted [Call.maru_stream_write 0 sample_data 8;
               Call.fuse_reply_write 8] = [(st, sample_data, n)] /\
    n <= 4096 /\ n <> 0 /\ stream (set_write_cnt 8 sample_bound) = st.
Proof.
  exact (@submissions_come_from_writes sample_h
           (sample_hw true 10 (fun n => n) true)
           (Write O_NONBLOCK sample_data 4096) sample_g sample_g
           sample_bound (set_write_cnt 8 sample_bound)
           [Call.maru_stream_write 0 sample_data 8; Call.fuse_reply_write 8]
           eq_refl).
Defined.

Lemma format_is_fixed_witness :
  exists g' s' tr,
    exec (@run sample_h
            [(sample_hw true 0 (fun n => n) true,
              Ioctl SNDCTL_DSP_CHANNELS (sample_args 6 4));
             (sample_hw true 0 (fun n => n) true,
              Write O_WRONLY sample_data 4)]) sample_g sample_open
    = Some (g', s', tr) /\
    channels s' = 2 /\ bits s' = 16.
Proof.
  destruct (exec (@run sample_h
            [(sample_hw true 0 (fun n => n) true,
              Ioctl SNDCTL_DSP_CHANNELS (sample_args 6 4));
             (sample_hw true 0 (fun n => n) true,
              Write O_WRONLY sample_data 4)]) sample_g sample_open)
    as [[[g' s'] tr] |] eqn:Hex; [| vm_compute in Hex; discriminate Hex].
  exists g', s', tr. split; [reflexivity |].
  apply (@format_is_fixed sample_h) in Hex as (Hc & Hb & _);
    [| repeat constructor].
  rewrite Hc, Hb. split; reflexivity.
Defined.

Lemma write_defined_while_open_witness :
  exists s2 tr2,
    exec (@maru_write sample_h (sample_hw true 0 (fun n => n) true)
            O_WRONLY sample_data 4) sample_g
      (set_nonblock true sample_open)
    = Some (sample_g, s2, tr2).
Proof.
  apply (@write_defined_while_open sample_h
           [(sample_hw true 0 (fun n => n) true,
             Ioctl SNDCTL_DSP_NONBLOCK (sample_args 0 0))]
           sample_g sample_g sample_open (set_nonblock true sample_open)
           [Call.fuse_reply_ioctl 0 out_null]
           (sample_hw true 0 (fun n => n) true) O_WRONLY sample_data 4
           eq_refl eq_refl).
  - repeat constructor.
  - reflexivity.
Defined.

Lemma nonblock_is_sticky_witness :
  exec (@maru_write sample_h (sample_hw true 3 (fun n => n) true)
          O_WRONLY sample_data 4) sample_g
    (set_write_cnt 4 (set_nonblock true sample_bound))
  = Some (sample_g, set_write_cnt 4 (set_nonblock true sample_bound),
          [Call.fuse_reply_err EAGAIN]).
Proof.
  apply (proj2 (@nonblock_is_sticky sample_h
                  (sample_hw true 8 (fun n => n) true) (sample_args 0 0)
                  [(sample_hw true 8 (fun n => n) true,
                    Write O_WRONLY sample_data 4)]
                  sample_g sample_g sample_bound
                  (set_write_cnt 4 (set_nonblock true sample_bound))
                  [Call.fuse_reply_ioctl 0 out_null;
                   Call.maru_stream_write 0 sample_data 4;
                   Call.fuse_reply_write 4]
                  (sample_hw true 3 (fun n => n) true) O_WRONLY sample_data 4
                  ltac:(repeat constructor) eq_refl)).
  - reflexivity.
  - reflexivity.
  - vm_compute. discriminate.
  - reflexivity.
  - reflexivity.
  - vm_compute. split; [discriminate | reflexivity].
Defined.

Lemma global_state_untouched_witness :
  ~ In (Call.pthread_mutex_lock g_state_lock)
      [Call.maru_stream_write 0 sample_data 4; Call.fuse_reply_write 4;
       Call.maru_stream_close 0;
       Call.pthread_mutex_destroy stream_info_lock;
       Call.fuse_reply_err 0].
Proof.
  apply (@global_state_untouched sample_h
           [(sample_hw true 8 (fun n => n) true,
             Write O_WRONLY sample_data 4);
            (sample_hw true 8 (fun n => n) true, Release)]
           sample_g sample_g sample_bound zero_stream_info
           [Call.maru_stream_write 0 sample_data 4; Call.fuse_reply_write 4;
            Call.maru_stream_close 0;
            Call.pthread_mutex_destroy stream_info_lock;
            Call.fuse_reply_err 0]).
  - repeat constructor.
  - reflexivity.
Defined.

Lemma stream_stays_bound_witness :
  stream (set_write_cnt 4 (set_nonblock true sample_bound))
  = stream sample_bound.
Proof.
  apply (@stream_stays_bound sample_h
           [(sample_hw true 8 (fun n => n) true,
             Ioctl SNDCTL_DSP_NONBLOCK (sample_args 0 0));
            (sample_hw true 8 (fun n => n) true,
             Write O_WRONLY sample_data 4)]
           sample_g sample_g sample_bound
           (set_write_cnt 4 (set_nonblock true sample_bound))
           [Call.fuse_reply_ioctl 0 out_null;
            Call.maru_stream_write 0 sample_data 4;
            Call.fuse_reply_write 4]).
  - repeat constructor.
  - reflexivity.
  - discriminate.
Defined.

Lemma requests_answered_once_witness :
  length
    (replies
       [Call.fuse_reply_ioctl 0 out_null;
        Call.maru_stream_write 0 sample_data 4;
        Call.fuse_reply_write 4])
  = 2%nat.
Proof.
  apply (@requests_answered_once sample_h
           [(sample_hw true 8 (fun n => n) true,
             Ioctl SNDCTL_DSP_NONBLOCK (sample_args 0 0));
            (sample_hw true 8 (fun n => n) true,
             Write O_WRONLY sample_data 4)]
           sample_g sample_bound sample_g
           (set_write_cnt 4 (set_nonblock true sample_bound))).
  reflexivity.
Defined.

Lemma poll_handles_accounted_witness :
  exists g' s' tr,
    exec (@run sample_h
            [(sample_hw true 8 (fun n => n) true, Poll (Some 7));
             (sample_hw true 8 (fun n => n) true, Poll (Some 9));
             (sample_hw true 8 (fun n => n) true, WriteNotification)])
      sample_g sample_bound
    = Some (g', s', tr) /\
    destroyed tr ++ handle_list (ph s') = [7; 9] /\
    incl (notified tr) (destroyed tr).
Proof.
  destruct (exec (@run sample_h
            [(sample_hw true 8 (fun n => n) true, Poll (Some 7));
             (sample_hw true 8 (fun n => n) true, Poll (Some 9));
             (sample_hw true 8 (fun n => n) true, WriteNotification)])
      sample_g sample_bound)
    as [[[g' s'] tr] |] eqn:Hex; [| vm_compute in Hex; discriminate Hex].
  exists g', s', tr. split; [reflexivity |].
  exact (@poll_handles_accounted sample_h _ _ _ _ _ _ Hex).
Defined.

Lemma ioctl_retry_is_pure_witness :
  exec (@maru_ioctl sample_h (sample_hw true 8 (fun n => n) true)
          SNDCTL_DSP_SETFRAGMENT (sample_args 0 0)) sample_g sample_open
  = Some (sample_g, sample_open,
          [Call.fuse_reply_ioctl_retry (4096, 4) (4096, 4)]) /\
  [Call.fuse_reply_ioctl_retry (4096, 4) (4096, 4)]
  = [Call.fuse_reply_ioctl_retry (4096, 4) (4096, 4)] /\
  (snd (4096, 4) <> 0 \/ snd (4096, 4) <> 0).
Proof.
  split; [reflexivity |].
  destruct (@ioctl_retry_is_pure sample_h
              (sample_hw true 8 (fun n => n) true) SNDCTL_DSP_SETFRAGMENT
              (sample_args 0 0) sample_g sample_g sample_open sample_open
              [Call.fuse_reply_ioctl_retry (4096, 4) (4096, 4)]
              (4096, 4) (4096, 4) eq_refl (or_introl eq_refl))
    as (_ & _ & Htr & _ & _ & Hask).
  split; assumption.
Defined.

Lemma getplayvol_level_witness :
  exists v,
    exec (@maru_ioctl sample_h (sample_hw true 8 (fun n => n) true)
            SNDCTL_DSP_GETPLAYVOL (sample_args 0 4)) sample_g sample_bound
    = Some (set_g_lock false sample_g, set_vol v sample_bound,
            [Call.pthread_mutex_lock g_state_lock;
             Call.pthread_mutex_unlock g_state_lock;
             Call.fuse_reply_ioctl 0 (out_int (257 * v))]) /\
    0 <= v <= 100.
Proof.
  destruct (@getplayvol_level sample_h (sample_hw true 8 (fun n => n) true)
              (sample_args 0 4) sample_g sample_bound 500 eq_refl eq_refl
              eq_refl)
    as (v & Hex & Hv & _).
  exists v. split; assumption.
Defined.

Lemma setplayvol_monotone_witness :
  0 <= 500 /\ 500 <= 800 /\ 800 <= 1000.
Proof.
  destruct (@setplayvol_monotone sample_h
              (sample_hw true 8 (fun n => n) true)
              (sample_hw true 8 (fun n => n) true)
              (sample_args 50 4) (sample_args 80 4)
              sample_g sample_g sample_g
              sample_bound (set_vol 500 sample_bound)
              sample_bound (set_vol 800 sample_bound)
              [Call.pthread_mutex_lock g_state_lock;
               Call.maru_stream_set_volume 0 500;
               Call.pthread_mutex_unlock g_state_lock;
               Call.fuse_reply_ioctl 0 (out_int 12850)]
              [Call.pthread_mutex_lock g_state_lock;
               Call.maru_stream_set_volume 0 800;
               Call.pthread_mutex_unlock g_state_lock;
               Call.fuse_reply_ioctl 0 (out_int 20560)]
              0 0 500 800 eq_refl eq_refl eq_refl eq_refl)
    as (H1 & H2 & H3 & _).
  - vm_compute. discriminate.
  - vm_compute. split; [reflexivity | discriminate].
  - reflexivity.
  - reflexivity.
  - right. left. reflexivity.
  - right. left. reflexivity.
  - repeat split; assumption.
Defined.

Lemma volume_round_trip_witness :
  exists v,
    exec (@run sample_h
            [(sample_hw true 8 (fun n => n) true,
              Ioctl SNDCTL_DSP_SETPLAYVOL (sample_args 50 4));
             (sample_hw true 8 (fun n => n) true,
              Ioctl SNDCTL_DSP_GETPLAYVOL (sample_args 0 4))])
      sample_g sample_bound
    = Some (sample_g, set_vol v sample_bound,
            [Call.pthread_mutex_lock g_state_lock;
             Call.maru_stream_set_volume 0 500;
             Call.pthread_mutex_unlock g_state_lock;
             Call.fuse_reply_ioctl 0 (out_int (257 * 50));
             Call.pthread_mutex_lock g_state_lock;
             Call.pthread_mutex_unlock g_state_lock;
             Call.fuse_reply_ioctl 0 (out_int (257 * v))]) /\
    49 <= v <= 50.
Proof.
  destruct (@volume_round_trip sample_h
              (sample_hw true 8 (fun n => n) true)
              (sample_hw true 8 (fun n => n) true)
              (sample_args 50 4) (sample_args 0 4) sample_g sample_bound 500
              eq_refl eq_refl eq_refl eq_refl)
    as (v & Hex & Hv & _).
  - vm_compute. discriminate.
  - vm_compute. discriminate.
  - reflexivity.
  - vm_compute. discriminate.
  - reflexivity.
  - reflexivity.
  - exists v. split; assumption.
Defined.

Lemma speed_fixed_rate_witness :
  exec (@maru_ioctl sample_h
          (sample_hw_desc 0 [sample_desc 44100 0 0] 0)
          SNDCTL_DSP_SPEED (sample_args 96000 4)) sample_g sample_open
  = Some (sample_g, set_sample_rate 44100 sample_open,
          [Call.fuse_reply_ioctl 0 (out_int 44100)]).
Proof.
  apply (@speed_fixed_rate sample_h
           (sample_hw_desc 0 [sample_desc 44100 0 0] 0)
           (sample_args 96000 4) sample_g sample_open 0
           (sample_desc 44100 0 0) [] eq_refl eq_refl).
  - intros _. vm_compute. discriminate.
  - reflexivity.
  - vm_compute. discriminate.
  - vm_compute. split; [reflexivity | discriminate].
Defined.

Lemma speed_rate_range_witness :
  exec (@maru_ioctl sample_h
          (sample_hw_desc 0 [sample_desc 0 8000 48000] 0)
          SNDCTL_DSP_SPEED (sample_args 96000 4)) sample_g sample_open
  = Some (sample_g, set_sample_rate 48000 sample_open,
          [Call.fuse_reply_ioctl 0 (out_int 48000)]).
Proof.
  apply (@speed_rate_range sample_h
           (sample_hw_desc 0 [sample_desc 0 8000 48000] 0)
           (sample_args 96000 4) sample_g sample_open 0
           (sample_desc 0 8000 48000) [] eq_refl eq_refl).
  - intros _. vm_compute. discriminate.
  - reflexivity.
  - vm_compute. discriminate.
  - reflexivity.
  - vm_compute. split; discriminate.
  - vm_compute. discriminate.
Defined.

Lemma speed_refused_witness :
  exec (@maru_ioctl sample_h (sample_hw false 0 (fun n => n) true)
          SNDCTL_DSP_SPEED (sample_args 96000 4)) sample_g sample_open
  = Some (sample_g, sample_open, [Call.fuse_reply_err EBUSY]) /\
  exec (@maru_ioctl sample_h (sample_hw true 0 (fun n => n) true)
          SNDCTL_DSP_SPEED (sample_args 96000 4)) sample_g sample_open
  = Some (sample_g, sample_open, [Call.fuse_reply_err ENOMEM]).
Proof.
  split.
  - apply (proj1 (@speed_refused sample_h
                    (sample_hw false 0 (fun n => n) true)
                    (sample_args 96000 4) sample_g sample_open
                    eq_refl eq_refl)).
    + reflexivity.
    + reflexivity.
  - apply (proj2 (@speed_refused sample_h
                    (sample_hw true 0 (fun n => n) true)
                    (sample_args 96000 4) sample_g sample_open
                    eq_refl eq_refl)).
    + intros _. vm_compute. discriminate.
    + right. reflexivity.
Defined.

Lemma getoptr_bound_witness :
  exec (@maru_ioctl sample_h (sample_hw true 65535 (fun n => n) true)
          SNDCTL_DSP_GETOPTR (sample_args 0 12)) sample_g
    (set_write_cnt 100000 sample_bound)
  = Some (sample_g, set_write_cnt 100000 sample_bound,
          [Call.fuse_reply_ioctl 0
             (out_count_info
                {| ci_bytes := 100000; ci_blocks := 6; ci_ptr := 34464 |})]).
Proof.
  apply (@getoptr_bound sample_h (sample_hw true 65535 (fun n => n) true)
           (sample_args 0 12) sample_g (set_write_cnt 100000 sample_bound)
           eq_refl).
  - vm_compute. discriminate.
  - reflexivity.
  - reflexivity.
  - reflexivity.
  - vm_compute. discriminate.
  - vm_compute. discriminate.
  - vm_compute. split; discriminate.
Defined.

(** Set-fragment accepts 65535 fragments of 65536 bytes and stores
    65536 of them; the buffer size is then zero as a 32-bit unsigned
    number. *)
Lemma getoptr_unbound_witness :
  exec (@maru_ioctl sample_h (sample_hw true 65535 (fun n => n) true)
          SNDCTL_DSP_GETOPTR (sample_args 0 12)) sample_g sample_open
  = Some (sample_g, sample_open,
          [Call.fuse_reply_ioctl 0
             (out_count_info
                {| ci_bytes := 0; ci_blocks := 0; ci_ptr := 0 |})]) /\
  exec (@maru_ioctl sample_h (sample_hw true 65535 (fun n => n) true)
          SNDCTL_DSP_SETFRAGMENT (sample_args 4294901776 4))
    sample_g sample_open
  = Some (sample_g, set_frags 65536 (set_fragsize 65536 sample_open),
          [Call.fuse_reply_ioctl 0 (out_int (-65520))]) /\
  exec (@maru_ioctl sample_h (sample_hw true 65535 (fun n => n) true)
          SNDCTL_DSP_GETOPTR (sample_args 0 12)) sample_g
    (set_frags 65536 (set_fragsize 65536 sample_open))
  = None.
Proof.
  split; [| split].
  - apply (proj1 (@getoptr_unbound sample_h
                    (sample_hw true 65535 (fun n => n) true)
                    (sample_args 0 12) sample_g sample_open)).
    + reflexivity.
    + reflexivity.
    + vm_compute. discriminate.
    + vm_compute. discriminate.
  - reflexivity.
  - apply (proj2 (@getoptr_unbound sample_h
                    (sample_hw true 65535 (fun n => n) true)
                    (sample_args 0 12) sample_g
                    (set_frags 65536 (set_fragsize 65536 sample_open)))).
    right. reflexivity.
Defined.

Lemma reset_then_setfragment_witness :
  exists s',
    exec (@run sample_h
            [(sample_hw true 0 (fun n => n) true,
              Ioctl SNDCTL_DSP_RESET (sample_args 0 0));
             (sample_hw true 0 (fun n => n) true,
              Ioctl SNDCTL_DSP_SETFRAGMENT (sample_args 262156 4))])
      sample_g sample_bound
    = Some (sample_g, s',
            [Call.maru_stream_close 0;
             Call.fuse_reply_ioctl 0 out_null;
             Call.fuse_reply_ioctl 0 (out_int 262156)]) /\
    stream s' = 4294967295 /\ write_cnt s' = 0 /\ fragsize s' = 4096.
Proof.
  destruct (@reset_then_setfragment sample_h
              (sample_hw true 0 (fun n => n) true)
              (sample_hw true 0 (fun n => n) true)
              (sample_args 0 0) (sample_args 262156 4) sample_g sample_bound
              4096)
    as (s' & Hex & Hs & Hw & Hf & _).
  - vm_compute. discriminate.
  - reflexivity.
  - reflexivity.
  - reflexivity.
  - vm_compute. discriminate.
  - vm_compute. discriminate.
  - exists s'. repeat split; assumption.
Defined.

Lemma getospace_matches_binding_witness :
  exists info desc rest,
    [Call.fuse_reply_ioctl 0
       (out_audio_buf_info
          {| abi_fragments := 3; abi_fragstotal := 4;
             abi_fragsize := 16384; abi_bytes := 65535 |});
     Call.maru_stream_open 0 (init_desc sample_open);
     Call.maru_stream_set_write_notification 0;
     Call.maru_stream_write 0 sample_data 4;
     Call.fuse_reply_write 4]
    = Call.fuse_reply_ioctl 0 (out_audio_buf_info info)
      :: Call.maru_stream_open 0 desc :: rest /\
    abi_bytes info + 1 = desc_buffer_size desc /\
    abi_fragsize info = desc_fragment_size desc /\
    abi_fragstotal info * abi_fragsize info = desc_buffer_size desc.
Proof.
  apply (@getospace_matches_binding sample_h
           (sample_hw true 65535 (fun n => n) true)
           (sample_hw true 65535 (fun n => n) true)
           (sample_args 0 16) O_WRONLY sample_data 4
           sample_g sample_g sample_open (set_write_cnt 4 sample_bound)
           _ eq_refl eq_refl eq_refl).
  - discriminate.
  - vm_compute. split; [reflexivity | discriminate].
  - vm_compute. split; [reflexivity | discriminate].
  - vm_compute. discriminate.
  - vm_compute. discriminate.
  - reflexivity.
Defined.

Lemma slot_lock_never_leaked_witness :
  lock (set_ph (Some 7) sample_bound) = false.
Proof.
  apply (@slot_lock_never_leaked sample_h
           [(sample_hw true 8 (fun n => n) true, Poll (Some 7))]
           sample_g sample_g sample_bound (set_ph (Some 7) sample_bound)
           [Call.pthread_mutex_lock stream_info_lock;
            Call.fuse_reply_poll 0;
            Call.pthread_mutex_unlock stream_info_lock]).
  - reflexivity.
  - reflexivity.
Defined.

(** The transport refuses the volume; the next volume command and the
    next open find the lock held. *)
Lemma volume_failure_stalls_witness :
  g_lock (set_g_lock true sample_g) = true /\
  exec (@maru_ioctl sample_h (sample_hw true 0 (fun n => n) true)
          SNDCTL_DSP_GETPLAYVOL (sample_args 0 4))
    (set_g_lock true sample_g) sample_bound
  = None /\
  @maru_open sample_h O_WRONLY [] (set_g_lock true sample_g) sample_table
  = (set_g_lock true sample_g, sample_table,
     [Call.pthread_mutex_lock g_state_lock]).
Proof.
  destruct (@volume_failure_stalls sample_h
              (sample_hw true 0 (fun n => n) false) SNDCTL_DSP_SETPLAYVOL
              (sample_args 50 4) sample_g (set_g_lock true sample_g)
              sample_bound sample_bound
              [Call.pthread_mutex_lock g_state_lock;
               Call.maru_stream_set_volume 0 500;
               Call.fuse_reply_err EIO]
              eq_refl eq_refl)
    as (Hheld & Hvol & Hopen).
  - right. right. left. reflexivity.
  - split; [exact Hheld |]. split.
    + apply Hvol; reflexivity.
    + apply Hopen. reflexivity.
Defined.
